(** * Webhook ingestion and event processing: a shallow embedding

    The development embeds the webhook pipeline of the payment service:
    - [WebhooksService]: [handleWebhook], [getEvents], [getEvent],
      [reprocessEvent];
    - [QueueService]: [enqueueWebhookEvent], [jobExists];
    - [WebhookProcessorService]: [processJob], [processEventByType], the
      four event handlers and [extractFailureReason];
    - [OrdersService] and [MerchantsService]: the status updaters the
      handlers call.

    All services are [async] methods over two external stores, the
    relational database behind the Prisma client and the BullMQ queue behind
    Redis.  They are embedded as computations in a state-and-exception monad
    [M] over a [World] that holds the tables, the queue, the clock and a
    schedule of faults of the stores: an awaited call returns or rejects,
    and the state it leaves behind is kept in both cases.

    Two library behaviours shape the model.  Inside the callback of
    [prisma.$transaction] only the calls made through the transaction client
    [tx] belong to the transaction; the calls the handlers make through the
    injected client [this.prisma] take effect at once.  And [Queue.add] with a
    custom job id is ignored while the queue holds a job under that id.

    Calls to the structured logger change none of this and are left out. *)

From Stdlib Require Import ZArith Lia.
From stdpp Require Import base tactics option list strings sorting pretty.

Local Open Scope Z_scope.
Local Open Scope string_scope.

(** ** Values *)

(** A JavaScript [Date], as milliseconds since the epoch. *)
Definition Date : Type := Z.

(** JavaScript truthiness of the values the services test: the empty string
    and the number [0] are falsy, as are [null] and [undefined] ([None]). *)
Definition truthy_string (s : string) : bool := negb (String.eqb s "").

Definition truthy_number (n : Z) : bool := negb (Z.eqb n 0).

(** [s || d] on an optional string. *)
Definition string_or (s : option string) (d : string) : string :=
  match s with
  | Some x => if truthy_string x then x else d
  | None => d
  end.

(** [n || d] on an optional number. *)
Definition number_or (n : option Z) (d : Z) : Z :=
  match n with
  | Some x => if truthy_number x then x else d
  | None => d
  end.

(** [n ? new Date(n * 1000) : undefined] *)
Definition date_of_seconds (n : option Z) : option Date :=
  match n with
  | Some x => if truthy_number x then Some (x * 1000) else None
  | None => None
  end.

(** [o?.f]: optional chaining into an optional field. *)
Definition chain {A B : Type} (o : option A) (f : A → option B) : option B :=
  match o with
  | Some x => f x
  | None => None
  end.

(** ** Exceptions *)

Inductive ExceptionClass : Type :=
| Error                  (* a plain [Error] *)
| SyntaxError            (* thrown by [JSON.parse] *)
| BadRequestException    (* NestJS, HTTP 400 *)
| NotFoundException      (* NestJS, HTTP 404 *)
| ConflictException      (* NestJS, HTTP 409 *)
| PrismaClientError      (* thrown by the Prisma client *)
| QueueError.            (* thrown by the BullMQ client *)

#[global] Instance ExceptionClass_eq_dec : EqDecision ExceptionClass.
Proof. solve_decision. Defined.

Record Exception : Type := mkException {
  name : ExceptionClass;
  message : string
}.

#[global] Instance Exception_eq_dec : EqDecision Exception.
Proof. solve_decision. Defined.

(** The HTTP status NestJS answers with when the exception reaches the
    controller: [HttpException]s carry their own status, everything else is
    an internal server error. *)
Definition getStatus (e : Exception) : Z :=
  match name e with
  | BadRequestException => 400
  | NotFoundException => 404
  | ConflictException => 409
  | _ => 500
  end.

(** ** The database rows *)

(** Modelled from the spec: the Prisma schema that declares the
    [stripe_events] table is not among the sources; the fields are those of
    the StoredEvent of the data model, under the names the services use. *)
Module StripeEvent.
Record t : Type := mk {
  id : string;
  stripeEventId : string;
  eventType : string;
  payload : string;
  processed : bool;
  processedAt : option Date;
  processingError : option string;
  retryCount : Z;
  createdAt : Date
}.
End StripeEvent.

(** The [data] argument of [stripeEvent.update]: a field left [undefined]
    ([None]) is not written. *)
Module StripeEventUpdateInput.
Record t : Type := mk {
  processed : option bool;
  processedAt : option Date;
  processingError : option string;
  retryCount : option Z
}.
End StripeEventUpdateInput.

Definition StripeEvent_set (d : StripeEventUpdateInput.t) (e : StripeEvent.t)
  : StripeEvent.t :=
  {| StripeEvent.id := StripeEvent.id e;
     StripeEvent.stripeEventId := StripeEvent.stripeEventId e;
     StripeEvent.eventType := StripeEvent.eventType e;
     StripeEvent.payload := StripeEvent.payload e;
     StripeEvent.processed :=
       default (StripeEvent.processed e) (StripeEventUpdateInput.processed d);
     StripeEvent.processedAt :=
       match StripeEventUpdateInput.processedAt d with
       | Some t => Some t
       | None => StripeEvent.processedAt e
       end;
     StripeEvent.processingError :=
       match StripeEventUpdateInput.processingError d with
       | Some m => Some m
       | None => StripeEvent.processingError e
       end;
     StripeEvent.retryCount :=
       default (StripeEvent.retryCount e) (StripeEventUpdateInput.retryCount d);
     StripeEvent.createdAt := StripeEvent.createdAt e |}.

(** Modelled from the spec: the Prisma schema of [merchants] is not among
    the sources; only the two keys the processor resolves a merchant by are
    kept. *)
Module Merchant.
Record t : Type := mk {
  id : string;
  stripeCustomerId : option string
}.
End Merchant.

(** Modelled from the spec: the Prisma schema of [subscriptions] is not
    among the sources; a Subscription is keyed by the provider subscription
    ID and carries a status and its billing-period bounds. *)
Module Subscription.
Record t : Type := mk {
  id : string;
  merchantId : string;
  stripeSubscriptionId : string;
  status : string;
  currentPeriodStart : option Date;
  currentPeriodEnd : option Date;
  canceledAt : option Date;
  cancelAtPeriodEnd : bool
}.
End Subscription.

(** The optional [additionalData] of [updateSubscriptionStatus]. *)
Module SubscriptionData.
Record t : Type := mk {
  currentPeriodStart : option Date;
  currentPeriodEnd : option Date;
  canceledAt : option Date;
  cancelAtPeriodEnd : option bool
}.
Definition empty : t := mk None None None None.
End SubscriptionData.

(** [data: { status, ...additionalData }] *)
Definition Subscription_set (status : string) (d : SubscriptionData.t)
    (s : Subscription.t) : Subscription.t :=
  {| Subscription.id := Subscription.id s;
     Subscription.merchantId := Subscription.merchantId s;
     Subscription.stripeSubscriptionId := Subscription.stripeSubscriptionId s;
     Subscription.status := status;
     Subscription.currentPeriodStart :=
       match SubscriptionData.currentPeriodStart d with
       | Some t => Some t
       | None => Subscription.currentPeriodStart s
       end;
     Subscription.currentPeriodEnd :=
       match SubscriptionData.currentPeriodEnd d with
       | Some t => Some t
       | None => Subscription.currentPeriodEnd s
       end;
     Subscription.canceledAt :=
       match SubscriptionData.canceledAt d with
       | Some t => Some t
       | None => Subscription.canceledAt s
       end;
     Subscription.cancelAtPeriodEnd :=
       default (Subscription.cancelAtPeriodEnd s)
               (SubscriptionData.cancelAtPeriodEnd d) |}.

(** [enum OrderStatus] of the orders service. *)
Inductive OrderStatus : Type :=
| PENDING
| PAID
| PAYMENT_FAILED
| REFUNDED
| CANCELED.

#[global] Instance OrderStatus_eq_dec : EqDecision OrderStatus.
Proof. solve_decision. Defined.

(** Modelled from the spec: the Prisma schema of [orders] is not among the
    sources; an Order is keyed by the provider invoice ID and carries a
    status, paid and failed timestamps and a failure reason. *)
Module Order.
Record t : Type := mk {
  id : string;
  merchantId : string;
  amount : Z;
  status : OrderStatus;
  stripeInvoiceId : option string;
  paidAt : option Date;
  failedAt : option Date;
  failureReason : option string;
  createdAt : Date
}.
End Order.

Module OrderUpdateInput.
Record t : Type := mk {
  status : option OrderStatus;
  stripeInvoiceId : option string;
  paidAt : option Date;
  failedAt : option Date;
  failureReason : option string
}.
End OrderUpdateInput.

Definition Order_set (d : OrderUpdateInput.t) (o : Order.t) : Order.t :=
  {| Order.id := Order.id o;
     Order.merchantId := Order.merchantId o;
     Order.amount := Order.amount o;
     Order.status := default (Order.status o) (OrderUpdateInput.status d);
     Order.stripeInvoiceId :=
       match OrderUpdateInput.stripeInvoiceId d with
       | Some i => Some i
       | None => Order.stripeInvoiceId o
       end;
     Order.paidAt :=
       match OrderUpdateInput.paidAt d with
       | Some t => Some t
       | None => Order.paidAt o
       end;
     Order.failedAt :=
       match OrderUpdateInput.failedAt d with
       | Some t => Some t
       | None => Order.failedAt o
       end;
     Order.failureReason :=
       match OrderUpdateInput.failureReason d with
       | Some r => Some r
       | None => Order.failureReason o
       end;
     Order.createdAt := Order.createdAt o |}.

(** ** The queue *)

(** [interface WebhookJobData] *)
Module WebhookJobData.
Record t : Type := mk {
  eventId : string;
  stripeEventId : string;
  eventType : string;
  payload : string;
  retryCount : Z
}.
End WebhookJobData.

(** The states of a BullMQ job; the first three are live, the last two are
    terminal (the job is kept for the retention window). *)
Inductive JobState : Type :=
| waiting
| active
| delayed
| completed
| failed.

Definition live (s : JobState) : bool :=
  match s with
  | waiting | active | delayed => true
  | completed | failed => false
  end.

(** A BullMQ [Job<WebhookJobData>]: the queue owns [attemptsMade], the
    number of attempts that have finished before the current delivery. *)
Module Job.
Record t : Type := mk {
  id : string;
  name : string;
  data : WebhookJobData.t;
  attemptsMade : Z;
  state : JobState
}.
End Job.

(** ** The world *)

(** A write issued through the transaction client [tx]; it reaches the
    table when the transaction commits. *)
Inductive TxWrite : Type :=
| TxStripeEventUpdate (id : string) (data : StripeEventUpdateInput.t).

Record World : Type := mkWorld {
  stripeEvents : list StripeEvent.t;
  merchants : list Merchant.t;
  subscriptions : list Subscription.t;
  orders : list Order.t;
  (** writes of the open interactive transaction, oldest first *)
  pending : list TxWrite;
  (** the jobs BullMQ holds, live or retained *)
  queue : list Job.t;
  (** what [new Date()] returns *)
  clock : Date;
  (** number of rows created so far, the seed of generated ids *)
  created : nat;
  (** one entry per call to an external store still to come: [Some m] makes
      that call throw with message [m]; past the end every call succeeds *)
  faults : list (option string)
}.

Definition set_stripeEvents (l : list StripeEvent.t) (w : World) : World :=
  mkWorld l (merchants w) (subscriptions w) (orders w) (pending w) (queue w)
          (clock w) (created w) (faults w).

Definition set_subscriptions (l : list Subscription.t) (w : World) : World :=
  mkWorld (stripeEvents w) (merchants w) l (orders w) (pending w) (queue w)
          (clock w) (created w) (faults w).

Definition set_orders (l : list Order.t) (w : World) : World :=
  mkWorld (stripeEvents w) (merchants w) (subscriptions w) l (pending w)
          (queue w) (clock w) (created w) (faults w).

Definition set_pending (l : list TxWrite) (w : World) : World :=
  mkWorld (stripeEvents w) (merchants w) (subscriptions w) (orders w) l
          (queue w) (clock w) (created w) (faults w).

Definition set_queue (l : list Job.t) (w : World) : World :=
  mkWorld (stripeEvents w) (merchants w) (subscriptions w) (orders w)
          (pending w) l (clock w) (created w) (faults w).

Definition set_created (n : nat) (w : World) : World :=
  mkWorld (stripeEvents w) (merchants w) (subscriptions w) (orders w)
          (pending w) (queue w) (clock w) n (faults w).

Definition set_faults (l : list (option string)) (w : World) : World :=
  mkWorld (stripeEvents w) (merchants w) (subscriptions w) (orders w)
          (pending w) (queue w) (clock w) (created w) l.

(** ** The monad of the services *)

Inductive Result (A : Type) : Type :=
| Ok (a : A)
| Throw (e : Exception).

Arguments Ok {A} a.
Arguments Throw {A} e.

(** An [async] method: it runs on a world, returns or throws, and leaves a
    world behind in both cases. *)
Definition M (A : Type) : Type := World → Result A * World.

#[global] Instance M_ret : MRet M := λ A a w, (Ok a, w).

#[global] Instance M_bind : MBind M := λ A B f m w,
  match m w with
  | (Ok a, w') => f a w'
  | (Throw e, w') => (Throw e, w')
  end.

Definition throw {A : Type} (e : Exception) : M A := λ w, (Throw e, w).

(** [try { m } catch (error) { h error }] *)
Definition try_catch {A : Type} (m : M A) (h : Exception → M A) : M A := λ w,
  match m w with
  | (Ok a, w') => (Ok a, w')
  | (Throw e, w') => h e w'
  end.

Definition gets {A : Type} (f : World → A) : M A := λ w, (Ok (f w), w).

Definition modify (f : World → World) : M unit := λ w, (Ok tt, f w).

(** [new Date()] *)
Definition new_Date : M Date := gets clock.

(** One round trip to an external store: it consumes one entry of the fault
    schedule and throws when the entry says so. *)
Definition external (cls : ExceptionClass) : M unit := λ w,
  match faults w with
  | [] => (Ok tt, w)
  | None :: fs => (Ok tt, set_faults fs w)
  | Some m :: fs => (Throw (mkException cls m), set_faults fs w)
  end.

(** ** The Prisma client *)

(** Rows are kept in insertion order.  A unique key selects the first row
    that carries it; under the unique constraints of the schema that is the
    only one. *)
Fixpoint update_first {A : Type} (p : A → bool) (f : A → A) (l : list A)
  : option (list A) :=
  match l with
  | [] => None
  | x :: l' =>
      if p x then Some (f x :: l') else cons x <$> update_first p f l'
  end.

Definition record_not_found : Exception :=
  mkException PrismaClientError "Record to update not found.".

Definition unique_constraint_failed : Exception :=
  mkException PrismaClientError "Unique constraint failed.".

Inductive StripeEventWhereUniqueInput : Type :=
| StripeEvent_id (id : string)
| StripeEvent_stripeEventId (stripeEventId : string).

Definition StripeEvent_matches (k : StripeEventWhereUniqueInput)
    (e : StripeEvent.t) : bool :=
  match k with
  | StripeEvent_id i => bool_decide (StripeEvent.id e = i)
  | StripeEvent_stripeEventId i => bool_decide (StripeEvent.stripeEventId e = i)
  end.

Inductive OrderWhereUniqueInput : Type :=
| Order_id (id : string)
| Order_stripeInvoiceId (stripeInvoiceId : string).

Definition Order_matches (k : OrderWhereUniqueInput) (o : Order.t) : bool :=
  match k with
  | Order_id i => bool_decide (Order.id o = i)
  | Order_stripeInvoiceId i => bool_decide (Order.stripeInvoiceId o = Some i)
  end.

(** [orderBy: { createdAt: 'desc' }] on events and
    [orderBy: { createdAt: 'asc' }] on orders. *)
Definition newer_first (a b : StripeEvent.t) : Prop :=
  (StripeEvent.createdAt b ≤ StripeEvent.createdAt a)%Z.

Definition older_first (a b : Order.t) : Prop :=
  (Order.createdAt a ≤ Order.createdAt b)%Z.

#[global] Instance newer_first_dec : RelDecision newer_first.
Proof. intros a b. unfold newer_first. apply Z_le_dec. Defined.

#[global] Instance older_first_dec : RelDecision older_first.
Proof. intros a b. unfold older_first. apply Z_le_dec. Defined.

(** [orderBy: { createdAt: 'asc' | 'desc' }] of [order.findMany]. *)
Inductive SortOrder : Type :=
| asc
| desc.

Definition Order_by_createdAt (s : SortOrder) (a b : Order.t) : Prop :=
  match s with
  | asc => (Order.createdAt a ≤ Order.createdAt b)%Z
  | desc => (Order.createdAt b ≤ Order.createdAt a)%Z
  end.

#[global] Instance Order_by_createdAt_dec (s : SortOrder) :
  RelDecision (Order_by_createdAt s).
Proof. intros a b. destruct s; apply Z_le_dec. Defined.

(** The [where] of [order.findMany]: a filter left [undefined] ([None])
    selects every row; [stripeInvoiceId: null] is [Some None]. *)
Module OrderWhereInput.
Record t : Type := mk {
  merchantId : option string;
  status : option OrderStatus;
  stripeInvoiceId : option (option string)
}.
End OrderWhereInput.

Definition Order_where (q : OrderWhereInput.t) (o : Order.t) : bool :=
  match OrderWhereInput.merchantId q with
  | Some m => bool_decide (Order.merchantId o = m)
  | None => true
  end &&
  match OrderWhereInput.status q with
  | Some s => bool_decide (Order.status o = s)
  | None => true
  end &&
  match OrderWhereInput.stripeInvoiceId q with
  | Some i => bool_decide (Order.stripeInvoiceId o = i)
  | None => true
  end.

(** [take: n]: the first [n] rows of the ordered result, and for a negative
    [n] the last [-n] of them. *)
Definition prisma_take {A : Type} (n : Z) (l : list A) : list A :=
  if (0 <=? n)%Z then take (Z.to_nat n) l
  else drop (length l - Z.to_nat (- n))%nat l.

(** The [where] of [stripeEvent.findMany]: an [undefined] filter selects
    every row. *)
Definition StripeEvent_where (processed : option bool)
    (eventType : option string) (e : StripeEvent.t) : bool :=
  match processed with
  | Some b => bool_decide (StripeEvent.processed e = b)
  | None => true
  end &&
  match eventType with
  | Some t => bool_decide (StripeEvent.eventType e = t)
  | None => true
  end.

(** The [where] of the [order.findFirst] that looks for an order to link. *)
Definition Order_where_pending (merchantId : string) (amount : Z)
    (o : Order.t) : bool :=
  bool_decide (Order.merchantId o = merchantId)
  && bool_decide (Order.status o = PENDING)
  && bool_decide (Order.stripeInvoiceId o = None)
  && bool_decide (Order.amount o = amount).

(** The regular client [this.prisma]: every call is a round trip to the
    database and takes effect at once, whether or not a transaction is
    open. *)
Module prisma.

Module stripeEvent.

Definition findUnique (k : StripeEventWhereUniqueInput)
  : M (option StripeEvent.t) :=
  external PrismaClientError;;
  gets (λ w, find (StripeEvent_matches k) (stripeEvents w)).

(** The columns not given in [data] take their defaults: a generated [id],
    [createdAt = now()], no processing timestamp and no error. *)
Definition create (stripeEventId eventType payload : string)
    (processed : bool) (retryCount : Z) : M StripeEvent.t :=
  external PrismaClientError;;
  rows ← gets stripeEvents;
  match find (StripeEvent_matches (StripeEvent_stripeEventId stripeEventId))
             rows with
  | Some _ => throw unique_constraint_failed
  | None =>
      n ← gets created;
      now ← gets clock;
      let row :=
        StripeEvent.mk ("c" +:+ pretty n) stripeEventId eventType payload
                       processed None None retryCount now in
      modify (set_created (S n));;
      modify (set_stripeEvents (rows ++ [row]));;
      mret row
  end.

Definition update (k : StripeEventWhereUniqueInput)
    (data : StripeEventUpdateInput.t) : M unit :=
  external PrismaClientError;;
  rows ← gets stripeEvents;
  match update_first (StripeEvent_matches k) (StripeEvent_set data) rows with
  | Some rows' => modify (set_stripeEvents rows')
  | None => throw record_not_found
  end.

Definition findMany (processed : option bool) (eventType : option string)
    (take : Z) : M (list StripeEvent.t) :=
  external PrismaClientError;;
  rows ← gets stripeEvents;
  mret (prisma_take take
          (merge_sort newer_first
             (filter (λ e, StripeEvent_where processed eventType e) rows))).

End stripeEvent.

Module merchant.

Definition findUnique_stripeCustomerId (stripeCustomerId : string)
  : M (option Merchant.t) :=
  external PrismaClientError;;
  gets (λ w, find (λ m, bool_decide
                          (Merchant.stripeCustomerId m = Some stripeCustomerId))
                  (merchants w)).

End merchant.

Module subscription.

Definition by_stripeSubscriptionId (k : string) (s : Subscription.t) : bool :=
  bool_decide (Subscription.stripeSubscriptionId s = k).

Definition findUnique (stripeSubscriptionId : string)
  : M (option Subscription.t) :=
  external PrismaClientError;;
  gets (λ w, find (by_stripeSubscriptionId stripeSubscriptionId)
                  (subscriptions w)).

Definition update (stripeSubscriptionId : string) (status : string)
    (data : SubscriptionData.t) : M Subscription.t :=
  external PrismaClientError;;
  rows ← gets subscriptions;
  match find (by_stripeSubscriptionId stripeSubscriptionId) rows,
        update_first (by_stripeSubscriptionId stripeSubscriptionId)
                     (Subscription_set status data) rows with
  | Some s, Some rows' =>
      modify (set_subscriptions rows');;
      mret (Subscription_set status data s)
  | _, _ => throw record_not_found
  end.

End subscription.

Module order.

Definition findUnique (k : OrderWhereUniqueInput) : M (option Order.t) :=
  external PrismaClientError;;
  gets (λ w, find (Order_matches k) (orders w)).

(** [findFirst] with [orderBy: { createdAt: 'asc' }]: the head of the
    selected rows in that order. *)
Definition findFirst_pending (merchantId : string) (amount : Z)
  : M (option Order.t) :=
  external PrismaClientError;;
  rows ← gets orders;
  mret (head (merge_sort older_first
                (filter (λ o, Order_where_pending merchantId amount o) rows))).

Definition update (k : OrderWhereUniqueInput) (data : OrderUpdateInput.t)
  : M Order.t :=
  external PrismaClientError;;
  rows ← gets orders;
  match find (Order_matches k) rows,
        update_first (Order_matches k) (Order_set data) rows with
  | Some o, Some rows' =>
      modify (set_orders rows');;
      mret (Order_set data o)
  | _, _ => throw record_not_found
  end.

Definition findMany (where_ : OrderWhereInput.t) (orderBy : SortOrder)
  : M (list Order.t) :=
  external PrismaClientError;;
  rows ← gets orders;
  mret (merge_sort (Order_by_createdAt orderBy)
                   (filter (λ o, Order_where where_ o) rows)).

(** [update] of the column [stripeInvoiceId], which the schema declares
    unique (it is a key of [findUnique]): the update is refused when another
    row carries the value. *)
Definition update_stripeInvoiceId (id stripeInvoiceId : string) : M Order.t :=
  external PrismaClientError;;
  rows ← gets orders;
  let data := OrderUpdateInput.mk None (Some stripeInvoiceId) None None None in
  match find (Order_matches (Order_id id)) rows,
        update_first (Order_matches (Order_id id)) (Order_set data) rows with
  | Some o, Some rows' =>
      match find (λ x, Order_matches (Order_stripeInvoiceId stripeInvoiceId) x
                       && negb (Order_matches (Order_id id) x)) rows with
      | Some _ => throw unique_constraint_failed
      | None => modify (set_orders rows');; mret (Order_set data o)
      end
  | _, _ => throw record_not_found
  end.

End order.

End prisma.

(** The transaction client [tx] handed to the callback of
    [prisma.$transaction]: it reads the table as the transaction sees it, the
    committed rows with its own writes applied, and its writes are held back
    until the commit. *)
Definition apply_write (rows : list StripeEvent.t) (wr : TxWrite)
  : list StripeEvent.t :=
  match wr with
  | TxStripeEventUpdate i data =>
      default rows
        (update_first (StripeEvent_matches (StripeEvent_id i))
                      (StripeEvent_set data) rows)
  end.

Definition tx_view (w : World) : list StripeEvent.t :=
  foldl apply_write (stripeEvents w) (pending w).

Module tx.

Module stripeEvent.

Definition findUnique (k : StripeEventWhereUniqueInput)
  : M (option StripeEvent.t) :=
  external PrismaClientError;;
  gets (λ w, find (StripeEvent_matches k) (tx_view w)).

(** The processor addresses the row it updates by [id]. *)
Definition update (id : string) (data : StripeEventUpdateInput.t) : M unit :=
  external PrismaClientError;;
  rows ← gets tx_view;
  match find (StripeEvent_matches (StripeEvent_id id)) rows with
  | Some _ =>
      modify (λ w, set_pending (pending w ++ [TxStripeEventUpdate id data]) w)
  | None => throw record_not_found
  end.

End stripeEvent.

End tx.

(** [prisma.$transaction(async (tx) => body)]: the writes issued through
    [tx] commit when the callback returns and are dropped when it throws.
    What the callback does through the regular client is not part of the
    transaction. *)
Definition transaction {A : Type} (body : M A) : M A := λ w,
  match body (set_pending [] w) with
  | (Ok a, w') =>
      (Ok a, set_pending (pending w) (set_stripeEvents (tx_view w') w'))
  | (Throw e, w') => (Throw e, set_pending (pending w) w')
  end.

(** ** The BullMQ queue *)

Module webhookQueue.

Definition has_id (jobId : string) (j : Job.t) : bool :=
  bool_decide (Job.id j = jobId).

(** [Queue.getJob]: the job under that id in whatever state, or
    [undefined]. *)
Definition getJob (jobId : string) : M (option Job.t) :=
  external QueueError;;
  gets (λ w, find (has_id jobId) (queue w)).

(** [Queue.add] with a custom [jobId]: when the queue already holds a job
    under that id nothing is added. *)
Definition add (name : string) (data : WebhookJobData.t) (jobId : string)
  : M Job.t :=
  external QueueError;;
  jobs ← gets queue;
  let job := Job.mk jobId name data 0 waiting in
  match find (has_id jobId) jobs with
  | Some _ => mret job
  | None => modify (set_queue (jobs ++ [job]));; mret job
  end.

End webhookQueue.

(** ** Provider events *)

(** A field of a provider object that holds either the id of another object
    or that object expanded. *)
Inductive Expandable (A : Type) : Type :=
| Ref (id : string)
| Expanded (object : A).

Arguments Ref {A} id.
Arguments Expanded {A} object.

Module Stripe.

(** What the processor reads of an expanded customer or subscription. *)
Record Named : Type := mkNamed { named_id : string }.

(** [invoice.last_finalization_error] *)
Record ApiError : Type := mkApiError { error_message : option string }.

Record Charge : Type := mkCharge { failure_message : option string }.

(** [event.data.object].  The handlers cast it to an invoice or to a
    subscription without a check, so it is one record with the fields either
    view reads; a field the JSON lacks is [None]. *)
Record Object : Type := mkObject {
  object_id : string;
  customer : option (Expandable Named);
  subscription : option (Expandable Named);
  period_start : option Z;
  period_end : option Z;
  amount_paid : option Z;
  last_finalization_error : option ApiError;
  charge : option (Expandable Charge);
  status : string;
  current_period_start : option Z;
  current_period_end : option Z;
  canceled_at : option Z;
  cancel_at_period_end : option bool
}.

Record Event : Type := mkEvent {
  id : string;
  type : string;
  object : Object
}.

End Stripe.

(** The raw request body. *)
Definition Buffer : Type := list Byte.byte.

(** What the services take from their environment: the configured webhook
    secret, the provider library's signature check, and the JSON codec of
    events ([JSON_parse] gives the message of the [SyntaxError] when the text
    is not JSON). *)
Record Env : Type := mkEnv {
  STRIPE_WEBHOOK_SECRET : option string;
  constructEvent : Buffer → string → string → Exception + Stripe.Event;
  JSON_stringify : Stripe.Event → string;
  JSON_parse : string → string + Stripe.Event
}.

(** ** StripeService *)

Module StripeService.

(** [verifyWebhookSignature]: synchronous, it returns the event or throws. *)
Definition verifyWebhookSignature (env : Env) (payload : Buffer)
    (signature : string) : M Stripe.Event :=
  match STRIPE_WEBHOOK_SECRET env with
  | None => throw (mkException Error "STRIPE_WEBHOOK_SECRET is not configured")
  | Some webhookSecret =>
      if truthy_string webhookSecret then
        match constructEvent env payload signature webhookSecret with
        | inl e => throw e
        | inr event => mret event
        end
      else throw (mkException Error "STRIPE_WEBHOOK_SECRET is not configured")
  end.

End StripeService.

(** ** QueueService *)

Module QueueService.

(** The provider event id is the job id. *)
Definition enqueueWebhookEvent (data : WebhookJobData.t) : M string :=
  job ← webhookQueue.add (WebhookJobData.eventType data) data
                         (WebhookJobData.stripeEventId data);
  mret (Job.id job).

Definition jobExists (stripeEventId : string) : M bool :=
  job ← webhookQueue.getJob stripeEventId;
  mret (bool_decide (job ≠ None)).

End QueueService.

(** ** WebhooksService *)

Module WebhooksService.

Record GetEventsOptions : Type := mkOptions {
  processed : option bool;
  eventType : option string;
  limit : option Z
}.

Section WithEnv.
Variable env : Env.

Definition handleWebhook (payload : Buffer) (signature : string)
  : M StripeEvent.t :=
  (* Step 1: verify the signature *)
  event ← try_catch
            (StripeService.verifyWebhookSignature env payload signature)
            (λ _, throw (mkException BadRequestException
                                     "Invalid webhook signature"));
  (* Step 2: check for a duplicate *)
  existingEvent ← prisma.stripeEvent.findUnique
                    (StripeEvent_stripeEventId (Stripe.id event));
  match existingEvent with
  | Some existingEvent =>
      (if negb (StripeEvent.processed existingEvent) then
         jobExists ← QueueService.jobExists (Stripe.id event);
         if negb jobExists then
           QueueService.enqueueWebhookEvent
             (WebhookJobData.mk (StripeEvent.id existingEvent)
                                (Stripe.id event)
                                (Stripe.type event)
                                (StripeEvent.payload existingEvent)
                                (StripeEvent.retryCount existingEvent));;
           mret tt
         else mret tt
       else mret tt);;
      mret existingEvent
  | None =>
      (* Step 3: persist *)
      stripeEvent ← prisma.stripeEvent.create
                      (Stripe.id event) (Stripe.type event)
                      (JSON_stringify env event) false 0;
      (* Step 4: enqueue; a failure is logged and swallowed *)
      try_catch
        (QueueService.enqueueWebhookEvent
           (WebhookJobData.mk (StripeEvent.id stripeEvent)
                              (Stripe.id event)
                              (Stripe.type event)
                              (StripeEvent.payload stripeEvent)
                              0);;
         mret tt)
        (λ _, mret tt);;
      mret stripeEvent
  end.

End WithEnv.

(** [take: options?.limit || 100] *)
Definition getEvents (options : option GetEventsOptions)
  : M (list StripeEvent.t) :=
  prisma.stripeEvent.findMany
    (chain options processed)
    (chain options eventType)
    (number_or (chain options limit) 100).

Definition getEvent (stripeEventId : string) : M (option StripeEvent.t) :=
  prisma.stripeEvent.findUnique (StripeEvent_stripeEventId stripeEventId).

Definition reprocessEvent (stripeEventId : string) : M unit :=
  event ← prisma.stripeEvent.findUnique
            (StripeEvent_stripeEventId stripeEventId);
  match event with
  | None =>
      throw (mkException BadRequestException
                         ("Event " +:+ stripeEventId +:+ " not found"))
  | Some event =>
      if StripeEvent.processed event then
        throw (mkException ConflictException
                 ("Event " +:+ stripeEventId +:+ " already processed"))
      else
        QueueService.enqueueWebhookEvent
          (WebhookJobData.mk (StripeEvent.id event)
                             (StripeEvent.stripeEventId event)
                             (StripeEvent.eventType event)
                             (StripeEvent.payload event)
                             (StripeEvent.retryCount event));;
        mret tt
  end.

End WebhooksService.

(** ** MerchantsService *)

Module MerchantsService.

Definition getMerchantByStripeCustomerId (stripeCustomerId : string)
  : M (option Merchant.t) :=
  prisma.merchant.findUnique_stripeCustomerId stripeCustomerId.

Definition updateSubscriptionStatus (stripeSubscriptionId : string)
    (status : string) (additionalData : SubscriptionData.t)
  : M (option Subscription.t) :=
  subscription ← prisma.subscription.findUnique stripeSubscriptionId;
  match subscription with
  | None => mret None
  | Some _ =>
      updated ← prisma.subscription.update stripeSubscriptionId status
                  additionalData;
      mret (Some updated)
  end.

End MerchantsService.

(** ** OrdersService *)

Module OrdersService.

Definition getOrderByInvoiceId (stripeInvoiceId : string)
  : M (option Order.t) :=
  prisma.order.findUnique (Order_stripeInvoiceId stripeInvoiceId).

Definition markOrderAsPaid (stripeInvoiceId : string) (paidAt : option Date)
  : M (option Order.t) :=
  order ← prisma.order.findUnique (Order_stripeInvoiceId stripeInvoiceId);
  match order with
  | None => mret None
  | Some order =>
      (* Idempotency: skip if already paid *)
      if bool_decide (Order.status order = PAID) then mret (Some order)
      else
        at_ ← match paidAt with Some d => mret d | None => new_Date end;
        updated ← prisma.order.update (Order_stripeInvoiceId stripeInvoiceId)
                    (OrderUpdateInput.mk (Some PAID) None (Some at_) None None);
        mret (Some updated)
  end.

Definition markOrderAsPaymentFailed (stripeInvoiceId : string)
    (failureReason : option string) : M (option Order.t) :=
  order ← prisma.order.findUnique (Order_stripeInvoiceId stripeInvoiceId);
  match order with
  | None => mret None
  | Some order =>
      (* Idempotency: skip if already in terminal state *)
      if bool_decide (Order.status order = PAID)
         || bool_decide (Order.status order = PAYMENT_FAILED)
      then mret (Some order)
      else
        now ← new_Date;
        updated ← prisma.order.update (Order_stripeInvoiceId stripeInvoiceId)
                    (OrderUpdateInput.mk
                       (Some PAYMENT_FAILED) None None (Some now)
                       (Some (string_or failureReason "Payment failed")));
        mret (Some updated)
  end.

Definition findAndLinkOrderToInvoice (merchantId stripeInvoiceId : string)
    (amountPaid : Z) : M (option Order.t) :=
  pendingOrder ← prisma.order.findFirst_pending merchantId amountPaid;
  match pendingOrder with
  | None => mret None
  | Some pendingOrder =>
      updated ← prisma.order.update (Order_id (Order.id pendingOrder))
                  (OrderUpdateInput.mk None (Some stripeInvoiceId)
                                       None None None);
      mret (Some updated)
  end.

Definition getOrder (id : string) : M Order.t :=
  order ← prisma.order.findUnique (Order_id id);
  match order with
  | None =>
      throw (mkException NotFoundException
                         ("Order with ID " +:+ id +:+ " not found"))
  | Some order => mret order
  end.

Definition getMerchantOrders (merchantId : string) : M (list Order.t) :=
  prisma.order.findMany (OrderWhereInput.mk (Some merchantId) None None) desc.

(** [if (order.stripeInvoiceId)]: an empty invoice id counts as no link. *)
Definition linkOrderToInvoice (orderId stripeInvoiceId : string)
  : M Order.t :=
  order ← prisma.order.findUnique (Order_id orderId);
  match order with
  | None =>
      throw (mkException NotFoundException
                         ("Order with ID " +:+ orderId +:+ " not found"))
  | Some order =>
      if from_option truthy_string false (Order.stripeInvoiceId order) then
        throw (mkException BadRequestException
                           "Order is already linked to an invoice")
      else prisma.order.update_stripeInvoiceId orderId stripeInvoiceId
  end.

Definition findPendingOrdersForMerchant (merchantId : string)
  : M (list Order.t) :=
  prisma.order.findMany
    (OrderWhereInput.mk (Some merchantId) (Some PENDING) (Some None)) asc.

End OrdersService.

(** ** WebhookProcessorService *)

Module WebhookProcessorService.

(** [WEBHOOK_JOB_TYPES] *)
Definition INVOICE_PAYMENT_SUCCEEDED : string := "invoice.payment_succeeded".
Definition INVOICE_PAYMENT_FAILED : string := "invoice.payment_failed".
Definition CUSTOMER_SUBSCRIPTION_UPDATED : string :=
  "customer.subscription.updated".
Definition CUSTOMER_SUBSCRIPTION_DELETED : string :=
  "customer.subscription.deleted".

(** [typeof x === 'string' ? x : x?.id] *)
Definition id_of (x : option (Expandable Stripe.Named)) : option string :=
  match x with
  | Some (Ref s) => Some s
  | Some (Expanded o) => Some (Stripe.named_id o)
  | None => None
  end.

(** Truthiness of an expandable field: an object is truthy, an id is truthy
    unless it is the empty string. *)
Definition present {A : Type} (x : option (Expandable A)) : bool :=
  match x with
  | Some (Ref s) => truthy_string s
  | Some (Expanded _) => true
  | None => false
  end.

(** [customerId ? getMerchantByStripeCustomerId(customerId) : null] *)
Definition resolveMerchant (customerId : option string)
  : M (option Merchant.t) :=
  match customerId with
  | Some c =>
      if truthy_string c then MerchantsService.getMerchantByStripeCustomerId c
      else mret None
  | None => mret None
  end.

Definition extractFailureReason (invoice : Stripe.Object) : string :=
  match Stripe.last_finalization_error invoice with
  | Some err => string_or (Stripe.error_message err) "Payment failed"
  | None =>
      match Stripe.charge invoice with
      | Some (Expanded charge) =>
          match Stripe.failure_message charge with
          | Some m => if truthy_string m then m else "Payment failed"
          | None => "Payment failed"
          end
      | _ => "Payment failed"
      end
  end.

Definition handleInvoicePaymentSucceeded (event : Stripe.Event) : M unit :=
  let invoice := Stripe.object event in
  let customerId := id_of (Stripe.customer invoice) in
  merchant ← resolveMerchant customerId;
  match merchant with
  | None => mret tt
  | Some merchant =>
      (if present (Stripe.subscription invoice) then
         MerchantsService.updateSubscriptionStatus
           (default "" (id_of (Stripe.subscription invoice)))
           "active"
           (SubscriptionData.mk
              (date_of_seconds (Stripe.period_start invoice))
              (date_of_seconds (Stripe.period_end invoice))
              None None);;
         mret tt
       else mret tt);;
      order ← OrdersService.getOrderByInvoiceId (Stripe.object_id invoice);
      match order with
      | Some _ =>
          now ← new_Date;
          OrdersService.markOrderAsPaid (Stripe.object_id invoice) (Some now);;
          mret tt
      | None =>
          let amountPaid := number_or (Stripe.amount_paid invoice) 0 in
          linkedOrder ← OrdersService.findAndLinkOrderToInvoice
                          (Merchant.id merchant) (Stripe.object_id invoice)
                          amountPaid;
          match linkedOrder with
          | Some _ =>
              now ← new_Date;
              OrdersService.markOrderAsPaid (Stripe.object_id invoice)
                                            (Some now);;
              mret tt
          | None => mret tt
          end
      end
  end.

Definition handleInvoicePaymentFailed (event : Stripe.Event) : M unit :=
  let invoice := Stripe.object event in
  let customerId := id_of (Stripe.customer invoice) in
  let failureReason := extractFailureReason invoice in
  merchant ← resolveMerchant customerId;
  match merchant with
  | None => mret tt
  | Some merchant =>
      (if present (Stripe.subscription invoice) then
         MerchantsService.updateSubscriptionStatus
           (default "" (id_of (Stripe.subscription invoice)))
           "past_due" SubscriptionData.empty;;
         mret tt
       else mret tt);;
      order ← OrdersService.getOrderByInvoiceId (Stripe.object_id invoice);
      match order with
      | Some _ =>
          OrdersService.markOrderAsPaymentFailed (Stripe.object_id invoice)
                                                 (Some failureReason);;
          mret tt
      | None => mret tt
      end
  end.

Definition handleSubscriptionUpdated (event : Stripe.Event) : M unit :=
  let subscription := Stripe.object event in
  MerchantsService.updateSubscriptionStatus
    (Stripe.object_id subscription)
    (Stripe.status subscription)
    (SubscriptionData.mk
       (date_of_seconds (Stripe.current_period_start subscription))
       (date_of_seconds (Stripe.current_period_end subscription))
       (date_of_seconds (Stripe.canceled_at subscription))
       (Stripe.cancel_at_period_end subscription));;
  mret tt.

Definition handleSubscriptionDeleted (event : Stripe.Event) : M unit :=
  let subscription := Stripe.object event in
  now ← new_Date;
  MerchantsService.updateSubscriptionStatus
    (Stripe.object_id subscription) "canceled"
    (SubscriptionData.mk None None (Some now) None);;
  mret tt.

(** The [switch] on [event.type]; the [default] branch only logs. *)
Definition processEventByType (event : Stripe.Event) : M unit :=
  if String.eqb (Stripe.type event) INVOICE_PAYMENT_SUCCEEDED then
    handleInvoicePaymentSucceeded event
  else if String.eqb (Stripe.type event) INVOICE_PAYMENT_FAILED then
    handleInvoicePaymentFailed event
  else if String.eqb (Stripe.type event) CUSTOMER_SUBSCRIPTION_UPDATED then
    handleSubscriptionUpdated event
  else if String.eqb (Stripe.type event) CUSTOMER_SUBSCRIPTION_DELETED then
    handleSubscriptionDeleted event
  else mret tt.

Section WithEnv.
Variable env : Env.

(** [JSON.parse(payload)] *)
Definition parse (payload : string) : M Stripe.Event :=
  match JSON_parse env payload with
  | inl m => throw (mkException SyntaxError m)
  | inr event => mret event
  end.

Definition processJob (job : Job.t) : M unit :=
  let eventId := WebhookJobData.eventId (Job.data job) in
  let stripeEventId := WebhookJobData.stripeEventId (Job.data job) in
  let payload := WebhookJobData.payload (Job.data job) in
  try_catch
    (transaction (
       (* Check if already processed (idempotency) *)
       existingEvent ← tx.stripeEvent.findUnique
                         (StripeEvent_stripeEventId stripeEventId);
       if from_option StripeEvent.processed false existingEvent then mret tt
       else
         event ← parse payload;
         processEventByType event;;
         (* Mark event as processed *)
         now ← new_Date;
         tx.stripeEvent.update eventId
           (StripeEventUpdateInput.mk (Some true) (Some now) None
                                      (Some (Job.attemptsMade job)))))
    (λ error,
       (* Update retry count and error *)
       prisma.stripeEvent.update (StripeEvent_id eventId)
         (StripeEventUpdateInput.mk None None (Some (message error))
                                    (Some (Job.attemptsMade job + 1)));;
       throw error).

End WithEnv.

End WebhookProcessorService.

(** ** WebhooksController *)

Module WebhooksController.

Section WithEnv.
Variable env : Env.

(** [POST /webhooks/stripe].  [rawBody] is [undefined] ([None]) when the
    body parser kept no raw body; a buffer, even an empty one, is truthy. *)
Definition handleStripeWebhook (rawBody : option Buffer)
    (signature : string) : M (bool * string) :=
  match rawBody with
  | None => throw (mkException Error "Raw body not available")
  | Some rawBody =>
      event ← WebhooksService.handleWebhook env rawBody signature;
      mret (true, StripeEvent.stripeEventId event)
  end.

End WithEnv.

(** [processed === 'true' ? true : processed === 'false' ? false :
    undefined], on a query parameter that is a string or [undefined]. *)
Definition processed_filter (processed : option string) : option bool :=
  if bool_decide (processed = Some "true") then Some true
  else if bool_decide (processed = Some "false") then Some false
  else None.

Section WithParseInt.
(** [parseInt(text, radix)]; [None] is [NaN]. *)
Variable parseInt : string → Z → option Z.

(** [GET /webhooks/events]: the query parameters arrive as strings. *)
Definition getEvents (processed eventType limit : option string)
  : M (list StripeEvent.t) :=
  WebhooksService.getEvents
    (Some (WebhooksService.mkOptions
             (processed_filter processed)
             eventType
             (match limit with
              | Some text =>
                  if truthy_string text then parseInt text 10 else None
              | None => None
              end))).

End WithParseInt.

(** [POST /webhooks/events/:id/reprocess] answers [{ success: true }]. *)
Definition reprocessEvent (stripeEventId : string) : M bool :=
  WebhooksService.reprocessEvent stripeEventId;;
  mret true.

End WebhooksController.

(** ** Notions used in the statements *)

(** A world whose fault schedule is exhausted: every call to an external
    store succeeds. *)
Definition healthy (w : World) : Prop := faults w = [].

(** The two messages the reason is drawn from. *)
Definition finalization_message (invoice : Stripe.Object) : option string :=
  chain (Stripe.last_finalization_error invoice) Stripe.error_message.

Definition charge_failure_message (invoice : Stripe.Object) : option string :=
  match Stripe.charge invoice with
  | Some (Expanded charge) => Stripe.failure_message charge
  | _ => None
  end.

Definition non_empty (s : option string) : bool :=
  from_option truthy_string false s.

(** The reason as the specification words it: the first non-empty string
    among the finalization error message and the charge failure message,
    else the generic default. *)
Definition failure_reason_spec (invoice : Stripe.Object) : string :=
  match filter (λ s, non_empty s)
               [finalization_message invoice; charge_failure_message invoice]
  with
  | Some s :: _ => s
  | _ => "Payment failed"
  end.

(** An invoice whose finalization error has no message while its charge has
    one. *)
Definition invoice_declined : Stripe.Object :=
  Stripe.mkObject "in_1" (Some (Ref "cus_1")) None None None (Some 0)
    (Some (Stripe.mkApiError None))
    (Some (Expanded (Stripe.mkCharge (Some "Your card was declined."))))
    "open" None None None None.

(** The rows a listing selects. *)
Definition selected (options : option WebhooksService.GetEventsOptions)
    (w : World) : list StripeEvent.t :=
  filter (λ e, StripeEvent_where (chain options WebhooksService.processed)
                                 (chain options WebhooksService.eventType) e)
         (stripeEvents w).

Definition stored (id : string) (processed : bool) (retryCount createdAt : Z)
  : StripeEvent.t :=
  StripeEvent.mk ("row_" +:+ id) id "invoice.payment_failed" "{}" processed
                 None None retryCount createdAt.

Definition world_of_events (rows : list StripeEvent.t) : World :=
  mkWorld rows [] [] [] [] [] 1000 (length rows) [].

(** The signature check accepts the request and yields [event]. *)
Definition verified (env : Env) (payload : Buffer) (signature : string)
    (event : Stripe.Event) : Prop :=
  ∀ w, StripeService.verifyWebhookSignature env payload signature w
       = (Ok event, w).

(** The row a provider event id selects. *)
Definition stored_event (stripeEventId : string) (w : World)
  : option StripeEvent.t :=
  find (StripeEvent_matches (StripeEvent_stripeEventId stripeEventId))
       (stripeEvents w).

(** The job the queue holds under a dedup key, in whatever state. *)
Definition job_of (key : string) (w : World) : option Job.t :=
  find (webhookQueue.has_id key) (queue w).


(** The row an internal id selects. *)
Definition event_row (id : string) (w : World) : option StripeEvent.t :=
  find (StripeEvent_matches (StripeEvent_id id)) (stripeEvents w).

(** The order an invoice id selects. *)
Definition order_of_invoice (stripeInvoiceId : string) (w : World)
  : option Order.t :=
  find (Order_matches (Order_stripeInvoiceId stripeInvoiceId)) (orders w).

(** The order an internal id selects. *)
Definition order_row (id : string) (w : World) : option Order.t :=
  find (Order_matches (Order_id id)) (orders w).

(** The event types the processor has a handler for. *)
Definition recognized (type : string) : bool :=
  String.eqb type WebhookProcessorService.INVOICE_PAYMENT_SUCCEEDED
  || String.eqb type WebhookProcessorService.INVOICE_PAYMENT_FAILED
  || String.eqb type WebhookProcessorService.CUSTOMER_SUBSCRIPTION_UPDATED
  || String.eqb type WebhookProcessorService.CUSTOMER_SUBSCRIPTION_DELETED.

(** ** Scenarios

    Concrete events, environments and worlds on which the statements are
    run. *)

(** A paid subscription invoice of 29.99 for customer [cus_1]. *)
Definition invoice_2999 : Stripe.Object :=
  Stripe.mkObject "in_1" (Some (Ref "cus_1")) (Some (Ref "sub_1"))
    (Some 1700000000) (Some 1702592000) (Some 2999) None None "paid"
    None None None None.

Definition evt_succeeded : Stripe.Event :=
  Stripe.mkEvent "evt_1" "invoice.payment_succeeded" invoice_2999.

Definition evt_failed : Stripe.Event :=
  Stripe.mkEvent "evt_2" "invoice.payment_failed" invoice_declined.

Definition evt_unknown : Stripe.Event :=
  Stripe.mkEvent "evt_3" "charge.refunded" invoice_2999.

(** An environment whose signature check accepts the signature [v1=good]
    (for the event [evt_succeeded]) and whose codec writes an event as its id
    between braces. *)
Definition demo_env : Env :=
  mkEnv (Some "whsec_test")
        (λ _ signature _,
           if String.eqb signature "v1=good" then inr evt_succeeded
           else inl (mkException Error "No signatures found"))
        (λ event, "{" +:+ Stripe.id event +:+ "}")
        (λ text,
           if String.eqb text "{evt_1}" then inr evt_succeeded
           else if String.eqb text "{evt_2}" then inr evt_failed
           else if String.eqb text "{evt_3}" then inr evt_unknown
           else inl "Unexpected token < in JSON at position 0").

(** The row ingestion stores for an event. *)
Definition row_of (id : string) (event : Stripe.Event) (processed : bool)
    (retryCount : Z) : StripeEvent.t :=
  StripeEvent.mk id (Stripe.id event) (Stripe.type event)
                 (JSON_stringify demo_env event) processed None None
                 retryCount 1000.

(** The job a worker receives, on a given attempt, for a row enqueued at
    ingestion. *)
Definition delivery (row : StripeEvent.t) (attemptsMade : Z) : Job.t :=
  Job.mk (StripeEvent.stripeEventId row) (StripeEvent.eventType row)
         (WebhookJobData.mk (StripeEvent.id row) (StripeEvent.stripeEventId row)
                            (StripeEvent.eventType row)
                            (StripeEvent.payload row) 0)
         attemptsMade active.

(** The job a reprocessing request enqueues for a stored row: it carries the
    stored retry count, and its attempt counter starts at 0. *)
Definition reenqueued (row : StripeEvent.t) : Job.t :=
  Job.mk (StripeEvent.stripeEventId row) (StripeEvent.eventType row)
         (WebhookJobData.mk (StripeEvent.id row) (StripeEvent.stripeEventId row)
                            (StripeEvent.eventType row)
                            (StripeEvent.payload row)
                            (StripeEvent.retryCount row))
         0 waiting.

Definition merchant_1 : Merchant.t := Merchant.mk "m1" (Some "cus_1").

Definition subscription_1 : Subscription.t :=
  Subscription.mk "s1" "m1" "sub_1" "past_due" None None None false.

Definition order_pending (id : string) (amount createdAt : Z) : Order.t :=
  Order.mk id "m1" amount PENDING None None None None createdAt.

Definition order_linked (id invoice : string) (status : OrderStatus)
  : Order.t :=
  Order.mk id "m1" 2999 status (Some invoice) None None None 900.

(** A shop with one merchant and its subscription, the given event rows and
    orders, an empty queue and a healthy store. *)
Definition shop (rows : list StripeEvent.t) (ords : list Order.t) : World :=
  mkWorld rows [merchant_1] [subscription_1] ords [] [] 2000 (length rows) [].

(** The orders the amount-based search looks at: pending, unlinked orders of
    the merchant whose amount is the amount paid. *)
Definition candidate (merchant : Merchant.t) (invoice : Stripe.Object)
    (o : Order.t) : bool :=
  Order_where_pending (Merchant.id merchant)
                      (number_or (Stripe.amount_paid invoice) 0) o.

(** An order once linked to an invoice and paid at a given time. *)
Definition linked_and_paid (stripeInvoiceId : string) (paidAt : Date)
    (o : Order.t) : Order.t :=
  Order.mk (Order.id o) (Order.merchantId o) (Order.amount o) PAID
           (Some stripeInvoiceId) (Some paidAt) (Order.failedAt o)
           (Order.failureReason o) (Order.createdAt o).

(** The merchant a provider customer id selects. *)
Definition merchant_of_customer (stripeCustomerId : string) (w : World)
  : option Merchant.t :=
  find (λ m, bool_decide (Merchant.stripeCustomerId m = Some stripeCustomerId))
       (merchants w).

(** A computation that leaves the event rows alone, inside and outside the
    open transaction, on every world and whether it returns or throws. *)
Definition keeps_events {A : Type} (m : M A) : Prop :=
  ∀ w r w', m w = (r, w') →
            stripeEvents w' = stripeEvents w ∧ pending w' = pending w.

(** A computation that at most appends one event row, with retry count 0. *)
Definition may_create {A : Type} (m : M A) : Prop :=
  ∀ w r w', m w = (r, w') →
            pending w' = pending w
            ∧ (stripeEvents w' = stripeEvents w
               ∨ ∃ new, stripeEvents w' = (stripeEvents w ++ [new])%list
                        ∧ StripeEvent.retryCount new = 0).

(** A computation that at most issues, through the transaction client and
    only if it returns, the processor's mark on one row. *)
Definition may_mark (eventId : string) (attemptsMade : Z) (m : M unit)
  : Prop :=
  ∀ w r w', m w = (r, w') →
            stripeEvents w' = stripeEvents w
            ∧ (pending w' = pending w
               ∨ (r = Ok tt
                  ∧ ∃ now,
                      pending w' =
                      (pending w ++
                       [TxStripeEventUpdate eventId
                          (StripeEventUpdateInput.mk (Some true) (Some now)
                                                     None
                                                     (Some attemptsMade))])%list)).

(** The rows that carry a provider event id. *)
Definition rows_of_event (stripeEventId : string) (w : World)
  : list StripeEvent.t :=
  filter (λ e, StripeEvent.stripeEventId e = stripeEventId) (stripeEvents w).

(** The subscription a provider subscription id selects. *)
Definition subscription_of (stripeSubscriptionId : string) (w : World)
  : option Subscription.t :=
  find (prisma.subscription.by_stripeSubscriptionId stripeSubscriptionId)
       (subscriptions w).

(** The customer of an invoice resolves to no merchant: the invoice names no
    customer, or an empty one, or one that no merchant carries. *)
Definition unresolved (invoice : Stripe.Object) (w : World) : Prop :=
  ∀ c, WebhookProcessorService.id_of (Stripe.customer invoice) = Some c →
       truthy_string c = true → merchant_of_customer c w = None.

(** The same world at another time of the clock. *)
Definition at_time (t : Date) (w : World) : World :=
  mkWorld (stripeEvents w) (merchants w) (subscriptions w) (orders w)
          (pending w) (queue w) t (created w) (faults w).

(** An order with its invoice link set. *)
Definition linked_to (stripeInvoiceId : string) (o : Order.t) : Order.t :=
  Order.mk (Order.id o) (Order.merchantId o) (Order.amount o)
           (Order.status o) (Some stripeInvoiceId) (Order.paidAt o)
           (Order.failedAt o) (Order.failureReason o) (Order.createdAt o).

(** The pending orders of a merchant that no invoice is linked to. *)
Definition pending_unlinked (merchantId : string) (o : Order.t) : Prop :=
  Order.merchantId o = merchantId
  ∧ Order.status o = PENDING
  ∧ Order.stripeInvoiceId o = None.

#[global] Instance pending_unlinked_dec (merchantId : string) (o : Order.t) :
  Decision (pending_unlinked merchantId o).
Proof. unfold pending_unlinked. apply _. Defined.

(** ** Invariants of runs *)

(** Every run of [m], on every world and whatever the stores answer,
    returning or throwing, takes a world to one related to it by [R]. *)
Definition preserves {A : Type} (R : relation World) (m : M A) : Prop :=
  ∀ w r w', m w = (r, w') → R w w'.

(** From a world where [I] holds, every run of [m] ends where [I] holds. *)
Definition maintains {A : Type} (I : World → Prop) (m : M A) : Prop :=
  ∀ w r w', I w → m w = (r, w') → I w'.

(** From a world where [I] and [P] hold, every run of [m] ends where [I]
    holds and, when [m] returned [a], where [Q a] holds. *)
Definition triple {A : Type} (I P : World → Prop) (m : M A)
    (Q : A → World → Prop) : Prop :=
  ∀ w r w', I w → P w → m w = (r, w') →
            I w' ∧ match r with Ok a => Q a w' | Throw _ => True end.

(** The tables of the domain are as they were. *)
Definition same_domain (w w' : World) : Prop :=
  merchants w' = merchants w
  ∧ subscriptions w' = subscriptions w
  ∧ orders w' = orders w.

(** The queue has kept its jobs, in place, and has at most gained jobs at its
    end; if its job ids were unique they still are. *)
Definition queue_grows (w w' : World) : Prop :=
  queue w `prefix_of` queue w'
  ∧ (NoDup (Job.id <$> queue w) → NoDup (Job.id <$> queue w')).

(** What may become of an event row: its identity, its content and its
    creation time stay, and once processed it stays processed. *)
Definition event_step (e e' : StripeEvent.t) : Prop :=
  StripeEvent.id e' = StripeEvent.id e
  ∧ StripeEvent.stripeEventId e' = StripeEvent.stripeEventId e
  ∧ StripeEvent.eventType e' = StripeEvent.eventType e
  ∧ StripeEvent.payload e' = StripeEvent.payload e
  ∧ StripeEvent.createdAt e' = StripeEvent.createdAt e
  ∧ (StripeEvent.processed e = true → StripeEvent.processed e' = true).

(** The event rows are the former ones, each in its place and changed by
    [event_step] at most, followed by at most one new row. *)
Definition event_log_grows (w w' : World) : Prop :=
  ∃ rows new,
    stripeEvents w' = (rows ++ new)%list
    ∧ Forall2 event_step (stripeEvents w) rows
    ∧ (length new ≤ 1)%nat.

(** What may become of a subscription: it stays the subscription it was, of
    the merchant it was. *)
Definition subscription_kept (s s' : Subscription.t) : Prop :=
  Subscription.id s' = Subscription.id s
  ∧ Subscription.merchantId s' = Subscription.merchantId s
  ∧ Subscription.stripeSubscriptionId s' = Subscription.stripeSubscriptionId s.

(** What processing leaves alone: the queue, the merchants, the clock and the
    count of created rows; and no subscription appears or disappears. *)
Definition processing_frame (w w' : World) : Prop :=
  queue w' = queue w
  ∧ merchants w' = merchants w
  ∧ clock w' = clock w
  ∧ created w' = created w
  ∧ Forall2 subscription_kept (subscriptions w) (subscriptions w').

(** What may become of an order: its id, merchant, amount and creation time
    stay; a paid order stays exactly as it is; an invoice link, once set,
    stays; the status stays or moves to [PAID] or [PAYMENT_FAILED]. *)
Definition order_step (o o' : Order.t) : Prop :=
  Order.id o' = Order.id o
  ∧ Order.merchantId o' = Order.merchantId o
  ∧ Order.amount o' = Order.amount o
  ∧ Order.createdAt o' = Order.createdAt o
  ∧ (Order.status o = PAID → o' = o)
  ∧ (∀ i, Order.stripeInvoiceId o = Some i → Order.stripeInvoiceId o' = Some i)
  ∧ (Order.status o' = Order.status o
     ∨ Order.status o' = PAID
     ∨ Order.status o' = PAYMENT_FAILED).

Definition orders_evolve (w w' : World) : Prop :=
  Forall2 order_step (orders w) (orders w').

(** The id generator does not repeat itself: no event row carries the id the
    next created row will get. *)
Definition next_id_fresh (w : World) : Prop :=
  event_row ("c" +:+ pretty (created w)) w = None.

(** The job a worker receives when the queue hands out a waiting job. *)
Definition delivered (job : Job.t) (attemptsMade : Z) : Job.t :=
  Job.mk (Job.id job) (Job.name job) (Job.data job) attemptsMade active.
(** * Properties *)

(** ** Rows and keys *)

Section Rows.
Context {A : Type}.
Implicit Types (p q : A → bool) (f : A → A) (l : list A).

Lemma find_Some_elem_of p l x : find p l = Some x → x ∈ l ∧ p x = true.
Proof.
  induction l as [|y l IH]; simpl; [discriminate|].
  destruct (p y) eqn:Hy.
  - intros [= ->]. split; [left | done].
  - intros H. destruct (IH H). split; [by right | done].
Qed.

Lemma find_None_Forall p l : find p l = None → ∀ x, x ∈ l → p x = false.
Proof.
  induction l as [|y l IH]; simpl; intros H x Hx.
  - by apply elem_of_nil in Hx.
  - destruct (p y) eqn:Hy; [discriminate|].
    apply elem_of_cons in Hx as [-> | Hx]; auto.
Qed.

(** An update succeeds when the key selects a row. *)
Lemma update_first_Some p f l x :
  find p l = Some x → ∃ l', update_first p f l = Some l'.
Proof.
  induction l as [|y l IH]; simpl; [discriminate|].
  destruct (p y); [eauto|].
  intros H. destruct (IH H) as [l' ->]. simpl. eauto.
Qed.

(** Reading back by the key that selected the row, when the update leaves
    that key alone. *)
Lemma find_update_first p f l l' :
  (∀ x, p (f x) = p x) →
  update_first p f l = Some l' → find p l' = f <$> find p l.
Proof.
  intros Hpf. revert l'. induction l as [|y l IH]; simpl; [discriminate|].
  intros l'. destruct (p y) eqn:Hy.
  - intros [= <-]. simpl. by rewrite Hpf, Hy.
  - destruct (update_first p f l) as [l0|]; [|discriminate].
    intros [= <-]. simpl. rewrite Hy. by apply IH.
Qed.

(** Reading by a key that excludes the updated row. *)
Lemma find_update_first_other p q f l l' :
  (∀ x, q (f x) = q x) →
  (∀ x, p x = true → q x = false) →
  update_first p f l = Some l' → find q l' = find q l.
Proof.
  intros Hqf Hpq. revert l'. induction l as [|y l IH]; simpl; [discriminate|].
  intros l'. destruct (p y) eqn:Hy.
  - intros [= <-]. simpl. by rewrite Hqf, (Hpq y Hy).
  - destruct (update_first p f l) as [l0|]; [|discriminate].
    intros [= <-]. simpl. destruct (q y); [done|]. by apply IH.
Qed.

(** Reading by a key that no row carried and that the update sets. *)
Lemma find_update_first_fresh p q f l l' :
  find q l = None →
  (∀ x, p x = true → q (f x) = true) →
  update_first p f l = Some l' → find q l' = f <$> find p l.
Proof.
  intros Hq Hpq. revert l' Hq. induction l as [|y l IH]; simpl; [discriminate|].
  intros l'. destruct (q y) eqn:Hqy; [discriminate|]. intros Hq.
  destruct (p y) eqn:Hy.
  - intros [= <-]. simpl. by rewrite Hpq.
  - destruct (update_first p f l) as [l0|]; [|discriminate].
    intros [= <-]. simpl. rewrite Hqy. by apply IH.
Qed.

End Rows.

(** The primary key selects the row itself. *)
Lemma find_Order_id (l : list Order.t) (o : Order.t) :
  NoDup (Order.id <$> l) → o ∈ l →
  find (Order_matches (Order_id (Order.id o))) l = Some o.
Proof.
  induction l as [|y l IH]; simpl; intros Hnd Ho.
  - by apply elem_of_nil in Ho.
  - apply NoDup_cons in Hnd as [Hy Hnd].
    apply elem_of_cons in Ho as [-> | Ho].
    + by rewrite bool_decide_eq_true_2.
    + rewrite bool_decide_eq_false_2; [by apply IH|].
      intros Heq. apply Hy. rewrite Heq. by apply list_elem_of_fmap_2.
Qed.

(** ** Running a service while the stores answer *)

(** Unfolds the monad and the services, and nothing of the list library, so
    that lookups stay as they are written in the hypotheses. *)
Ltac mrun :=
  cbv beta iota zeta delta
      [mbind mret M_bind M_ret throw try_catch gets modify new_Date external
       transaction tx_view
       prisma.stripeEvent.findUnique prisma.stripeEvent.create
       prisma.stripeEvent.update prisma.stripeEvent.findMany
       prisma.merchant.findUnique_stripeCustomerId
       prisma.subscription.findUnique prisma.subscription.update
       prisma.order.findUnique prisma.order.findFirst_pending
       prisma.order.update
       tx.stripeEvent.findUnique tx.stripeEvent.update
       webhookQueue.getJob webhookQueue.add
       QueueService.enqueueWebhookEvent QueueService.jobExists
       WebhooksService.handleWebhook WebhooksService.getEvents
       WebhooksService.getEvent WebhooksService.reprocessEvent
       MerchantsService.getMerchantByStripeCustomerId
       MerchantsService.updateSubscriptionStatus
       OrdersService.getOrderByInvoiceId OrdersService.markOrderAsPaid
       OrdersService.markOrderAsPaymentFailed
       OrdersService.findAndLinkOrderToInvoice
       WebhookProcessorService.resolveMerchant
       WebhookProcessorService.handleInvoicePaymentSucceeded
       WebhookProcessorService.handleInvoicePaymentFailed
       WebhookProcessorService.handleSubscriptionUpdated
       WebhookProcessorService.handleSubscriptionDeleted
       WebhookProcessorService.parse
       WebhookProcessorService.processJob];
  cbn [faults stripeEvents merchants subscriptions orders pending queue clock
       created set_faults set_stripeEvents set_subscriptions set_orders
       set_pending set_queue set_created
       app foldl apply_write from_option default id negb
       StripeEvent.processed StripeEvent.id StripeEvent.stripeEventId
       StripeEvent.eventType StripeEvent.payload StripeEvent.retryCount
       WebhookJobData.eventId WebhookJobData.stripeEventId
       WebhookJobData.payload WebhookJobData.eventType Job.data Job.id].

(** Projections of an updated world. *)
Ltac wsimpl :=
  cbn [faults stripeEvents merchants subscriptions orders pending queue clock
       created set_faults set_stripeEvents set_subscriptions set_orders
       set_pending set_queue set_created] in *.

(** Exposes the fields of a healthy world. *)
Ltac open_world w H :=
  unfold healthy in H;
  destruct w as [evs ms subs ords pend jobs clk n fs];
  cbn [faults] in H; subst fs.

(** ** Failure reasons (C9) *)

(** C9, as stated, fails: on [invoice_declined] the first non-empty message
    is the charge's, and the code answers with the generic default. *)
Lemma extractFailureReason_not_first_non_empty :
  ¬ (∀ invoice,
       WebhookProcessorService.extractFailureReason invoice
       = failure_reason_spec invoice).
Proof.
  intros H. specialize (H invoice_declined). vm_compute in H. discriminate.
Qed.

(** C9, amended: when the invoice has a finalization error the reason is that
    error's message if it is non-empty and the generic default otherwise,
    without looking at the charge; when it has none the reason is the first
    non-empty message as the specification has it, that is the failure
    message of the expanded charge if non-empty and the default otherwise. *)
Theorem extractFailureReason_finalization_error_first invoice :
  WebhookProcessorService.extractFailureReason invoice =
  match Stripe.last_finalization_error invoice with
  | Some err =>
      if non_empty (Stripe.error_message err) then failure_reason_spec invoice
      else "Payment failed"
  | None => failure_reason_spec invoice
  end.
Proof.
  unfold WebhookProcessorService.extractFailureReason, failure_reason_spec,
    finalization_message, charge_failure_message.
  destruct (Stripe.last_finalization_error invoice) as [[[m|]]|]; simpl.
  - destruct (truthy_string m) eqn:Hm; simpl; rewrite ?Hm; simpl.
    + rewrite filter_cons_True by (simpl; by rewrite Hm). done.
    + done.
  - done.
  - destruct (Stripe.charge invoice) as [[r|[[m|]]]|]; simpl; try done.
    destruct (truthy_string m) eqn:Hm.
    + rewrite filter_cons_False by (simpl; auto).
      rewrite filter_cons_True by (simpl; by rewrite Hm). done.
    + rewrite filter_cons_False by (simpl; auto).
      rewrite filter_cons_False by (simpl; rewrite Hm; auto). done.
Qed.

(** ** The event listing (C10) *)

#[global] Instance newer_first_total : Total newer_first.
Proof. intros a b. unfold newer_first. lia. Qed.

#[global] Instance newer_first_trans : Transitive newer_first.
Proof. intros a b c. unfold newer_first. lia. Qed.

#[global] Instance older_first_total : Total older_first.
Proof. intros a b. unfold older_first. lia. Qed.

#[global] Instance older_first_trans : Transitive older_first.
Proof. intros a b c. unfold older_first. lia. Qed.

Lemma StronglySorted_prisma_take {A : Type} (R : relation A) (n : Z)
    (l : list A) :
  StronglySorted R l → StronglySorted R (prisma_take n l).
Proof.
  intros Hl. unfold prisma_take. destruct (0 <=? n)%Z.
  - rewrite <- (take_drop (Z.to_nat n) l) in Hl.
    by apply StronglySorted_app_1_l in Hl.
  - rewrite <- (take_drop (length l - Z.to_nat (- n)) l) in Hl.
    by apply StronglySorted_app_1_r in Hl.
Qed.

Lemma prisma_take_subseteq {A : Type} (n : Z) (l : list A) :
  prisma_take n l ⊆ l.
Proof.
  unfold prisma_take. destruct (0 <=? n)%Z.
  - apply sublist_subseteq, sublist_take.
  - apply sublist_subseteq, sublist_drop.
Qed.

(** C10: every listing is ordered newest-first by [createdAt] and made of
    selected rows; when [limit] is absent or [0] it holds the first hundred
    of them at most, so that a limit of [0] is the default cap of 100 and not
    an empty page. *)
Theorem getEvents_newest_first_capped
    (options : option WebhooksService.GetEventsOptions) (w : World) :
  healthy w →
  ∃ events,
    WebhooksService.getEvents options w = (Ok events, w)
    ∧ StronglySorted newer_first events
    ∧ events ⊆ selected options w
    ∧ (chain options WebhooksService.limit = None
       ∨ chain options WebhooksService.limit = Some 0 →
       (length events ≤ 100)%nat
       ∧ length events = (length (selected options w) `min` 100)%nat).
Proof.
  intros Hw. open_world w Hw. mrun.
  eexists. split; [reflexivity|].
  match goal with
  | |- context [merge_sort newer_first ?r] => set (rows := r)
  end.
  assert (Hsorted : StronglySorted newer_first (merge_sort newer_first rows)).
  { apply Sorted_StronglySorted; [apply _|]. apply Sorted_merge_sort; apply _. }
  split; [by apply StronglySorted_prisma_take|].
  split.
  - intros e He. apply prisma_take_subseteq in He.
    by rewrite merge_sort_Permutation in He.
  - intros Hlimit.
    assert (number_or (chain options WebhooksService.limit) 100 = 100) as ->.
    { by destruct Hlimit as [-> | ->]. }
    unfold prisma_take. change (0 <=? 100)%Z with true. cbv iota.
    rewrite length_take.
    rewrite (Permutation_length (merge_sort_Permutation newer_first rows)).
    change (Z.to_nat 100) with 100%nat. unfold selected.
    cbn [stripeEvents]. fold rows. lia.
Qed.

Lemma getEvents_newest_first_capped_witness :
  ∃ events,
    WebhooksService.getEvents
      (Some (WebhooksService.mkOptions None None (Some 0)))
      (world_of_events [stored "evt_1" false 0 10; stored "evt_2" true 0 30;
                        stored "evt_3" false 1 20])
    = (Ok events,
       world_of_events [stored "evt_1" false 0 10; stored "evt_2" true 0 30;
                        stored "evt_3" false 1 20])
    ∧ StripeEvent.stripeEventId <$> events = ["evt_2"; "evt_3"; "evt_1"].
Proof.
  destruct (getEvents_newest_first_capped
              (Some (WebhooksService.mkOptions None None (Some 0)))
              (world_of_events [stored "evt_1" false 0 10;
                                stored "evt_2" true 0 30;
                                stored "evt_3" false 1 20]))
    as (events & Hrun & _); [reflexivity|].
  exists events. split; [exact Hrun|].
  vm_compute in Hrun. by injection Hrun as <-.
Defined.

(** ** Ingestion of a known event (C1) *)

(** C1: for a verified event whose provider id already has a row, ingestion
    returns that row and changes nothing but, possibly, the queue: no row is
    created.  When the row is processed the queue is unchanged.  When it is
    not, the queue gains a job exactly when it holds none under the dedup
    key, so never while a live job with that key exists, and the job carries
    the stored payload and the stored retry count. *)
Theorem handleWebhook_known_event (env : Env) (payload : Buffer)
    (signature : string) (event : Stripe.Event) (existing : StripeEvent.t)
    (w : World) :
  healthy w →
  verified env payload signature event →
  stored_event (Stripe.id event) w = Some existing →
  let job :=
    Job.mk (Stripe.id event) (Stripe.type event)
           (WebhookJobData.mk (StripeEvent.id existing) (Stripe.id event)
                              (Stripe.type event)
                              (StripeEvent.payload existing)
                              (StripeEvent.retryCount existing))
           0 waiting in
  ∃ w',
    WebhooksService.handleWebhook env payload signature w = (Ok existing, w')
    ∧ w' = set_queue (queue w') w
    ∧ (StripeEvent.processed existing = true → queue w' = queue w)
    ∧ (StripeEvent.processed existing = false →
       match job_of (Stripe.id event) w with
       | Some _ => queue w' = queue w
       | None => queue w' = (queue w ++ [job])%list
       end)
    ∧ (queue w' ≠ queue w →
       ∀ j, j ∈ queue w → Job.id j = Stripe.id event →
            live (Job.state j) = false).
Proof.
  intros Hw Hv Hrow job. unfold stored_event, job_of in *.
  open_world w Hw. cbn [stripeEvents queue] in *.
  mrun. rewrite Hv. mrun. rewrite Hrow. mrun.
  destruct (StripeEvent.processed existing) eqn:Hp; mrun.
  { eexists. split; [reflexivity|]. cbn [queue set_queue].
    repeat split; try done. }
  destruct (find (webhookQueue.has_id (Stripe.id event)) jobs) as [j0|] eqn:Hj.
  - rewrite bool_decide_eq_true_2 by done. mrun.
    eexists. split; [reflexivity|]. cbn [queue set_queue].
    repeat split; try done.
  - rewrite bool_decide_eq_false_2 by (intros H; by apply H). mrun.
    rewrite Hj. mrun.
    eexists. split; [reflexivity|]. cbn [queue set_queue].
    repeat split; try done.
    intros _ j Hin Hid.
    apply (find_None_Forall _ _ Hj) in Hin.
    unfold webhookQueue.has_id in Hin.
    by rewrite bool_decide_eq_true_2 in Hin.
Qed.

Lemma handleWebhook_known_event_witness :
  ∃ w',
    WebhooksService.handleWebhook demo_env [] "v1=good"
      (shop [row_of "c0" evt_succeeded false 2] [])
    = (Ok (row_of "c0" evt_succeeded false 2), w')
    ∧ stripeEvents w' = [row_of "c0" evt_succeeded false 2]
    ∧ (WebhookJobData.retryCount ∘ Job.data) <$> queue w' = [2].
Proof.
  destruct (handleWebhook_known_event demo_env [] "v1=good" evt_succeeded
              (row_of "c0" evt_succeeded false 2)
              (shop [row_of "c0" evt_succeeded false 2] []))
    as (w' & Hrun & Hw' & _ & Hq & _).
  - reflexivity.
  - intros w. reflexivity.
  - reflexivity.
  - exists w'. split; [exact Hrun|].
    specialize (Hq eq_refl). unfold job_of in Hq. simpl in Hq.
    rewrite Hw', Hq. split; reflexivity.
Defined.

(** When the queue rejects the re-enqueue of a known, unprocessed event, its
    exception reaches the caller; the enqueue of a new event is guarded by a
    [catch], and the stored row is returned. *)
Example handleWebhook_queue_down :
  fst (WebhooksService.handleWebhook demo_env [] "v1=good"
         (set_faults [None; None; Some "connect ECONNREFUSED"]
            (shop [row_of "c0" evt_succeeded false 0] [])))
  = Throw (mkException QueueError "connect ECONNREFUSED")
  ∧ fst (WebhooksService.handleWebhook demo_env [] "v1=good"
           (set_faults [None; None; Some "connect ECONNREFUSED"]
              (shop [] [])))
    = Ok (StripeEvent.mk "c0" "evt_1" "invoice.payment_succeeded" "{evt_1}"
                         false None None 0 2000).
Proof. split; reflexivity. Qed.

(** ** The processor's idempotency checkpoint (C2) *)

(** C2: when the row the job's dedup key selects is already processed at the
    start of the processing transaction, [processJob] returns and leaves the
    world as it found it: no domain row and no event row is written. *)
Theorem processJob_already_processed (env : Env) (job : Job.t)
    (existing : StripeEvent.t) (w : World) :
  healthy w →
  stored_event (WebhookJobData.stripeEventId (Job.data job)) w
  = Some existing →
  StripeEvent.processed existing = true →
  WebhookProcessorService.processJob env job w = (Ok tt, w).
Proof.
  intros Hw Hrow Hp. unfold stored_event in Hrow.
  open_world w Hw. cbn [stripeEvents] in Hrow.
  mrun. rewrite Hrow. mrun. rewrite Hp. reflexivity.
Qed.

Lemma processJob_already_processed_witness :
  WebhookProcessorService.processJob demo_env
    (delivery (row_of "c0" evt_succeeded true 0) 1)
    (shop [row_of "c0" evt_succeeded true 0] [order_pending "o1" 2999 10])
  = (Ok tt,
     shop [row_of "c0" evt_succeeded true 0] [order_pending "o1" 2999 10]).
Proof.
  apply (processJob_already_processed demo_env
           (delivery (row_of "c0" evt_succeeded true 0) 1)
           (row_of "c0" evt_succeeded true 0)); reflexivity.
Defined.

(** ** Manual reprocessing (C3) *)

(** What [reprocessEvent] does on a healthy world, case by case. *)
Lemma reprocessEvent_cases (stripeEventId : string) (w : World) :
  healthy w →
  WebhooksService.reprocessEvent stripeEventId w =
  match stored_event stripeEventId w with
  | None =>
      (Throw (mkException BadRequestException
                          ("Event " +:+ stripeEventId +:+ " not found")), w)
  | Some event =>
      if StripeEvent.processed event then
        (Throw (mkException ConflictException
                  ("Event " +:+ stripeEventId +:+ " already processed")), w)
      else
        (Ok tt,
         match job_of (StripeEvent.stripeEventId event) w with
         | Some _ => w
         | None =>
             set_queue
               (queue w ++
                [Job.mk (StripeEvent.stripeEventId event)
                        (StripeEvent.eventType event)
                        (WebhookJobData.mk
                           (StripeEvent.id event)
                           (StripeEvent.stripeEventId event)
                           (StripeEvent.eventType event)
                           (StripeEvent.payload event)
                           (StripeEvent.retryCount event))
                        0 waiting]) w
         end)
  end.
Proof.
  intros Hw. unfold stored_event, job_of. open_world w Hw.
  cbn [stripeEvents queue]. mrun.
  destruct (find _ evs) as [event|]; mrun; [|reflexivity].
  destruct (StripeEvent.processed event); mrun; [reflexivity|].
  destruct (find _ jobs); reflexivity.
Qed.

(** While the queue retains a job under the event's id, here the job that
    exhausted its attempts, a reprocessing request adds nothing. *)
Example reprocessEvent_retained_job :
  WebhooksService.reprocessEvent "evt_1"
    (set_queue [Job.mk "evt_1" "invoice.payment_succeeded"
                       (WebhookJobData.mk "c0" "evt_1"
                          "invoice.payment_succeeded" "{evt_1}" 0)
                       3 failed]
       (shop [row_of "c0" evt_succeeded false 3] []))
  = (Ok tt,
     set_queue [Job.mk "evt_1" "invoice.payment_succeeded"
                       (WebhookJobData.mk "c0" "evt_1"
                          "invoice.payment_succeeded" "{evt_1}" 0)
                       3 failed]
       (shop [row_of "c0" evt_succeeded false 3] [])).
Proof. reflexivity. Qed.

(** C3, at the failing input: reprocessing an event id that has no row
    throws a [BadRequestException], which the controller answers with status
    400; it is not the [NotFoundException] (404) that the claim and the
    endpoint's own API documentation announce, and that the sibling services
    throw for a missing row. *)
Theorem reprocessEvent_unknown_id_is_bad_request :
  ∃ e,
    WebhooksService.reprocessEvent "evt_unknown" (shop [] []) =
    (Throw e, shop [] [])
    ∧ message e = "Event evt_unknown not found"
    ∧ name e = BadRequestException
    ∧ getStatus e = 400
    ∧ name e ≠ NotFoundException.
Proof.
  eexists. split; [reflexivity|]. repeat split. discriminate.
Qed.

(** ** Unrecognized event types (C6) *)

Lemma StripeEvent_set_id (d : StripeEventUpdateInput.t) (i : string)
    (e : StripeEvent.t) :
  StripeEvent_matches (StripeEvent_id i) (StripeEvent_set d e)
  = StripeEvent_matches (StripeEvent_id i) e.
Proof. reflexivity. Qed.

Lemma processEventByType_unrecognized (event : Stripe.Event) (w : World) :
  recognized (Stripe.type event) = false →
  WebhookProcessorService.processEventByType event w = (Ok tt, w).
Proof.
  unfold recognized, WebhookProcessorService.processEventByType.
  intros H.
  repeat (apply orb_false_elim in H as [H ?]).
  by repeat match goal with Heq : String.eqb _ _ = false |- _ =>
                rewrite Heq; clear Heq end.
Qed.

(** C6: a job whose event type is none of the four recognized ones, and whose
    keys select the stored row, is processed successfully: the domain tables
    and the queue are untouched, the row ends with [processed = true], and
    its [processingError] is the one it had. *)
Theorem processJob_unrecognized_type (env : Env) (job : Job.t)
    (event : Stripe.Event) (existing : StripeEvent.t) (w : World) :
  healthy w →
  JSON_parse env (WebhookJobData.payload (Job.data job)) = inr event →
  Stripe.type event = WebhookJobData.eventType (Job.data job) →
  recognized (WebhookJobData.eventType (Job.data job)) = false →
  stored_event (WebhookJobData.stripeEventId (Job.data job)) w
  = Some existing →
  event_row (WebhookJobData.eventId (Job.data job)) w = Some existing →
  ∃ w' row,
    WebhookProcessorService.processJob env job w = (Ok tt, w')
    ∧ merchants w' = merchants w
    ∧ subscriptions w' = subscriptions w
    ∧ orders w' = orders w
    ∧ queue w' = queue w
    ∧ event_row (WebhookJobData.eventId (Job.data job)) w' = Some row
    ∧ StripeEvent.processed row = true
    ∧ StripeEvent.processingError row = StripeEvent.processingError existing.
Proof.
  intros Hw Hparse Htype Hrec Hkey Hid. rewrite <- Htype in Hrec.
  unfold stored_event, event_row in *.
  open_world w Hw. cbn [stripeEvents] in *.
  mrun. rewrite Hkey. mrun.
  destruct (StripeEvent.processed existing) eqn:Hp.
  { exists (mkWorld evs ms subs ords pend jobs clk n []), existing.
    repeat split; done. }
  rewrite Hparse. mrun.
  rewrite (processEventByType_unrecognized _ _ Hrec). mrun.
  rewrite Hid. mrun.
  destruct (update_first_Some _
              (StripeEvent_set
                 (StripeEventUpdateInput.mk (Some true) (Some clk) None
                    (Some (Job.attemptsMade job)))) _ _ Hid) as [evs' Hupd].
  rewrite Hupd. mrun.
  eexists _, _. split; [reflexivity|]. wsimpl.
  do 4 (split; [reflexivity|]).
  split.
  { rewrite (find_update_first _ _ _ _ (StripeEvent_set_id _ _) Hupd).
    rewrite Hid. reflexivity. }
  split; reflexivity.
Qed.

Lemma processJob_unrecognized_type_witness :
  ∃ w',
    WebhookProcessorService.processJob demo_env
      (delivery (row_of "c0" evt_unknown false 0) 0)
      (shop [row_of "c0" evt_unknown false 0] [order_pending "o1" 2999 10])
    = (Ok tt, w')
    ∧ orders w' = [order_pending "o1" 2999 10]
    ∧ subscriptions w' = [subscription_1]
    ∧ StripeEvent.processed <$> stripeEvents w' = [true]
    ∧ StripeEvent.processingError <$> stripeEvents w' = [None].
Proof.
  destruct (processJob_unrecognized_type demo_env
              (delivery (row_of "c0" evt_unknown false 0) 0)
              evt_unknown (row_of "c0" evt_unknown false 0)
              (shop [row_of "c0" evt_unknown false 0]
                    [order_pending "o1" 2999 10]))
    as (w' & row & Hrun & _ & Hsubs & Hords & _); try reflexivity.
  exists w'. split; [exact Hrun|].
  split; [exact Hords|]. split; [exact Hsubs|].
  vm_compute in Hrun. injection Hrun as <-. split; reflexivity.
Defined.

(** ** Out-of-order payment events (C4) *)

Lemma bind_Ok {A B : Type} (m : M A) (f : A → M B) (w w' : World) (a : A) :
  m w = (Ok a, w') → (m ≫= f) w = f a w'.
Proof. intros H. unfold mbind, M_bind. by rewrite H. Qed.

(** An update that does not set the invoice id leaves the invoice key of
    the row alone. *)
Lemma Order_set_invoice_key (d : OrderUpdateInput.t) (k : string)
    (o : Order.t) :
  OrderUpdateInput.stripeInvoiceId d = None →
  Order_matches (Order_stripeInvoiceId k) (Order_set d o)
  = Order_matches (Order_stripeInvoiceId k) o.
Proof. intros H. unfold Order_matches, Order_set. simpl. by rewrite H. Qed.

(** [markOrderAsPaid] on a linked order: the order ends [PAID], whatever its
    status was, and a paid order is left as it is. *)
Lemma markOrderAsPaid_linked (inv : string) (paidAt : option Date)
    (o : Order.t) (w : World) :
  healthy w →
  order_of_invoice inv w = Some o →
  ∃ w' o',
    OrdersService.markOrderAsPaid inv paidAt w = (Ok (Some o'), w')
    ∧ healthy w'
    ∧ order_of_invoice inv w' = Some o'
    ∧ Order.id o' = Order.id o
    ∧ Order.status o' = PAID
    ∧ (Order.status o = PAID → w' = w)
    ∧ w' = set_orders (orders w') w.
Proof.
  intros Hw Ho. unfold order_of_invoice in *. open_world w Hw. wsimpl.
  mrun. rewrite Ho.
  destruct (bool_decide (Order.status o = PAID)) eqn:Hpaid.
  { apply bool_decide_eq_true in Hpaid. mrun.
    eexists _, o. split; [reflexivity|]. wsimpl. by repeat split. }
  apply bool_decide_eq_false in Hpaid.
  set (data := OrderUpdateInput.mk (Some PAID) None
                 (Some (default clk paidAt)) None None).
  destruct (update_first_Some (Order_matches (Order_stripeInvoiceId inv))
              (Order_set data) _ _ Ho) as [ords' Hupd].
  assert (Hfind : find (Order_matches (Order_stripeInvoiceId inv)) ords'
                  = Some (Order_set data o)).
  { rewrite (find_update_first _ _ _ _
               (λ x, Order_set_invoice_key data inv x eq_refl) Hupd).
    by rewrite Ho. }
  destruct paidAt as [d|]; mrun; rewrite Ho; subst data;
    cbn [default from_option id] in *;
    rewrite Hupd; mrun;
    (eexists _, _; split; [reflexivity|]; wsimpl;
     split; [reflexivity|]; split; [exact Hfind|]; by repeat split).
Qed.

(** [markOrderAsPaymentFailed] on a linked order: a paid or failed order is
    left as it is, any other order ends [PAYMENT_FAILED]. *)
Lemma markOrderAsPaymentFailed_linked (inv : string)
    (failureReason : option string) (o : Order.t) (w : World) :
  healthy w →
  order_of_invoice inv w = Some o →
  ∃ w' o',
    OrdersService.markOrderAsPaymentFailed inv failureReason w
    = (Ok (Some o'), w')
    ∧ healthy w'
    ∧ order_of_invoice inv w' = Some o'
    ∧ Order.id o' = Order.id o
    ∧ Order.status o' =
        (if bool_decide (Order.status o = PAID) then PAID
         else PAYMENT_FAILED)
    ∧ (Order.status o = PAID ∨ Order.status o = PAYMENT_FAILED → w' = w)
    ∧ w' = set_orders (orders w') w.
Proof.
  intros Hw Ho. unfold order_of_invoice in *. open_world w Hw. wsimpl.
  mrun. rewrite Ho.
  destruct (bool_decide (Order.status o = PAID)) eqn:Hpaid.
  { apply bool_decide_eq_true in Hpaid. mrun.
    eexists _, o. split; [reflexivity|]. wsimpl. by repeat split. }
  destruct (bool_decide (Order.status o = PAYMENT_FAILED)) eqn:Hfailed.
  { apply bool_decide_eq_true in Hfailed. mrun. simpl.
    eexists _, o. split; [reflexivity|]. wsimpl. by repeat split. }
  apply bool_decide_eq_false in Hpaid, Hfailed. simpl.
  set (data := OrderUpdateInput.mk (Some PAYMENT_FAILED) None None (Some clk)
                 (Some (string_or failureReason "Payment failed"))).
  destruct (update_first_Some (Order_matches (Order_stripeInvoiceId inv))
              (Order_set data) _ _ Ho) as [ords' Hupd].
  assert (Hfind : find (Order_matches (Order_stripeInvoiceId inv)) ords'
                  = Some (Order_set data o)).
  { rewrite (find_update_first _ _ _ _
               (λ x, Order_set_invoice_key data inv x eq_refl) Hupd).
    by rewrite Ho. }
  rewrite Ho. subst data. rewrite Hupd. mrun.
  eexists _, _. split; [reflexivity|]. wsimpl.
  split; [reflexivity|]. split; [exact Hfind|].
  split; [reflexivity|]. split; [reflexivity|].
  split; [|reflexivity]. intros [? | ?]; contradiction.
Qed.

(** C4: for an order linked to an invoice, whatever its status, marking the
    payment failed and then succeeded, or succeeded and then failed, both
    run to completion and leave that order [PAID]; a failure reported for a
    paid order changes nothing, and a success reported for a failed order
    moves it to [PAID]. *)
Theorem payment_events_in_either_order (inv : string)
    (failureReason : option string) (paidAt : option Date) (o : Order.t)
    (w : World) :
  healthy w →
  order_of_invoice inv w = Some o →
  (∃ w' o',
     (OrdersService.markOrderAsPaymentFailed inv failureReason;;
      OrdersService.markOrderAsPaid inv paidAt) w = (Ok (Some o'), w')
     ∧ order_of_invoice inv w' = Some o'
     ∧ Order.id o' = Order.id o ∧ Order.status o' = PAID)
  ∧ (∃ w' o',
     (OrdersService.markOrderAsPaid inv paidAt;;
      OrdersService.markOrderAsPaymentFailed inv failureReason) w
     = (Ok (Some o'), w')
     ∧ order_of_invoice inv w' = Some o'
     ∧ Order.id o' = Order.id o ∧ Order.status o' = PAID)
  ∧ (Order.status o = PAID →
     OrdersService.markOrderAsPaymentFailed inv failureReason w
     = (Ok (Some o), w))
  ∧ (Order.status o = PAYMENT_FAILED →
     ∃ w' o',
       OrdersService.markOrderAsPaid inv paidAt w = (Ok (Some o'), w')
       ∧ order_of_invoice inv w' = Some o'
       ∧ Order.id o' = Order.id o ∧ Order.status o' = PAID).
Proof.
  intros Hw Ho.
  destruct (markOrderAsPaymentFailed_linked inv failureReason o w Hw Ho)
    as (w1 & o1 & Hrun1 & Hw1 & Ho1 & Hid1 & Hst1 & Hsame1 & _).
  destruct (markOrderAsPaid_linked inv paidAt o w Hw Ho)
    as (w2 & o2 & Hrun2 & Hw2 & Ho2 & Hid2 & Hst2 & Hsame2 & _).
  split; [|split; [|split]].
  - destruct (markOrderAsPaid_linked inv paidAt o1 w1 Hw1 Ho1)
      as (w3 & o3 & Hrun3 & _ & Ho3 & Hid3 & Hst3 & _).
    exists w3, o3. rewrite (bind_Ok _ _ _ _ _ Hrun1).
    split; [exact Hrun3|]. split; [exact Ho3|]. split; [congruence|done].
  - destruct (markOrderAsPaymentFailed_linked inv failureReason o2 w2 Hw2 Ho2)
      as (w3 & o3 & Hrun3 & _ & Ho3 & Hid3 & Hst3 & _).
    exists w3, o3. rewrite (bind_Ok _ _ _ _ _ Hrun2).
    split; [exact Hrun3|]. split; [exact Ho3|]. split; [congruence|].
    rewrite Hst3. by rewrite bool_decide_eq_true_2.
  - intros Hpaid. rewrite (Hsame1 (or_introl Hpaid)) in Hrun1, Ho1.
    rewrite Hrun1. repeat f_equal. congruence.
  - intros _. exists w2, o2. by repeat split.
Qed.

Lemma payment_events_in_either_order_witness :
  (∃ w' o',
     (OrdersService.markOrderAsPaymentFailed "in_1" (Some "card_declined");;
      OrdersService.markOrderAsPaid "in_1" (Some 3000))
       (shop [] [order_linked "o1" "in_1" PENDING])
     = (Ok (Some o'), w')
     ∧ Order.status o' = PAID)
  ∧ (∃ w' o',
     (OrdersService.markOrderAsPaid "in_1" (Some 3000);;
      OrdersService.markOrderAsPaymentFailed "in_1" (Some "card_declined"))
       (shop [] [order_linked "o1" "in_1" PENDING])
     = (Ok (Some o'), w')
     ∧ Order.status o' = PAID).
Proof.
  destruct (payment_events_in_either_order "in_1" (Some "card_declined")
              (Some 3000) (order_linked "o1" "in_1" PENDING)
              (shop [] [order_linked "o1" "in_1" PENDING]))
    as ((w1 & o1 & Hrun1 & _ & _ & Hst1) & (w2 & o2 & Hrun2 & _ & _ & Hst2)
        & _); [reflexivity | reflexivity |].
  split; [exists w1, o1 | exists w2, o2]; by split.
Defined.

(** ** Amount-based linking (C5) *)

(** The head of a sorted selection is a least element of the selection. *)
Lemma head_merge_sort_least {A : Type} (R : relation A)
    `{!RelDecision R, !Total R, !Transitive R} (l : list A) (x : A) :
  head (merge_sort R l) = Some x → x ∈ l ∧ ∀ y, y ∈ l → R x y.
Proof.
  intros Hhead.
  pose proof (Sorted_merge_sort R l) as Hsorted.
  apply Sorted_StronglySorted in Hsorted; [|done].
  pose proof (merge_sort_Permutation R l) as Hperm.
  destruct (merge_sort R l) as [|z s]; [discriminate|].
  injection Hhead as ->.
  apply StronglySorted_inv in Hsorted as [_ Hall].
  split.
  - rewrite <- Hperm. left.
  - intros y Hy. rewrite <- Hperm in Hy.
    apply elem_of_cons in Hy as [-> | Hy].
    + destruct (total R x x); done.
    + by eapply Forall_forall in Hall.
Qed.

Lemma head_merge_sort_None {A : Type} (R : relation A) `{!RelDecision R}
    (l : list A) :
  head (merge_sort R l) = None → l = [].
Proof.
  intros Hhead. pose proof (merge_sort_Permutation R l) as Hperm.
  destruct (merge_sort R l); [|discriminate].
  by apply Permutation_nil_l in Hperm.
Qed.

(** Primary keys survive an update, and the row under each key is the
    updated one or the old one. *)
Lemma update_first_Order_ids (p : Order.t → bool) (d : OrderUpdateInput.t)
    (l l' : list Order.t) :
  update_first p (Order_set d) l = Some l' →
  Order.id <$> l' = Order.id <$> l.
Proof.
  revert l'. induction l as [|y l IH]; simpl; [discriminate|].
  intros l'. destruct (p y).
  - by intros [= <-].
  - destruct (update_first p (Order_set d) l) as [l0|]; [|discriminate].
    intros [= <-]. simpl. f_equal. by apply IH.
Qed.

Lemma find_Order_id_update_first (p : Order.t → bool)
    (d : OrderUpdateInput.t) (l l' : list Order.t) (x : Order.t) (k : string) :
  NoDup (Order.id <$> l) →
  find p l = Some x →
  update_first p (Order_set d) l = Some l' →
  find (Order_matches (Order_id k)) l' =
  if bool_decide (k = Order.id x) then Some (Order_set d x)
  else find (Order_matches (Order_id k)) l.
Proof.
  revert l'. induction l as [|y l IH]; simpl; [discriminate|].
  intros l' Hnd. apply NoDup_cons in Hnd as [Hy Hnd].
  destruct (p y) eqn:Hpy.
  - intros Hx Hl'. simplify_eq. simpl.
    repeat case_bool_decide; congruence.
  - intros Hx. destruct (update_first p (Order_set d) l) as [l0|] eqn:Hupd;
      [|discriminate].
    intros [= <-]. simpl.
    destruct (decide (Order.id y = k)) as [<- | Hne].
    + rewrite bool_decide_eq_true_2 by done.
      rewrite bool_decide_eq_false_2; [done|].
      intros Heq. apply Hy. rewrite Heq.
      apply list_elem_of_fmap_2. by apply find_Some_elem_of in Hx as [? _].
    + rewrite (bool_decide_eq_false_2 (Order.id y = k)) by done.
      by apply IH.
Qed.

Lemma resolveMerchant_healthy (c : string) (w : World) :
  healthy w → truthy_string c = true →
  WebhookProcessorService.resolveMerchant (Some c) w
  = (Ok (merchant_of_customer c w), w).
Proof.
  intros Hw Hc. open_world w Hw. mrun. by rewrite Hc.
Qed.

(** Updating a subscription touches the subscriptions and nothing else. *)
Lemma updateSubscriptionStatus_healthy (k status : string)
    (d : SubscriptionData.t) (w : World) :
  healthy w →
  ∃ r subs',
    MerchantsService.updateSubscriptionStatus k status d w
    = (Ok r, set_subscriptions subs' w).
Proof.
  intros Hw. open_world w Hw. mrun.
  destruct (find (prisma.subscription.by_stripeSubscriptionId k) subs)
    as [s|] eqn:Hs; mrun.
  - rewrite Hs.
    destruct (update_first_Some _ (Subscription_set status d) _ _ Hs)
      as [subs' ->].
    mrun. by eexists _, _.
  - by eexists _, subs.
Qed.

Lemma getOrderByInvoiceId_healthy (inv : string) (w : World) :
  healthy w →
  OrdersService.getOrderByInvoiceId inv w = (Ok (order_of_invoice inv w), w).
Proof. intros Hw. by open_world w Hw. Qed.

(** [findAndLinkOrderToInvoice] on an invoice that no order references:
    either no order is a candidate and nothing changes, or the earliest
    candidate gets the invoice id. *)
Lemma findAndLinkOrderToInvoice_healthy (merchantId inv : string) (amount : Z)
    (w : World) :
  healthy w →
  NoDup (Order.id <$> orders w) →
  order_of_invoice inv w = None →
  let data := OrderUpdateInput.mk None (Some inv) None None None in
  ((∀ o, o ∈ orders w → Order_where_pending merchantId amount o = false)
   ∧ OrdersService.findAndLinkOrderToInvoice merchantId inv amount w
     = (Ok None, w))
  ∨ (∃ o ords',
       o ∈ orders w
       ∧ Order_where_pending merchantId amount o = true
       ∧ (∀ o', o' ∈ orders w →
               Order_where_pending merchantId amount o' = true →
               (Order.createdAt o ≤ Order.createdAt o')%Z)
       ∧ OrdersService.findAndLinkOrderToInvoice merchantId inv amount w
         = (Ok (Some (Order_set data o)), set_orders ords' w)
       ∧ update_first (Order_matches (Order_id (Order.id o)))
                      (Order_set data) (orders w) = Some ords'
       ∧ find (Order_matches (Order_stripeInvoiceId inv)) ords'
         = Some (Order_set data o)).
Proof.
  intros Hw Hnd Hfree data. unfold order_of_invoice in Hfree.
  open_world w Hw. wsimpl. mrun.
  destruct (head (merge_sort older_first
                    (filter (λ o, Order_where_pending merchantId amount o)
                            ords))) as [o|] eqn:Hhead.
  - right. apply head_merge_sort_least in Hhead as [Ho Hleast]; [|apply _..].
    apply list_elem_of_filter in Ho as [Hcand Ho].
    apply Is_true_true in Hcand.
    pose proof (find_Order_id _ _ Hnd Ho) as Hfind.
    destruct (update_first_Some _ (Order_set data) _ _ Hfind) as [ords' Hupd].
    mrun. rewrite Hfind. fold data. rewrite Hupd. mrun.
    exists o, ords'. split; [done|]. split; [done|]. split.
    { intros o' Ho' Hcand'. apply Hleast.
      apply list_elem_of_filter. split; [by apply Is_true_true|done]. }
    split; [reflexivity|]. split; [done|].
    assert (Hset : ∀ x, Order_matches (Order_id (Order.id o)) x = true →
                        Order_matches (Order_stripeInvoiceId inv)
                                      (Order_set data x) = true).
    { intros x _. unfold Order_matches, Order_set. simpl.
      by rewrite bool_decide_eq_true_2. }
    rewrite (find_update_first_fresh _ _ _ _ _ Hfree Hset Hupd).
    by rewrite Hfind.
  - left. apply head_merge_sort_None in Hhead. split; [|reflexivity].
    intros o Ho. destruct (Order_where_pending merchantId amount o) eqn:Hc;
      [|done].
    assert (o ∈ filter (λ o, Order_where_pending merchantId amount o) ords)
      as Hin by (apply list_elem_of_filter; split; [by apply Is_true_true|done]).
    rewrite Hhead in Hin. by apply elem_of_nil in Hin.
Qed.

(** [markOrderAsPaid] on a linked order that is not paid yet: exactly that
    row is rewritten. *)
Lemma markOrderAsPaid_unpaid (inv : string) (paidAt : Date) (o : Order.t)
    (w : World) :
  healthy w →
  order_of_invoice inv w = Some o →
  Order.status o ≠ PAID →
  let data := OrderUpdateInput.mk (Some PAID) None (Some paidAt) None None in
  ∃ ords',
    update_first (Order_matches (Order_stripeInvoiceId inv)) (Order_set data)
                 (orders w) = Some ords'
    ∧ OrdersService.markOrderAsPaid inv (Some paidAt) w
      = (Ok (Some (Order_set data o)), set_orders ords' w).
Proof.
  intros Hw Ho Hst data. unfold order_of_invoice in Ho.
  open_world w Hw. wsimpl. mrun. rewrite Ho.
  rewrite bool_decide_eq_false_2 by done. mrun. rewrite Ho. fold data.
  destruct (update_first_Some _ (Order_set data) _ _ Ho) as [ords' Hupd].
  rewrite Hupd. mrun. by exists ords'.
Qed.

Lemma healthy_set_pending (l : list TxWrite) (w : World) :
  healthy w → healthy (set_pending l w).
Proof. done. Qed.

(** The subscription step of the two invoice handlers: it rewrites
    subscriptions only. *)
Lemma subscription_step (b : bool) (k status : string)
    (d : SubscriptionData.t) (w : World) :
  healthy w →
  ∃ subs',
    (if b then MerchantsService.updateSubscriptionStatus k status d;; mret tt
     else mret tt) w = (Ok tt, set_subscriptions subs' w).
Proof.
  intros Hw. destruct b.
  - destruct (updateSubscriptionStatus_healthy k status d w Hw)
      as (r & subs' & Hupd).
    exists subs'. by rewrite (bind_Ok _ _ _ _ _ Hupd).
  - exists (subscriptions w). by destruct w.
Qed.

(** The payment-succeeded handler on an invoice that no order references,
    for a resolved merchant: it runs to completion, rewrites subscriptions
    and orders only, and either finds no candidate and leaves the orders
    alone, or links the earliest candidate and marks it paid. *)
Lemma handleInvoicePaymentSucceeded_unlinked (event : Stripe.Event)
    (merchant : Merchant.t) (c : string) (w : World) :
  let invoice := Stripe.object event in
  let inv := Stripe.object_id invoice in
  healthy w →
  NoDup (Order.id <$> orders w) →
  WebhookProcessorService.id_of (Stripe.customer invoice) = Some c →
  truthy_string c = true →
  merchant_of_customer c w = Some merchant →
  order_of_invoice inv w = None →
  ∃ subs' ords',
    WebhookProcessorService.handleInvoicePaymentSucceeded event w
    = (Ok tt, set_orders ords' (set_subscriptions subs' w))
    ∧ (((∀ o, o ∈ orders w → candidate merchant invoice o = false)
        ∧ ords' = orders w)
       ∨ (∃ o,
            o ∈ orders w
            ∧ candidate merchant invoice o = true
            ∧ (∀ o', o' ∈ orders w → candidate merchant invoice o' = true →
                     (Order.createdAt o ≤ Order.createdAt o')%Z)
            ∧ find (Order_matches (Order_stripeInvoiceId inv)) ords'
              = Some (linked_and_paid inv (clock w) o)
            ∧ ∀ k, find (Order_matches (Order_id k)) ords'
                   = if bool_decide (k = Order.id o)
                     then Some (linked_and_paid inv (clock w) o)
                     else order_row k w)).
Proof.
  intros invoice inv Hw Hnd Hc Htruthy Hm Hfree.
  unfold WebhookProcessorService.handleInvoicePaymentSucceeded.
  cbv zeta. fold invoice. fold inv. rewrite Hc.
  rewrite (bind_Ok _ _ _ _ _ (resolveMerchant_healthy c w Hw Htruthy)).
  rewrite Hm.
  (* the subscription *)
  destruct (subscription_step
              (WebhookProcessorService.present (Stripe.subscription invoice))
              (default "" (WebhookProcessorService.id_of
                             (Stripe.subscription invoice)))
              "active"
              (SubscriptionData.mk
                 (date_of_seconds (Stripe.period_start invoice))
                 (date_of_seconds (Stripe.period_end invoice)) None None)
              w Hw) as [subs' Hsub].
  rewrite (bind_Ok _ _ _ _ _ Hsub).
  set (w1 := set_subscriptions subs' w).
  assert (Hw1 : healthy w1) by done.
  (* the order *)
  rewrite (bind_Ok _ _ _ _ _ (getOrderByInvoiceId_healthy inv w1 Hw1)).
  change (order_of_invoice inv w1) with (order_of_invoice inv w).
  rewrite Hfree.
  destruct (findAndLinkOrderToInvoice_healthy (Merchant.id merchant) inv
              (number_or (Stripe.amount_paid invoice) 0) w1 Hw1 Hnd Hfree)
    as [[Hnone Hrun] | (o & ords1 & Ho & Hcand & Hleast & Hrun & Hupd1 & Hfind1)].
  - rewrite (bind_Ok _ _ _ _ _ Hrun). exists subs', (orders w).
    split; [by destruct w|]. left. by split.
  - rewrite (bind_Ok _ _ _ _ _ Hrun).
    set (w2 := set_orders ords1 w1).
    assert (Hw2 : healthy w2) by done.
    assert (Hpending : Order.status o = PENDING).
    { unfold Order_where_pending in Hcand.
      apply andb_prop in Hcand as [Hcand _].
      apply andb_prop in Hcand as [Hcand _].
      apply andb_prop in Hcand as [_ Hcand].
      by apply bool_decide_eq_true in Hcand. }
    destruct (markOrderAsPaid_unpaid inv (clock w)
                (Order_set (OrderUpdateInput.mk None (Some inv) None None None)
                           o) w2 Hw2 Hfind1)
      as (ords2 & Hupd2 & Hpaid).
    { simpl. rewrite Hpending. discriminate. }
    change ((new_Date ≫= λ now,
               OrdersService.markOrderAsPaid inv (Some now);; mret tt) w2)
      with ((OrdersService.markOrderAsPaid inv (Some (clock w));; mret tt) w2).
    rewrite (bind_Ok _ _ _ _ _ Hpaid).
    exists subs', ords2. split; [by destruct w|]. right.
    exists o. split; [done|]. split; [done|]. split; [done|].
    split.
    + rewrite (find_update_first _ _ _ _
                 (λ x, Order_set_invoice_key
                         (OrderUpdateInput.mk (Some PAID) None
                                              (Some (clock w)) None None)
                         inv x eq_refl) Hupd2).
      change (orders w2) with ords1. by rewrite Hfind1.
    + intros k.
      assert (Hnd1 : NoDup (Order.id <$> ords1))
        by (by rewrite (update_first_Order_ids _ _ _ _ Hupd1)).
      rewrite (find_Order_id_update_first _ _ _ _ _ k Hnd1 Hfind1 Hupd2).
      rewrite (find_Order_id_update_first _ _ _ _ _ k Hnd
                 (find_Order_id _ _ Hnd Ho) Hupd1).
      simpl. by destruct (bool_decide (k = Order.id o)).
Qed.

(** ** A successful delivery *)

(** When the row is not processed yet, the payload parses and the handler
    of the event runs to completion without touching the event rows,
    [processJob] commits the mark on the row the job's internal id selects
    and keeps what the handler did. *)
Lemma processJob_success (env : Env) (job : Job.t) (event : Stripe.Event)
    (existing : StripeEvent.t) (w w1 : World) :
  let eventId := WebhookJobData.eventId (Job.data job) in
  let mark :=
    StripeEventUpdateInput.mk (Some true) (Some (clock w1)) None
                              (Some (Job.attemptsMade job)) in
  healthy w →
  JSON_parse env (WebhookJobData.payload (Job.data job)) = inr event →
  from_option StripeEvent.processed false
    (stored_event (WebhookJobData.stripeEventId (Job.data job)) w) = false →
  event_row eventId w = Some existing →
  WebhookProcessorService.processEventByType event (set_pending [] w)
  = (Ok tt, w1) →
  healthy w1 → stripeEvents w1 = stripeEvents w → pending w1 = [] →
  ∃ evs',
    update_first (StripeEvent_matches (StripeEvent_id eventId))
                 (StripeEvent_set mark) (stripeEvents w) = Some evs'
    ∧ event_row eventId (set_stripeEvents evs' w1)
      = Some (StripeEvent_set mark existing)
    ∧ WebhookProcessorService.processJob env job w
      = (Ok tt, set_pending (pending w) (set_stripeEvents evs' w1)).
Proof.
  intros eventId mark Hw Hparse Hfresh Hid Hhandler Hw1 Hevs Hpend.
  destruct (update_first_Some _ (StripeEvent_set mark) _ _ Hid)
    as [evs' Hupd].
  exists evs'. split; [exact Hupd|]. split.
  { unfold event_row. wsimpl.
    rewrite (find_update_first _ _ _ _ (StripeEvent_set_id _ _) Hupd).
    unfold event_row in Hid. by rewrite Hid. }
  unfold WebhookProcessorService.processJob, try_catch, transaction.
  cbv zeta. fold eventId.
  assert (Hbody :
    (tx.stripeEvent.findUnique
       (StripeEvent_stripeEventId
          (WebhookJobData.stripeEventId (Job.data job)))
     ≫= λ existingEvent,
       if from_option StripeEvent.processed false existingEvent
       then mret tt
       else
         WebhookProcessorService.parse env
           (WebhookJobData.payload (Job.data job))
         ≫= λ event,
           WebhookProcessorService.processEventByType event;;
           new_Date ≫= λ now,
             tx.stripeEvent.update eventId
               (StripeEventUpdateInput.mk (Some true) (Some now) None
                  (Some (Job.attemptsMade job))))
      (set_pending [] w)
    = (Ok tt, set_pending [TxStripeEventUpdate eventId mark] w1)).
  { assert (Hfind : tx.stripeEvent.findUnique
                      (StripeEvent_stripeEventId
                         (WebhookJobData.stripeEventId (Job.data job)))
                      (set_pending [] w)
                    = (Ok (stored_event
                             (WebhookJobData.stripeEventId (Job.data job)) w),
                       set_pending [] w)).
    { clear -Hw. open_world w Hw. reflexivity. }
    rewrite (bind_Ok _ _ _ _ _ Hfind). rewrite Hfresh.
    unfold WebhookProcessorService.parse. rewrite Hparse.
    rewrite (bind_Ok (mret event) _ _ _ _ eq_refl).
    rewrite (bind_Ok _ _ _ _ _ Hhandler).
    clear Hfind Hhandler Hupd. unfold event_row in Hid. rewrite <- Hevs in Hid.
    open_world w1 Hw1. wsimpl. subst pend.
    mrun. rewrite Hid. reflexivity. }
  rewrite Hbody. f_equal. clear Hbody Hhandler.
  destruct w1 as [evs1 ms1 subs1 ords1 pend1 jobs1 clk1 n1 fs1].
  wsimpl. subst. unfold tx_view. wsimpl. cbn [foldl apply_write].
  rewrite Hupd. reflexivity.
Qed.

Lemma processEventByType_succeeded (event : Stripe.Event) :
  Stripe.type event = WebhookProcessorService.INVOICE_PAYMENT_SUCCEEDED →
  WebhookProcessorService.processEventByType event
  = WebhookProcessorService.handleInvoicePaymentSucceeded event.
Proof.
  intros H. unfold WebhookProcessorService.processEventByType.
  by rewrite H.
Qed.

(** C5: a job carries a payment-succeeded event whose customer resolves to a
    merchant and whose invoice no order references.  Processing succeeds and
    marks the event processed.  If the merchant has pending, unlinked orders
    of exactly the amount paid, the earliest-created of them is linked to the
    invoice and marked paid, and every other order is left alone; if it has
    none, the orders are unchanged. *)
Theorem payment_succeeded_links_by_amount (env : Env) (job : Job.t)
    (event : Stripe.Event) (existing : StripeEvent.t) (merchant : Merchant.t)
    (c : string) (w : World) :
  let invoice := Stripe.object event in
  let inv := Stripe.object_id invoice in
  let eventId := WebhookJobData.eventId (Job.data job) in
  healthy w →
  NoDup (Order.id <$> orders w) →
  JSON_parse env (WebhookJobData.payload (Job.data job)) = inr event →
  Stripe.type event = WebhookProcessorService.INVOICE_PAYMENT_SUCCEEDED →
  stored_event (WebhookJobData.stripeEventId (Job.data job)) w
  = Some existing →
  event_row eventId w = Some existing →
  StripeEvent.processed existing = false →
  WebhookProcessorService.id_of (Stripe.customer invoice) = Some c →
  truthy_string c = true →
  merchant_of_customer c w = Some merchant →
  order_of_invoice inv w = None →
  ∃ w' row,
    WebhookProcessorService.processJob env job w = (Ok tt, w')
    ∧ event_row eventId w' = Some row
    ∧ StripeEvent.processed row = true
    ∧ ((∀ o, o ∈ orders w → candidate merchant invoice o = false) →
       orders w' = orders w)
    ∧ (∀ o0, o0 ∈ orders w → candidate merchant invoice o0 = true →
       ∃ o,
         o ∈ orders w
         ∧ candidate merchant invoice o = true
         ∧ (∀ o', o' ∈ orders w → candidate merchant invoice o' = true →
                  (Order.createdAt o ≤ Order.createdAt o')%Z)
         ∧ order_of_invoice inv w' = Some (linked_and_paid inv (clock w) o)
         ∧ ∀ k, order_row k w'
                = if bool_decide (k = Order.id o)
                  then Some (linked_and_paid inv (clock w) o)
                  else order_row k w).
Proof.
  intros invoice inv eventId Hw Hnd Hparse Htype Hkey Hid Hp Hc Htruthy Hm
    Hfree.
  destruct (handleInvoicePaymentSucceeded_unlinked event merchant c
              (set_pending [] w) (healthy_set_pending [] w Hw) Hnd Hc Htruthy
              Hm Hfree) as (subs' & ords' & Hrun & Hcases).
  fold invoice inv in Hcases.
  rewrite <- (processEventByType_succeeded event Htype) in Hrun.
  destruct (processJob_success env job event existing w _ Hw Hparse
              ltac:(by rewrite Hkey) Hid Hrun) as (evs' & _ & Hrow & Hjob);
    [done..|].
  eexists _, _. split; [exact Hjob|]. split; [exact Hrow|].
  split; [reflexivity|].
  change (orders (set_pending [] w)) with (orders w) in Hcases.
  change (clock (set_pending [] w)) with (clock w) in Hcases.
  split.
  - intros Hnone. destruct Hcases as [[_ ->] | (o & Ho & Hcand & _)];
      [reflexivity|].
    by rewrite (Hnone o Ho) in Hcand.
  - intros o0 Ho0 Hcand0.
    destruct Hcases as [[Hnone _] | (o & Ho & Hcand & Hleast & Hinv & Hrows)].
    { by rewrite (Hnone o0 Ho0) in Hcand0. }
    exists o. split; [done|]. split; [done|]. split; [done|].
    split; [exact Hinv|]. exact Hrows.
Qed.

Lemma payment_succeeded_links_by_amount_witness :
  ∃ w',
    WebhookProcessorService.processJob demo_env
      (delivery (row_of "c0" evt_succeeded false 0) 0)
      (shop [row_of "c0" evt_succeeded false 0]
            [order_pending "o1" 2999 20; order_pending "o2" 1500 5;
             order_pending "o3" 2999 10])
    = (Ok tt, w')
    ∧ StripeEvent.processed <$> stripeEvents w' = [true]
    ∧ Order.status <$> orders w' = [PENDING; PENDING; PAID]
    ∧ Order.stripeInvoiceId <$> orders w' = [None; None; Some "in_1"].
Proof.
  destruct (payment_succeeded_links_by_amount demo_env
              (delivery (row_of "c0" evt_succeeded false 0) 0)
              evt_succeeded (row_of "c0" evt_succeeded false 0) merchant_1
              "cus_1"
              (shop [row_of "c0" evt_succeeded false 0]
                    [order_pending "o1" 2999 20; order_pending "o2" 1500 5;
                     order_pending "o3" 2999 10]))
    as (w' & row & Hrun & _); try reflexivity.
  { apply (bool_decide_unpack _). by vm_compute. }
  exists w'. split; [exact Hrun|].
  vm_compute in Hrun. injection Hrun as <-. repeat split.
Defined.

(** The second event of the same amount finds no pending order left: it
    links nothing and is processed all the same. *)
Example second_payment_links_nothing :
  ∃ w',
    WebhookProcessorService.processJob demo_env
      (delivery (row_of "c0" evt_succeeded false 0) 0)
      (shop [row_of "c0" evt_succeeded false 0]
            [order_linked "o1" "in_0" PAID])
    = (Ok tt, w')
    ∧ orders w' = [order_linked "o1" "in_0" PAID]
    ∧ StripeEvent.processed <$> stripeEvents w' = [true].
Proof. eexists. split; [vm_compute; reflexivity|]. by split. Qed.

(** ** What may write an event row *)

Section Keeps.
Context {A B : Type}.

Lemma keeps_ret (a : A) : keeps_events (mret a : M A).
Proof. intros w r w' [= <- <-]. done. Qed.

Lemma keeps_throw (e : Exception) : keeps_events (throw e : M A).
Proof. intros w r w' [= <- <-]. done. Qed.

Lemma keeps_gets (f : World → A) : keeps_events (gets f).
Proof. intros w r w' [= <- <-]. done. Qed.

Lemma keeps_bind (m : M A) (f : A → M B) :
  keeps_events m → (∀ a, keeps_events (f a)) → keeps_events (m ≫= f).
Proof.
  intros Hm Hf w r w'. unfold mbind, M_bind.
  destruct (m w) as [[a|e] w1] eqn:Hrun; apply Hm in Hrun as [Hevs Hpend].
  - intros Hrun. apply Hf in Hrun as [-> ->]. done.
  - intros [= <- <-]. done.
Qed.

Lemma keeps_try_catch (m : M A) (h : Exception → M A) :
  keeps_events m → (∀ e, keeps_events (h e)) → keeps_events (try_catch m h).
Proof.
  intros Hm Hh w r w'. unfold try_catch.
  destruct (m w) as [[a|e] w1] eqn:Hrun; apply Hm in Hrun as [Hevs Hpend].
  - intros [= <- <-]. done.
  - intros Hrun. apply Hh in Hrun as [-> ->]. done.
Qed.

End Keeps.

Lemma keeps_external (cls : ExceptionClass) : keeps_events (external cls).
Proof.
  intros w r w'. unfold external.
  destruct (faults w) as [|[m|] fs]; intros [= <- <-]; done.
Qed.

Lemma keeps_modify (f : World → World) :
  (∀ w, stripeEvents (f w) = stripeEvents w ∧ pending (f w) = pending w) →
  keeps_events (modify f).
Proof. intros Hf w r w' [= <- <-]. apply Hf. Qed.

(** Decomposes a computation along its binds and branches. *)
Ltac keeps :=
  cbv zeta;
  repeat first
    [ solve [eauto 2]
    | apply keeps_ret
    | apply keeps_throw
    | apply keeps_gets
    | apply keeps_external
    | apply keeps_modify; intros ?; split; reflexivity
    | apply keeps_bind; [|intros ?]
    | apply keeps_try_catch; [|intros ?]
    | match goal with
      | |- keeps_events (match ?x with _ => _ end) => destruct x
      end ].

Lemma keeps_merchant_findUnique (k : string) :
  keeps_events (prisma.merchant.findUnique_stripeCustomerId k).
Proof. unfold prisma.merchant.findUnique_stripeCustomerId. keeps. Qed.

Lemma keeps_subscription_findUnique (k : string) :
  keeps_events (prisma.subscription.findUnique k).
Proof. unfold prisma.subscription.findUnique. keeps. Qed.

Lemma keeps_subscription_update (k status : string) (d : SubscriptionData.t) :
  keeps_events (prisma.subscription.update k status d).
Proof. unfold prisma.subscription.update. keeps. Qed.

Lemma keeps_order_findUnique (k : OrderWhereUniqueInput) :
  keeps_events (prisma.order.findUnique k).
Proof. unfold prisma.order.findUnique. keeps. Qed.

Lemma keeps_order_findFirst (merchantId : string) (amount : Z) :
  keeps_events (prisma.order.findFirst_pending merchantId amount).
Proof. unfold prisma.order.findFirst_pending. keeps. Qed.

Lemma keeps_order_update (k : OrderWhereUniqueInput)
    (d : OrderUpdateInput.t) :
  keeps_events (prisma.order.update k d).
Proof. unfold prisma.order.update. keeps. Qed.

Lemma keeps_stripeEvent_findUnique (k : StripeEventWhereUniqueInput) :
  keeps_events (prisma.stripeEvent.findUnique k).
Proof. unfold prisma.stripeEvent.findUnique. keeps. Qed.

Lemma keeps_tx_findUnique (k : StripeEventWhereUniqueInput) :
  keeps_events (tx.stripeEvent.findUnique k).
Proof. unfold tx.stripeEvent.findUnique. keeps. Qed.

Lemma keeps_getJob (k : string) : keeps_events (webhookQueue.getJob k).
Proof. unfold webhookQueue.getJob. keeps. Qed.

Lemma keeps_add (name : string) (data : WebhookJobData.t) (k : string) :
  keeps_events (webhookQueue.add name data k).
Proof. unfold webhookQueue.add. keeps. Qed.

Lemma keeps_updateSubscriptionStatus (k status : string)
    (d : SubscriptionData.t) :
  keeps_events (MerchantsService.updateSubscriptionStatus k status d).
Proof.
  unfold MerchantsService.updateSubscriptionStatus.
  pose proof keeps_subscription_findUnique.
  pose proof keeps_subscription_update. keeps.
Qed.

Lemma keeps_markOrderAsPaid (inv : string) (paidAt : option Date) :
  keeps_events (OrdersService.markOrderAsPaid inv paidAt).
Proof.
  unfold OrdersService.markOrderAsPaid, new_Date.
  pose proof keeps_order_findUnique. pose proof keeps_order_update. keeps.
Qed.

Lemma keeps_markOrderAsPaymentFailed (inv : string)
    (failureReason : option string) :
  keeps_events (OrdersService.markOrderAsPaymentFailed inv failureReason).
Proof.
  unfold OrdersService.markOrderAsPaymentFailed, new_Date.
  pose proof keeps_order_findUnique. pose proof keeps_order_update. keeps.
Qed.

Lemma keeps_findAndLinkOrderToInvoice (merchantId inv : string) (amount : Z) :
  keeps_events (OrdersService.findAndLinkOrderToInvoice merchantId inv amount).
Proof.
  unfold OrdersService.findAndLinkOrderToInvoice.
  pose proof keeps_order_findFirst. pose proof keeps_order_update. keeps.
Qed.

Lemma keeps_resolveMerchant (customerId : option string) :
  keeps_events (WebhookProcessorService.resolveMerchant customerId).
Proof.
  unfold WebhookProcessorService.resolveMerchant,
    MerchantsService.getMerchantByStripeCustomerId.
  pose proof keeps_merchant_findUnique. keeps.
Qed.

(** No handler reads or writes an event row. *)
Lemma keeps_processEventByType (event : Stripe.Event) :
  keeps_events (WebhookProcessorService.processEventByType event).
Proof.
  pose proof keeps_resolveMerchant. pose proof keeps_updateSubscriptionStatus.
  pose proof keeps_markOrderAsPaid. pose proof keeps_markOrderAsPaymentFailed.
  pose proof keeps_findAndLinkOrderToInvoice.
  pose proof keeps_order_findUnique.
  unfold WebhookProcessorService.processEventByType,
    WebhookProcessorService.handleInvoicePaymentSucceeded,
    WebhookProcessorService.handleInvoicePaymentFailed,
    WebhookProcessorService.handleSubscriptionUpdated,
    WebhookProcessorService.handleSubscriptionDeleted,
    OrdersService.getOrderByInvoiceId, new_Date.
  keeps.
Qed.

Lemma may_mark_keeps (eventId : string) (attemptsMade : Z) (m : M unit) :
  keeps_events m → may_mark eventId attemptsMade m.
Proof. intros Hm w r w' Hrun. apply Hm in Hrun as [-> ->]. auto. Qed.

Lemma may_mark_bind {A : Type} (eventId : string) (attemptsMade : Z)
    (m : M A) (f : A → M unit) :
  keeps_events m → (∀ a, may_mark eventId attemptsMade (f a)) →
  may_mark eventId attemptsMade (m ≫= f).
Proof.
  intros Hm Hf w r w'. unfold mbind, M_bind.
  destruct (m w) as [[a|e] w1] eqn:Hrun; apply Hm in Hrun as [Hevs Hpend].
  - intros Hrun. apply Hf in Hrun. by rewrite Hevs, Hpend in Hrun.
  - intros [= <- <-]. auto.
Qed.

Lemma may_mark_tx_update (eventId : string) (attemptsMade : Z) (now : Date) :
  may_mark eventId attemptsMade
    (tx.stripeEvent.update eventId
       (StripeEventUpdateInput.mk (Some true) (Some now) None
                                  (Some attemptsMade))).
Proof.
  intros w r w'. unfold tx.stripeEvent.update, mbind, M_bind.
  destruct (external PrismaClientError w) as [[[]|e] w1] eqn:Hext;
    apply keeps_external in Hext as [Hevs Hpend].
  - unfold gets, modify, throw.
    destruct (find _ (tx_view w1)); intros [= <- <-]; wsimpl.
    + destruct w1; wsimpl. subst. split; [done|]. right. split; [done|].
      by exists now.
    + auto.
  - intros [= <- <-]. auto.
Qed.

(** What a delivery does to the event rows: nothing, or the mark of a
    success on the row the job names, or the record of a failure on it. *)
Lemma processJob_event_rows (env : Env) (job : Job.t) (w w' : World)
    (r : Result unit) :
  let eventId := WebhookJobData.eventId (Job.data job) in
  let key := StripeEvent_matches (StripeEvent_id eventId) in
  WebhookProcessorService.processJob env job w = (r, w') →
  pending w' = pending w
  ∧ (stripeEvents w' = stripeEvents w
     ∨ (r = Ok tt
        ∧ ∃ now,
            update_first key
              (StripeEvent_set
                 (StripeEventUpdateInput.mk (Some true) (Some now) None
                    (Some (Job.attemptsMade job))))
              (stripeEvents w) = Some (stripeEvents w'))
     ∨ (∃ e,
          r = Throw e
          ∧ update_first key
              (StripeEvent_set
                 (StripeEventUpdateInput.mk None None (Some (message e))
                    (Some (Job.attemptsMade job + 1))))
              (stripeEvents w) = Some (stripeEvents w'))).
Proof.
  intros eventId key.
  unfold WebhookProcessorService.processJob, try_catch, transaction.
  cbv zeta. fold eventId.
  match goal with
  | |- context [match ?body (set_pending [] w) with _ => _ end] =>
      assert (Hbody : may_mark eventId (Job.attemptsMade job) body)
  end.
  { apply may_mark_bind; [apply keeps_tx_findUnique|]. intros existingEvent.
    destruct (from_option _ _ _); [apply may_mark_keeps, keeps_ret|].
    apply may_mark_bind.
    { unfold WebhookProcessorService.parse. keeps. }
    intros event. apply may_mark_bind; [apply keeps_processEventByType|].
    intros _. apply may_mark_bind; [apply keeps_gets|]. intros now.
    apply may_mark_tx_update. }
  match goal with
  | |- context [match ?body (set_pending [] w) with _ => _ end] =>
      destruct (body (set_pending [] w)) as [[[]|e] w1] eqn:Hrun
  end; apply Hbody in Hrun as [Hevs Hpend]; wsimpl.
  - (* the callback returned: commit *)
    intros [= <- <-]. wsimpl. split; [done|].
    unfold tx_view. rewrite Hevs.
    destruct Hpend as [-> | [_ [now ->]]]; cbn [foldl app apply_write].
    + by left.
    + match goal with
      | |- context [update_first ?p ?f ?l] =>
          destruct (update_first p f l) as [evs'|] eqn:Hupd
      end; cbn [default from_option id].
      * right. left. split; [done|]. exists now. exact Hupd.
      * by left.
  - (* the callback threw: rollback, then the error record *)
    destruct Hpend as [Hpend | [[=] _]].
    unfold prisma.stripeEvent.update. unfold mbind, M_bind.
    destruct (external PrismaClientError (set_pending (pending w) w1))
      as [[[]|e'] w2] eqn:Hext; apply keeps_external in Hext as [Hevs2 Hpend2];
      wsimpl.
    + unfold gets, modify, throw.
      match goal with
      | |- context [update_first ?p ?f ?l] =>
          destruct (update_first p f l) as [evs'|] eqn:Hupd
      end.
      * intros [= <- <-]. wsimpl. split; [done|]. right. right.
        exists e. split; [done|]. by rewrite <- Hevs, <- Hevs2.
      * intros [= <- <-]. split; [done|]. left. congruence.
    + intros [= <- <-]. split; [done|]. left. congruence.
Qed.

(** The row under an id after an update addressed by id. *)
Lemma event_row_after_update (k i : string) (d : StripeEventUpdateInput.t)
    (l l' : list StripeEvent.t) (row row' : StripeEvent.t) :
  update_first (StripeEvent_matches (StripeEvent_id k)) (StripeEvent_set d) l
  = Some l' →
  find (StripeEvent_matches (StripeEvent_id i)) l = Some row →
  find (StripeEvent_matches (StripeEvent_id i)) l' = Some row' →
  row' = row ∨ row' = StripeEvent_set d row.
Proof.
  intros Hupd Hrow Hrow'. destruct (decide (i = k)) as [-> | Hne].
  - rewrite (find_update_first _ _ _ _ (StripeEvent_set_id _ _) Hupd) in Hrow'.
    rewrite Hrow in Hrow'. right. by injection Hrow'.
  - assert (Hother : ∀ x, StripeEvent_matches (StripeEvent_id k) x = true →
                          StripeEvent_matches (StripeEvent_id i) x = false).
    { intros x Hx. unfold StripeEvent_matches in *.
      apply bool_decide_eq_true in Hx. apply bool_decide_eq_false.
      congruence. }
    rewrite (find_update_first_other _ _ _ _ _ (StripeEvent_set_id _ _)
               Hother Hupd) in Hrow'.
    left. congruence.
Qed.

Lemma may_create_keeps {A : Type} (m : M A) : keeps_events m → may_create m.
Proof. intros Hm w r w' Hrun. apply Hm in Hrun as [-> ->]. auto. Qed.

Lemma may_create_bind_l {A B : Type} (m : M A) (f : A → M B) :
  keeps_events m → (∀ a, may_create (f a)) → may_create (m ≫= f).
Proof.
  intros Hm Hf w r w'. unfold mbind, M_bind.
  destruct (m w) as [[a|e] w1] eqn:Hrun; apply Hm in Hrun as [Hevs Hpend].
  - intros Hrun. apply Hf in Hrun. by rewrite Hevs, Hpend in Hrun.
  - intros [= <- <-]. auto.
Qed.

Lemma may_create_bind_r {A B : Type} (m : M A) (f : A → M B) :
  may_create m → (∀ a, keeps_events (f a)) → may_create (m ≫= f).
Proof.
  intros Hm Hf w r w'. unfold mbind, M_bind.
  destruct (m w) as [[a|e] w1] eqn:Hrun; apply Hm in Hrun as [Hpend Hevs].
  - intros Hrun. apply Hf in Hrun as [-> ->]. auto.
  - intros [= <- <-]. auto.
Qed.

Lemma may_create_create (stripeEventId eventType payload : string)
    (processed : bool) :
  may_create (prisma.stripeEvent.create stripeEventId eventType payload
                                        processed 0).
Proof.
  intros w r w'. unfold prisma.stripeEvent.create. unfold mbind, M_bind.
  destruct (external PrismaClientError w) as [[[]|e] w1] eqn:Hext;
    apply keeps_external in Hext as [Hevs Hpend].
  - unfold gets, modify, throw, mret, M_ret.
    destruct (find _ (stripeEvents w1)); intros [= <- <-]; wsimpl.
    + rewrite Hevs, Hpend. auto.
    + destruct w1; wsimpl. subst. split; [done|]. right. by eexists.
  - intros [= <- <-]. rewrite Hevs, Hpend. auto.
Qed.

Lemma keeps_enqueueWebhookEvent (data : WebhookJobData.t) :
  keeps_events (QueueService.enqueueWebhookEvent data).
Proof.
  unfold QueueService.enqueueWebhookEvent. pose proof keeps_add. keeps.
Qed.

Lemma keeps_jobExists (k : string) : keeps_events (QueueService.jobExists k).
Proof. unfold QueueService.jobExists. pose proof keeps_getJob. keeps. Qed.

Lemma keeps_verifyWebhookSignature (env : Env) (payload : Buffer)
    (signature : string) :
  keeps_events (StripeService.verifyWebhookSignature env payload signature).
Proof. unfold StripeService.verifyWebhookSignature. keeps. Qed.

(** Ingestion creates at most one row, with retry count 0, and rewrites
    none. *)
Lemma may_create_handleWebhook (env : Env) (payload : Buffer)
    (signature : string) :
  may_create (WebhooksService.handleWebhook env payload signature).
Proof.
  pose proof keeps_enqueueWebhookEvent. pose proof keeps_jobExists.
  unfold WebhooksService.handleWebhook.
  apply may_create_bind_l.
  { pose proof (keeps_verifyWebhookSignature env). keeps. }
  intros event. apply may_create_bind_l; [apply keeps_stripeEvent_findUnique|].
  intros [existingEvent|].
  - apply may_create_keeps. keeps.
  - apply may_create_bind_r; [apply may_create_create|].
    intros stripeEvent. keeps.
Qed.

Lemma find_app_Some {A : Type} (p : A → bool) (l1 l2 : list A) (x : A) :
  find p l1 = Some x → find p (l1 ++ l2) = Some x.
Proof.
  induction l1 as [|y l1 IH]; simpl; [discriminate|]. by destruct (p y).
Qed.

(** ** The retry count (C8) *)

(** A reprocessing request for a row that has recorded three failed
    attempts, once the queue no longer holds its job. *)
Example reprocessEvent_enqueues :
  queue (snd (WebhooksService.reprocessEvent "evt_1"
                (shop [row_of "c0" evt_succeeded false 3] [])))
  = [reenqueued (row_of "c0" evt_succeeded false 3)].
Proof. reflexivity. Qed.

(** C8, as stated, fails: a row that has recorded three failed attempts is
    delivered again by the job a reprocessing request enqueues, whose
    attempt counter starts at 0; the delivery succeeds and stores 0. *)
Lemma retryCount_not_monotone :
  ¬ (∀ (env : Env) (job : Job.t) (w w' : World) (r : Result unit)
       (i : string) (row row' : StripeEvent.t),
       WebhookProcessorService.processJob env job w = (r, w') →
       event_row i w = Some row →
       event_row i w' = Some row' →
       (StripeEvent.retryCount row ≤ StripeEvent.retryCount row')%Z).
Proof.
  intros H.
  specialize (H demo_env (reenqueued (row_of "c0" evt_succeeded false 3))
                (shop [row_of "c0" evt_succeeded false 3] []) _ _ "c0"
                (row_of "c0" evt_succeeded false 3) _ eq_refl eq_refl eq_refl).
  vm_compute in H. by apply H.
Qed.

(** C8, amended: ingestion gives a new row the retry count 0 and leaves every
    existing row as it is; a delivery leaves the retry count of a row as it
    is or stores the attempt counter of the job in it, [attemptsMade] when
    it succeeds and [attemptsMade + 1] when it fails.  So the retry count of
    a row does not decrease across a delivery whose job has made at least
    that many attempts. *)
Theorem retryCount_follows_attempts (env : Env) (payload : Buffer)
    (signature : string) (job : Job.t) (w : World) (i : string)
    (row : StripeEvent.t) :
  event_row i w = Some row →
  (∀ r w',
     WebhooksService.handleWebhook env payload signature w = (r, w') →
     event_row i w' = Some row
     ∧ (stripeEvents w' = stripeEvents w
        ∨ ∃ new, stripeEvents w' = (stripeEvents w ++ [new])%list
                 ∧ StripeEvent.retryCount new = 0))
  ∧ (∀ r w' row',
       WebhookProcessorService.processJob env job w = (r, w') →
       event_row i w' = Some row' →
       (StripeEvent.retryCount row' = StripeEvent.retryCount row
        ∨ (r = Ok tt
           ∧ StripeEvent.retryCount row' = Job.attemptsMade job)
        ∨ ((∃ e, r = Throw e)
           ∧ StripeEvent.retryCount row' = Job.attemptsMade job + 1))
       ∧ ((StripeEvent.retryCount row ≤ Job.attemptsMade job)%Z →
          (StripeEvent.retryCount row ≤ StripeEvent.retryCount row')%Z)).
Proof.
  intros Hrow. unfold event_row in *. split.
  - intros r w' Hrun.
    apply may_create_handleWebhook in Hrun as [_ [Hevs | (new & Hevs & Hnew)]];
      rewrite Hevs.
    + split; [done | by left].
    + split; [by apply find_app_Some | right; by exists new].
  - intros r w' row' Hrun Hrow'.
    apply processJob_event_rows in Hrun
      as [_ [Hevs | [[Hr [now Hupd]] | (e & He & Hupd)]]].
    + rewrite Hevs, Hrow in Hrow'. injection Hrow' as <-.
      split; [by left | done].
    + destruct (event_row_after_update _ _ _ _ _ _ _ Hupd Hrow Hrow')
        as [-> | ->]; [split; [by left | done]|].
      split; [right; left; by split|]. simpl. done.
    + destruct (event_row_after_update _ _ _ _ _ _ _ Hupd Hrow Hrow')
        as [-> | ->]; [split; [by left | done]|].
      split; [right; right; split; [by exists e | done]|]. simpl. lia.
Qed.

Lemma retryCount_follows_attempts_witness :
  ∃ w' row',
    WebhookProcessorService.processJob demo_env
      (delivery (row_of "c0" evt_succeeded false 1) 1)
      (shop [row_of "c0" evt_succeeded false 1] []) = (Ok tt, w')
    ∧ event_row "c0" w' = Some row'
    ∧ (StripeEvent.retryCount (row_of "c0" evt_succeeded false 1)
       ≤ StripeEvent.retryCount row')%Z.
Proof.
  destruct (retryCount_follows_attempts demo_env [] "v1=good"
              (delivery (row_of "c0" evt_succeeded false 1) 1)
              (shop [row_of "c0" evt_succeeded false 1] []) "c0"
              (row_of "c0" evt_succeeded false 1) eq_refl) as [_ Hdelivery].
  eexists _, _. split; [vm_compute; reflexivity|]. split; [reflexivity|].
  eapply Hdelivery; [vm_compute; reflexivity | reflexivity | simpl; lia].
Defined.

(** ** A failed delivery (C7) *)

(** When a delivery fails and the store accepts the error record, the
    failure is re-raised, and the row the job names carries the message of
    the failure and the attempt number; its [processed] flag is not
    written. *)
Lemma processJob_failure_recorded (env : Env) (job : Job.t) (w w' : World)
    (e : Exception) (row : StripeEvent.t) :
  let eventId := WebhookJobData.eventId (Job.data job) in
  WebhookProcessorService.processJob env job w = (Throw e, w') →
  event_row eventId w = Some row →
  stripeEvents w' ≠ stripeEvents w →
  event_row eventId w' =
  Some (StripeEvent.mk (StripeEvent.id row) (StripeEvent.stripeEventId row)
          (StripeEvent.eventType row) (StripeEvent.payload row)
          (StripeEvent.processed row) (StripeEvent.processedAt row)
          (Some (message e)) (Job.attemptsMade job + 1)
          (StripeEvent.createdAt row)).
Proof.
  intros eventId Hrun Hrow Hchanged. subst eventId. unfold event_row in *.
  apply processJob_event_rows in Hrun
    as [_ [Hevs | [[[=] _] | (e' & [= <-] & Hupd)]]]; [done|].
  rewrite (find_update_first _ _ _ _ (StripeEvent_set_id _ _) Hupd).
  by rewrite Hrow.
Qed.

(** C7, at the failing input: the store becomes unreachable after the
    payment-succeeded handler has set the subscription to [active].  The
    delivery fails and the failure is recorded and re-raised, but the
    handler wrote through the regular client, outside the transaction that
    [processJob] opened for atomicity, and the subscription stays [active]
    after the rollback. *)
Theorem processJob_rollback_keeps_domain_write :
  ∃ e w',
    WebhookProcessorService.processJob demo_env
      (delivery (row_of "c0" evt_succeeded false 0) 0)
      (set_faults [None; None; None; None; Some "Can't reach database server"]
         (shop [row_of "c0" evt_succeeded false 0] []))
    = (Throw e, w')
    ∧ message e = "Can't reach database server"
    ∧ Subscription.status <$>
        subscriptions (shop [row_of "c0" evt_succeeded false 0] [])
      = ["past_due"]
    ∧ Subscription.status <$> subscriptions w' = ["active"]
    ∧ StripeEvent.processed <$> stripeEvents w' = [false]
    ∧ StripeEvent.processingError <$> stripeEvents w'
      = [Some "Can't reach database server"]
    ∧ StripeEvent.retryCount <$> stripeEvents w' = [1].
Proof.
  eexists _, _. split; [vm_compute; reflexivity|]. repeat split.
Qed.

(** ** Out-of-order events through the webhook handlers *)

(** The payment-succeeded handler on an invoice an order references, for a
    resolved merchant: the order ends [PAID]. *)
Lemma handleInvoicePaymentSucceeded_linked (event : Stripe.Event)
    (merchant : Merchant.t) (c : string) (o : Order.t) (w : World) :
  let invoice := Stripe.object event in
  let inv := Stripe.object_id invoice in
  healthy w →
  WebhookProcessorService.id_of (Stripe.customer invoice) = Some c →
  truthy_string c = true →
  merchant_of_customer c w = Some merchant →
  order_of_invoice inv w = Some o →
  ∃ w' o',
    WebhookProcessorService.handleInvoicePaymentSucceeded event w
    = (Ok tt, w')
    ∧ healthy w'
    ∧ merchants w' = merchants w
    ∧ order_of_invoice inv w' = Some o'
    ∧ Order.id o' = Order.id o
    ∧ Order.status o' = PAID.
Proof.
  intros invoice inv Hw Hc Htruthy Hm Ho.
  unfold WebhookProcessorService.handleInvoicePaymentSucceeded.
  cbv zeta. fold invoice. fold inv. rewrite Hc.
  rewrite (bind_Ok _ _ _ _ _ (resolveMerchant_healthy c w Hw Htruthy)).
  rewrite Hm.
  destruct (subscription_step
              (WebhookProcessorService.present (Stripe.subscription invoice))
              (default "" (WebhookProcessorService.id_of
                             (Stripe.subscription invoice)))
              "active"
              (SubscriptionData.mk
                 (date_of_seconds (Stripe.period_start invoice))
                 (date_of_seconds (Stripe.period_end invoice)) None None)
              w Hw) as [subs' Hsub].
  rewrite (bind_Ok _ _ _ _ _ Hsub).
  set (w1 := set_subscriptions subs' w).
  assert (Hw1 : healthy w1) by done.
  rewrite (bind_Ok _ _ _ _ _ (getOrderByInvoiceId_healthy inv w1 Hw1)).
  change (order_of_invoice inv w1) with (order_of_invoice inv w).
  rewrite Ho.
  destruct (markOrderAsPaid_linked inv (Some (clock w1)) o w1 Hw1 Ho)
    as (w2 & o2 & Hrun & Hw2 & Ho2 & Hid & Hst & _ & Hframe).
  change ((new_Date ≫= λ now,
             OrdersService.markOrderAsPaid inv (Some now);; mret tt) w1)
    with ((OrdersService.markOrderAsPaid inv (Some (clock w1));; mret tt) w1).
  rewrite (bind_Ok _ _ _ _ _ Hrun).
  exists w2, o2. split; [reflexivity|]. split; [done|].
  split; [by rewrite Hframe|]. done.
Qed.

(** The payment-failed handler on an invoice an order references, for a
    resolved merchant: a paid order stays [PAID], any other order ends
    [PAYMENT_FAILED]. *)
Lemma handleInvoicePaymentFailed_linked (event : Stripe.Event)
    (merchant : Merchant.t) (c : string) (o : Order.t) (w : World) :
  let invoice := Stripe.object event in
  let inv := Stripe.object_id invoice in
  healthy w →
  WebhookProcessorService.id_of (Stripe.customer invoice) = Some c →
  truthy_string c = true →
  merchant_of_customer c w = Some merchant →
  order_of_invoice inv w = Some o →
  ∃ w' o',
    WebhookProcessorService.handleInvoicePaymentFailed event w = (Ok tt, w')
    ∧ healthy w'
    ∧ merchants w' = merchants w
    ∧ order_of_invoice inv w' = Some o'
    ∧ Order.id o' = Order.id o
    ∧ Order.status o' =
        (if bool_decide (Order.status o = PAID) then PAID
         else PAYMENT_FAILED).
Proof.
  intros invoice inv Hw Hc Htruthy Hm Ho.
  unfold WebhookProcessorService.handleInvoicePaymentFailed.
  cbv zeta. fold invoice. fold inv. rewrite Hc.
  rewrite (bind_Ok _ _ _ _ _ (resolveMerchant_healthy c w Hw Htruthy)).
  rewrite Hm.
  destruct (subscription_step
              (WebhookProcessorService.present (Stripe.subscription invoice))
              (default "" (WebhookProcessorService.id_of
                             (Stripe.subscription invoice)))
              "past_due" SubscriptionData.empty w Hw) as [subs' Hsub].
  rewrite (bind_Ok _ _ _ _ _ Hsub).
  set (w1 := set_subscriptions subs' w).
  assert (Hw1 : healthy w1) by done.
  rewrite (bind_Ok _ _ _ _ _ (getOrderByInvoiceId_healthy inv w1 Hw1)).
  change (order_of_invoice inv w1) with (order_of_invoice inv w).
  rewrite Ho.
  destruct (markOrderAsPaymentFailed_linked inv
              (Some (WebhookProcessorService.extractFailureReason invoice))
              o w1 Hw1 Ho)
    as (w2 & o2 & Hrun & Hw2 & Ho2 & Hid & Hst & _ & Hframe).
  rewrite (bind_Ok _ _ _ _ _ Hrun).
  exists w2, o2. split; [reflexivity|]. split; [done|].
  split; [by rewrite Hframe|]. done.
Qed.

(** The same through the webhook handlers: when the customer of both events
    resolves to a merchant, a payment-failed and a payment-succeeded event
    for the invoice of an order leave that order [PAID] in either order of
    arrival. *)
Lemma webhook_handlers_in_either_order (succeeded failed : Stripe.Event)
    (merchant : Merchant.t) (c : string) (o : Order.t) (w : World) :
  let inv := Stripe.object_id (Stripe.object succeeded) in
  Stripe.object_id (Stripe.object failed) = inv →
  healthy w →
  WebhookProcessorService.id_of (Stripe.customer (Stripe.object succeeded))
  = Some c →
  WebhookProcessorService.id_of (Stripe.customer (Stripe.object failed))
  = Some c →
  truthy_string c = true →
  merchant_of_customer c w = Some merchant →
  order_of_invoice inv w = Some o →
  (∃ w' o',
     (WebhookProcessorService.handleInvoicePaymentFailed failed;;
      WebhookProcessorService.handleInvoicePaymentSucceeded succeeded) w
     = (Ok tt, w')
     ∧ order_of_invoice inv w' = Some o'
     ∧ Order.id o' = Order.id o ∧ Order.status o' = PAID)
  ∧ (∃ w' o',
     (WebhookProcessorService.handleInvoicePaymentSucceeded succeeded;;
      WebhookProcessorService.handleInvoicePaymentFailed failed) w
     = (Ok tt, w')
     ∧ order_of_invoice inv w' = Some o'
     ∧ Order.id o' = Order.id o ∧ Order.status o' = PAID).
Proof.
  intros inv Hinv Hw Hcs Hcf Htruthy Hm Ho. split.
  - destruct (handleInvoicePaymentFailed_linked failed merchant c o w Hw Hcf
                Htruthy Hm ltac:(by rewrite Hinv))
      as (w1 & o1 & Hrun1 & Hw1 & Hms1 & Ho1 & Hid1 & _).
    rewrite Hinv in Ho1.
    destruct (handleInvoicePaymentSucceeded_linked succeeded merchant c o1 w1
                Hw1 Hcs Htruthy
                ltac:(unfold merchant_of_customer in *; by rewrite Hms1) Ho1)
      as (w2 & o2 & Hrun2 & _ & _ & Ho2 & Hid2 & Hst2).
    exists w2, o2. rewrite (bind_Ok _ _ _ _ _ Hrun1).
    split; [exact Hrun2|]. split; [exact Ho2|]. split; [congruence|done].
  - destruct (handleInvoicePaymentSucceeded_linked succeeded merchant c o w Hw
                Hcs Htruthy Hm Ho)
      as (w1 & o1 & Hrun1 & Hw1 & Hms1 & Ho1 & Hid1 & Hst1).
    destruct (handleInvoicePaymentFailed_linked failed merchant c o1 w1 Hw1
                Hcf Htruthy
                ltac:(unfold merchant_of_customer in *; by rewrite Hms1)
                ltac:(by rewrite Hinv))
      as (w2 & o2 & Hrun2 & _ & _ & Ho2 & Hid2 & Hst2).
    rewrite Hinv in Ho2.
    exists w2, o2. rewrite (bind_Ok _ _ _ _ _ Hrun1).
    split; [exact Hrun2|]. split; [exact Ho2|]. split; [congruence|].
    rewrite Hst2. by rewrite bool_decide_eq_true_2.
Qed.

(** * Further properties of the pipeline *)

(** ** Ingestion *)

(** A request whose signature does not verify, or that arrives while no
    webhook secret is configured, is refused with a [BadRequestException]
    and leaves the world as it was: no row, no job.  No store is called, so
    this holds whatever the state of the stores. *)
Theorem handleWebhook_rejects_bad_signature (env : Env) (payload : Buffer)
    (signature : string) (w : World) :
  (STRIPE_WEBHOOK_SECRET env = None
   ∨ STRIPE_WEBHOOK_SECRET env = Some ""
   ∨ ∃ secret e,
       STRIPE_WEBHOOK_SECRET env = Some secret
       ∧ constructEvent env payload signature secret = inl e) →
  WebhooksService.handleWebhook env payload signature w
  = (Throw (mkException BadRequestException "Invalid webhook signature"), w).
Proof.
  intros H. unfold WebhooksService.handleWebhook,
    StripeService.verifyWebhookSignature.
  destruct H as [-> | [-> | (secret & e & -> & Hc)]]; [reflexivity..|].
  destruct (truthy_string secret); [|reflexivity].
  rewrite Hc. reflexivity.
Qed.

Lemma handleWebhook_rejects_bad_signature_witness :
  WebhooksService.handleWebhook demo_env [] "v1=forged"
    (shop [row_of "c0" evt_succeeded false 0] [])
  = (Throw (mkException BadRequestException "Invalid webhook signature"),
     shop [row_of "c0" evt_succeeded false 0] []).
Proof.
  apply handleWebhook_rejects_bad_signature.
  right. right. exists "whsec_test", (mkException Error "No signatures found").
  split; reflexivity.
Defined.

Lemma find_app_None {A : Type} (p : A → bool) (l1 l2 : list A) :
  find p l1 = None → find p (l1 ++ l2) = find p l2.
Proof.
  induction l1 as [|y l1 IH]; simpl; [done|].
  destruct (p y); [discriminate | done].
Qed.

(** The run of [handleWebhook] on a verified event that has no row. *)
Lemma handleWebhook_new_event_run (env : Env) (payload : Buffer)
    (signature : string) (event : Stripe.Event) (w : World) :
  healthy w →
  verified env payload signature event →
  stored_event (Stripe.id event) w = None →
  let row :=
    StripeEvent.mk ("c" +:+ pretty (created w)) (Stripe.id event)
                   (Stripe.type event) (JSON_stringify env event)
                   false None None 0 (clock w) in
  let job :=
    Job.mk (Stripe.id event) (Stripe.type event)
           (WebhookJobData.mk (StripeEvent.id row) (Stripe.id event)
                              (Stripe.type event) (StripeEvent.payload row) 0)
           0 waiting in
  ∃ w',
    WebhooksService.handleWebhook env payload signature w = (Ok row, w')
    ∧ healthy w'
    ∧ stripeEvents w' = (stripeEvents w ++ [row])%list
    ∧ stored_event (Stripe.id event) w' = Some row
    ∧ merchants w' = merchants w
    ∧ subscriptions w' = subscriptions w
    ∧ orders w' = orders w
    ∧ match job_of (Stripe.id event) w with
      | Some _ => queue w' = queue w
      | None => queue w' = (queue w ++ [job])%list
      end.
Proof.
  intros Hw Hv Hrow row job. unfold stored_event, job_of in *.
  open_world w Hw. wsimpl. subst row job. cbn [created clock].
  mrun. rewrite Hv. mrun. rewrite Hrow. mrun. rewrite Hrow.
  destruct (find (webhookQueue.has_id (Stripe.id event)) jobs) eqn:Hjob;
    mrun; rewrite Hjob; mrun;
    (eexists; split; [reflexivity|]; wsimpl;
     split; [reflexivity|]; split; [reflexivity|];
     split; [|by repeat split];
     rewrite (find_app_None _ _ _ Hrow); simpl;
     by rewrite bool_decide_eq_true_2).
Qed.

(** The first sight of a verified event, while the stores answer: exactly
    one row is appended, unprocessed, with retry count 0 and the serialized
    event as payload; it is the row returned and the row its provider id now
    selects; the domain tables are untouched; and unless the queue already
    holds a job under the provider id, it gains the job of that row. *)
Theorem handleWebhook_new_event (env : Env) (payload : Buffer)
    (signature : string) (event : Stripe.Event) (w : World) :
  healthy w →
  verified env payload signature event →
  stored_event (Stripe.id event) w = None →
  ∃ row w',
    WebhooksService.handleWebhook env payload signature w = (Ok row, w')
    ∧ stripeEvents w' = (stripeEvents w ++ [row])%list
    ∧ stored_event (Stripe.id event) w' = Some row
    ∧ StripeEvent.stripeEventId row = Stripe.id event
    ∧ StripeEvent.eventType row = Stripe.type event
    ∧ StripeEvent.payload row = JSON_stringify env event
    ∧ StripeEvent.processed row = false
    ∧ StripeEvent.retryCount row = 0
    ∧ merchants w' = merchants w
    ∧ subscriptions w' = subscriptions w
    ∧ orders w' = orders w
    ∧ match job_of (Stripe.id event) w with
      | Some _ => queue w' = queue w
      | None =>
          queue w' =
          (queue w ++
           [Job.mk (Stripe.id event) (Stripe.type event)
                   (WebhookJobData.mk (StripeEvent.id row) (Stripe.id event)
                                      (Stripe.type event)
                                      (StripeEvent.payload row) 0)
                   0 waiting])%list
      end.
Proof.
  intros Hw Hv Hrow.
  destruct (handleWebhook_new_event_run env payload signature event w Hw Hv
              Hrow) as (w' & Hrun & _ & Hevs & Hstored & Hm & Hs & Ho & Hq).
  eexists _, w'. split; [exact Hrun|]. by repeat (split; [done|]).
Qed.

Lemma handleWebhook_new_event_witness :
  ∃ w',
    WebhooksService.handleWebhook demo_env [] "v1=good" (shop [] [])
    = (Ok (StripeEvent.mk "c0" "evt_1" "invoice.payment_succeeded" "{evt_1}"
                          false None None 0 2000), w')
    ∧ length (stripeEvents w') = 1%nat
    ∧ Job.id <$> queue w' = ["evt_1"].
Proof.
  destruct (handleWebhook_new_event demo_env [] "v1=good" evt_succeeded
              (shop [] []))
    as (row & w' & Hrun & Hevs & _ & _ & _ & _ & _ & _ & _ & _ & _ & Hq).
  - reflexivity.
  - intros w. reflexivity.
  - reflexivity.
  - exists w'. vm_compute in Hrun. injection Hrun as <- <-.
    split; [reflexivity|]. split; reflexivity.
Defined.

(** Ingestion does not depend on the queue: when the database answers and
    the queue rejects the job of a new event, the row is stored and returned
    all the same, and the queue is as it was. *)
Theorem handleWebhook_survives_queue_failure (env : Env) (payload : Buffer)
    (signature : string) (event : Stripe.Event) (w : World) (m : string)
    (fs : list (option string)) :
  faults w = None :: None :: Some m :: fs →
  verified env payload signature event →
  stored_event (Stripe.id event) w = None →
  ∃ row w',
    WebhooksService.handleWebhook env payload signature w = (Ok row, w')
    ∧ stored_event (Stripe.id event) w' = Some row
    ∧ StripeEvent.processed row = false
    ∧ StripeEvent.retryCount row = 0
    ∧ queue w' = queue w
    ∧ faults w' = fs.
Proof.
  intros Hf Hv Hrow. unfold stored_event in *.
  destruct w as [evs ms subs ords pend jobs clk n fs0].
  cbn [faults stripeEvents] in *. subst fs0.
  mrun. rewrite Hv. mrun. rewrite Hrow. mrun. rewrite Hrow. mrun.
  eexists _, _. split; [reflexivity|]. wsimpl.
  split; [|by repeat split].
  rewrite (find_app_None _ _ _ Hrow). simpl.
  by rewrite bool_decide_eq_true_2.
Qed.

Lemma handleWebhook_survives_queue_failure_witness :
  ∃ row w',
    WebhooksService.handleWebhook demo_env [] "v1=good"
      (set_faults [None; None; Some "connect ECONNREFUSED"] (shop [] []))
    = (Ok row, w')
    ∧ stripeEvents w' = [row]
    ∧ queue w' = [].
Proof.
  destruct (handleWebhook_survives_queue_failure demo_env [] "v1=good"
              evt_succeeded
              (set_faults [None; None; Some "connect ECONNREFUSED"]
                          (shop [] []))
              "connect ECONNREFUSED" [])
    as (row & w' & Hrun & _ & _ & _ & Hq & _).
  - reflexivity.
  - intros w. reflexivity.
  - reflexivity.
  - exists row, w'. split; [exact Hrun|]. split; [|exact Hq].
    vm_compute in Hrun. by injection Hrun as <- <-.
Defined.

Lemma rows_of_event_fresh (key : string) (l : list StripeEvent.t) :
  find (StripeEvent_matches (StripeEvent_stripeEventId key)) l = None →
  filter (λ e, StripeEvent.stripeEventId e = key) l = [].
Proof.
  induction l as [|y l IH]; simpl; [done|].
  destruct (bool_decide (StripeEvent.stripeEventId y = key)) eqn:Hy;
    [discriminate|].
  apply bool_decide_eq_false in Hy. intros H.
  rewrite filter_cons_False by done. by apply IH.
Qed.

(** Idempotent ingestion: the same verified event delivered twice, while the
    stores answer, is stored once.  The second call returns the row of the
    first and changes nothing, and the table holds exactly one row under the
    provider event id. *)
Theorem handleWebhook_twice (env : Env) (payload : Buffer)
    (signature : string) (event : Stripe.Event) (w : World) :
  healthy w →
  verified env payload signature event →
  stored_event (Stripe.id event) w = None →
  ∃ row w1,
    WebhooksService.handleWebhook env payload signature w = (Ok row, w1)
    ∧ WebhooksService.handleWebhook env payload signature w1 = (Ok row, w1)
    ∧ rows_of_event (Stripe.id event) w1 = [row]
    ∧ is_Some (job_of (Stripe.id event) w1).
Proof.
  intros Hw Hv Hrow.
  destruct (handleWebhook_new_event_run env payload signature event w Hw Hv
              Hrow) as (w1 & Hrun & Hw1 & Hevs & Hstored & _ & _ & _ & Hq).
  eexists _, w1. split; [exact Hrun|].
  assert (Hjob : is_Some (job_of (Stripe.id event) w1)).
  { unfold job_of in *.
    destruct (find _ (queue w)) as [j|] eqn:Hj; rewrite Hq.
    - by rewrite Hj.
    - rewrite (find_app_None _ _ _ Hj). simpl.
      unfold webhookQueue.has_id. simpl. by rewrite bool_decide_eq_true_2. }
  split; [|split; [|exact Hjob]].
  - unfold stored_event, job_of in *. destruct Hjob as [j Hj].
    clear Hrun Hq Hevs. open_world w1 Hw1. wsimpl.
    mrun. rewrite Hv. mrun. rewrite Hstored. mrun. rewrite Hj.
    by rewrite bool_decide_eq_true_2.
  - unfold rows_of_event, stored_event in *. rewrite Hevs, filter_app.
    rewrite (rows_of_event_fresh _ _ Hrow). simpl.
    by rewrite filter_cons_True, filter_nil.
Qed.

Lemma handleWebhook_twice_witness :
  ∃ row w1,
    (WebhooksService.handleWebhook demo_env [] "v1=good";;
     WebhooksService.handleWebhook demo_env [] "v1=good") (shop [] [])
    = (Ok row, w1)
    ∧ stripeEvents w1 = [row]
    ∧ length (queue w1) = 1%nat.
Proof.
  destruct (handleWebhook_twice demo_env [] "v1=good" evt_succeeded
              (shop [] [])) as (row & w1 & Hrun1 & Hrun2 & _).
  - reflexivity.
  - intros w. reflexivity.
  - reflexivity.
  - exists row, w1. rewrite (bind_Ok _ _ _ _ _ Hrun1).
    split; [exact Hrun2|].
    vm_compute in Hrun1. injection Hrun1 as <- <-. split; reflexivity.
Defined.

(** [POST /webhooks/stripe] answers with the provider id of the event it
    verified, be the event new or already known, whenever the signature
    verifies and the stores answer. *)
Theorem handleStripeWebhook_answers_event_id (env : Env) (rawBody : Buffer)
    (signature : string) (event : Stripe.Event) (w : World) :
  healthy w →
  verified env rawBody signature event →
  ∃ w',
    WebhooksController.handleStripeWebhook env (Some rawBody) signature w
    = (Ok (true, Stripe.id event), w').
Proof.
  intros Hw Hv. unfold WebhooksController.handleStripeWebhook.
  destruct (stored_event (Stripe.id event) w) as [existing|] eqn:Hrow.
  - assert (Hkey : StripeEvent.stripeEventId existing = Stripe.id event).
    { unfold stored_event in Hrow.
      apply find_Some_elem_of in Hrow as [_ Hrow].
      by apply bool_decide_eq_true in Hrow. }
    assert (∃ w', WebhooksService.handleWebhook env rawBody signature w
                  = (Ok existing, w')) as [w' Hrun].
    { unfold stored_event in Hrow. open_world w Hw. wsimpl.
      mrun. rewrite Hv. mrun. rewrite Hrow. mrun.
      destruct (StripeEvent.processed existing); mrun; [by eexists|].
      destruct (find _ jobs) as [j|] eqn:Hj.
      - rewrite bool_decide_eq_true_2 by done. by eexists.
      - rewrite bool_decide_eq_false_2 by (intros H; by apply H). mrun.
        rewrite Hj. by eexists. }
    exists w'. rewrite (bind_Ok _ _ _ _ _ Hrun). by rewrite <- Hkey.
  - destruct (handleWebhook_new_event_run env rawBody signature event w Hw Hv
                Hrow) as (w' & Hrun & _).
    exists w'. by rewrite (bind_Ok _ _ _ _ _ Hrun).
Qed.

Lemma handleStripeWebhook_answers_event_id_witness :
  ∃ w',
    WebhooksController.handleStripeWebhook demo_env (Some []) "v1=good"
      (shop [row_of "c0" evt_succeeded true 0] [])
    = (Ok (true, "evt_1"), w').
Proof.
  apply (handleStripeWebhook_answers_event_id demo_env [] "v1=good"
           evt_succeeded).
  - reflexivity.
  - intros w. reflexivity.
Defined.

(** ** The handlers while the store answers *)

Lemma find_is_Some {A : Type} (p : A → bool) (l : list A) (x : A) :
  x ∈ l → p x = true → is_Some (find p l).
Proof.
  induction l as [|y l IH]; simpl; intros Hx Hp.
  - by apply elem_of_nil in Hx.
  - destruct (p y) eqn:Hy; [by eexists|].
    apply elem_of_cons in Hx as [-> | Hx]; [congruence | by apply IH].
Qed.


Lemma set_orders_id (w : World) : set_orders (orders w) w = w.
Proof. by destruct w. Qed.

Lemma set_subscriptions_id (w : World) :
  set_subscriptions (subscriptions w) w = w.
Proof. by destruct w. Qed.

Lemma set_pending_id (w : World) : set_pending (pending w) w = w.
Proof. by destruct w. Qed.

Lemma resolveMerchant_total (customerId : option string) (w : World) :
  healthy w →
  ∃ merchant,
    WebhookProcessorService.resolveMerchant customerId w = (Ok merchant, w).
Proof.
  intros Hw. destruct customerId as [c|]; [|by eexists].
  unfold WebhookProcessorService.resolveMerchant.
  destruct (truthy_string c) eqn:Hc; [|by eexists].
  exists (merchant_of_customer c w).
  pose proof (resolveMerchant_healthy c w Hw Hc) as H.
  unfold WebhookProcessorService.resolveMerchant in H. by rewrite Hc in H.
Qed.

(** An order against an unknown invoice: nothing to update, no error. *)
Lemma markOrderAsPaid_unknown (inv : string) (paidAt : option Date)
    (w : World) :
  healthy w →
  order_of_invoice inv w = None →
  OrdersService.markOrderAsPaid inv paidAt w = (Ok None, w).
Proof.
  intros Hw Ho. unfold order_of_invoice in Ho. open_world w Hw. wsimpl.
  mrun. by rewrite Ho.
Qed.

Lemma markOrderAsPaymentFailed_unknown (inv : string)
    (failureReason : option string) (w : World) :
  healthy w →
  order_of_invoice inv w = None →
  OrdersService.markOrderAsPaymentFailed inv failureReason w = (Ok None, w).
Proof.
  intros Hw Ho. unfold order_of_invoice in Ho. open_world w Hw. wsimpl.
  mrun. by rewrite Ho.
Qed.

Lemma markOrderAsPaid_total (inv : string) (paidAt : option Date)
    (w : World) :
  healthy w →
  ∃ r ords',
    OrdersService.markOrderAsPaid inv paidAt w = (Ok r, set_orders ords' w).
Proof.
  intros Hw. destruct (order_of_invoice inv w) as [o|] eqn:Ho.
  - destruct (markOrderAsPaid_linked inv paidAt o w Hw Ho)
      as (w' & o' & Hrun & _ & _ & _ & _ & _ & Hframe).
    exists (Some o'), (orders w'). by rewrite <- Hframe.
  - exists None, (orders w).
    by rewrite set_orders_id, (markOrderAsPaid_unknown _ _ _ Hw Ho).
Qed.

Lemma markOrderAsPaymentFailed_total (inv : string)
    (failureReason : option string) (w : World) :
  healthy w →
  ∃ r ords',
    OrdersService.markOrderAsPaymentFailed inv failureReason w
    = (Ok r, set_orders ords' w).
Proof.
  intros Hw. destruct (order_of_invoice inv w) as [o|] eqn:Ho.
  - destruct (markOrderAsPaymentFailed_linked inv failureReason o w Hw Ho)
      as (w' & o' & Hrun & _ & _ & _ & _ & _ & Hframe).
    exists (Some o'), (orders w'). by rewrite <- Hframe.
  - exists None, (orders w).
    by rewrite set_orders_id, (markOrderAsPaymentFailed_unknown _ _ _ Hw Ho).
Qed.

Lemma findAndLinkOrderToInvoice_total (merchantId inv : string) (amount : Z)
    (w : World) :
  healthy w →
  ∃ r ords',
    OrdersService.findAndLinkOrderToInvoice merchantId inv amount w
    = (Ok r, set_orders ords' w).
Proof.
  intros Hw. open_world w Hw. mrun.
  destruct (head _) as [o|] eqn:Hhead; mrun; [|by exists None, ords].
  apply head_merge_sort_least in Hhead as [Ho _]; [|apply _..].
  apply list_elem_of_filter in Ho as [_ Ho].
  destruct (find_is_Some (Order_matches (Order_id (Order.id o))) ords o Ho)
    as [x Hx].
  { simpl. by rewrite bool_decide_eq_true_2. }
  rewrite Hx.
  destruct (update_first_Some _
              (Order_set (OrderUpdateInput.mk None (Some inv) None None None))
              _ _ Hx) as [ords' ->].
  mrun. by eexists _, _.
Qed.

(** While the store answers, no handler fails, whatever the event: what is
    not found is skipped.  A handler rewrites subscriptions and orders and
    nothing else. *)
Lemma processEventByType_healthy (event : Stripe.Event) (w : World) :
  healthy w →
  ∃ subs' ords',
    WebhookProcessorService.processEventByType event w
    = (Ok tt, set_orders ords' (set_subscriptions subs' w)).
Proof.
  intros Hw.
  assert (Hnone : (Ok tt, w) = (Ok tt, set_orders (orders w)
                                         (set_subscriptions (subscriptions w) w)))
    by (by destruct w).
  unfold WebhookProcessorService.processEventByType.
  destruct (String.eqb _ _).
  { (* payment succeeded *)
    unfold WebhookProcessorService.handleInvoicePaymentSucceeded. cbv zeta.
    destruct (resolveMerchant_total
                (WebhookProcessorService.id_of
                   (Stripe.customer (Stripe.object event))) w Hw)
      as [[merchant|] Hm]; rewrite (bind_Ok _ _ _ _ _ Hm);
      [|by eexists _, _].
    match goal with
    | |- context [if ?b then MerchantsService.updateSubscriptionStatus ?k ?s ?d
                             ≫= _ else _] =>
        destruct (subscription_step b k s d w Hw) as [subs' Hsub]
    end.
    rewrite (bind_Ok _ _ _ _ _ Hsub).
    set (w1 := set_subscriptions subs' w).
    assert (Hw1 : healthy w1) by done.
    rewrite (bind_Ok _ _ _ _ _ (getOrderByInvoiceId_healthy _ w1 Hw1)).
    destruct (order_of_invoice _ w1).
    - destruct (markOrderAsPaid_total (Stripe.object_id (Stripe.object event))
                  (Some (clock w1)) w1 Hw1) as (r & ords' & Hpaid).
      exists subs', ords'.
      change ((new_Date ≫= ?f) w1) with (f (clock w1) w1). cbv beta.
      by rewrite (bind_Ok _ _ _ _ _ Hpaid).
    - destruct (findAndLinkOrderToInvoice_total (Merchant.id merchant)
                  (Stripe.object_id (Stripe.object event))
                  (number_or (Stripe.amount_paid (Stripe.object event)) 0)
                  w1 Hw1) as ([linked|] & ords1 & Hlink);
        rewrite (bind_Ok _ _ _ _ _ Hlink); [|by exists subs', ords1].
      set (w2 := set_orders ords1 w1).
      destruct (markOrderAsPaid_total (Stripe.object_id (Stripe.object event))
                  (Some (clock w2)) w2 ltac:(done)) as (r & ords' & Hpaid).
      exists subs', ords'.
      change ((new_Date ≫= ?f) w2) with (f (clock w2) w2). cbv beta.
      by rewrite (bind_Ok _ _ _ _ _ Hpaid). }
  destruct (String.eqb _ _).
  { (* payment failed *)
    unfold WebhookProcessorService.handleInvoicePaymentFailed. cbv zeta.
    destruct (resolveMerchant_total
                (WebhookProcessorService.id_of
                   (Stripe.customer (Stripe.object event))) w Hw)
      as [[merchant|] Hm]; rewrite (bind_Ok _ _ _ _ _ Hm);
      [|by eexists _, _].
    match goal with
    | |- context [if ?b then MerchantsService.updateSubscriptionStatus ?k ?s ?d
                             ≫= _ else _] =>
        destruct (subscription_step b k s d w Hw) as [subs' Hsub]
    end.
    rewrite (bind_Ok _ _ _ _ _ Hsub).
    set (w1 := set_subscriptions subs' w).
    assert (Hw1 : healthy w1) by done.
    rewrite (bind_Ok _ _ _ _ _ (getOrderByInvoiceId_healthy _ w1 Hw1)).
    destruct (order_of_invoice _ w1); [|by exists subs', (orders w)].
    destruct (markOrderAsPaymentFailed_total
                (Stripe.object_id (Stripe.object event))
                (Some (WebhookProcessorService.extractFailureReason
                         (Stripe.object event))) w1 Hw1)
      as (r & ords' & Hfail).
    exists subs', ords'. by rewrite (bind_Ok _ _ _ _ _ Hfail). }
  destruct (String.eqb _ _).
  { unfold WebhookProcessorService.handleSubscriptionUpdated. cbv zeta.
    match goal with
    | |- context [MerchantsService.updateSubscriptionStatus ?k ?s ?d] =>
        destruct (updateSubscriptionStatus_healthy k s d w Hw)
          as (r & subs' & Hupd)
    end.
    exists subs', (orders w). rewrite (bind_Ok _ _ _ _ _ Hupd).
    by destruct w. }
  destruct (String.eqb _ _); [|by eexists _, _].
  unfold WebhookProcessorService.handleSubscriptionDeleted. cbv zeta.
  change ((new_Date ≫= ?f) w) with (f (clock w) w). cbv beta.
  match goal with
  | |- context [MerchantsService.updateSubscriptionStatus ?k ?s ?d] =>
      destruct (updateSubscriptionStatus_healthy k s d w Hw)
        as (r & subs' & Hupd)
  end.
  exists subs', (orders w). rewrite (bind_Ok _ _ _ _ _ Hupd). by destruct w.
Qed.

(** ** Deliveries *)

(** Reading by a second key of the updated row. *)
Lemma find_update_first_same_row {A : Type} (p q : A → bool) (f : A → A)
    (l l' : list A) (x : A) :
  find p l = Some x → find q l = Some x →
  (∀ y, q (f y) = q y) →
  update_first p f l = Some l' → find q l' = Some (f x).
Proof.
  intros Hp Hq Hqf. revert l' Hp Hq.
  induction l as [|y l IH]; simpl; [discriminate|].
  intros l'. destruct (p y) eqn:Hpy.
  - intros [= ->]. destruct (q x) eqn:Hqx.
    + intros _ [= <-]. simpl. by rewrite Hqf, Hqx.
    + intros Hq. apply find_Some_elem_of in Hq as [_ Hq]. congruence.
  - intros Hp. destruct (q y) eqn:Hqy.
    + intros [= ->]. apply find_Some_elem_of in Hp as [_ Hp]. congruence.
    + intros Hq. destruct (update_first p f l) as [l0|] eqn:Hupd;
        [|discriminate].
      intros [= <-]. simpl. rewrite Hqy. by eapply IH.
Qed.

Lemma StripeEvent_set_key (d : StripeEventUpdateInput.t) (k : string)
    (e : StripeEvent.t) :
  StripeEvent_matches (StripeEvent_stripeEventId k) (StripeEvent_set d e)
  = StripeEvent_matches (StripeEvent_stripeEventId k) e.
Proof. reflexivity. Qed.

(** The checkpoint: a processed row ends the delivery at once. *)
Lemma processJob_checkpoint (env : Env) (job : Job.t)
    (existing : StripeEvent.t) (w : World) :
  healthy w →
  stored_event (WebhookJobData.stripeEventId (Job.data job)) w
  = Some existing →
  StripeEvent.processed existing = true →
  WebhookProcessorService.processJob env job w = (Ok tt, w).
Proof.
  intros Hw Hrow Hp. unfold stored_event in Hrow.
  open_world w Hw. cbn [stripeEvents] in Hrow.
  mrun. rewrite Hrow. mrun. rewrite Hp. reflexivity.
Qed.

(** The run of a delivery of a well-formed job while the store answers. *)
Lemma processJob_healthy_run (env : Env) (job : Job.t) (event : Stripe.Event)
    (existing : StripeEvent.t) (w : World) :
  let eventId := WebhookJobData.eventId (Job.data job) in
  let mark :=
    StripeEventUpdateInput.mk (Some true) (Some (clock w)) None
                              (Some (Job.attemptsMade job)) in
  healthy w →
  JSON_parse env (WebhookJobData.payload (Job.data job)) = inr event →
  stored_event (WebhookJobData.stripeEventId (Job.data job)) w
  = Some existing →
  event_row eventId w = Some existing →
  StripeEvent.processed existing = false →
  ∃ subs' ords' evs',
    WebhookProcessorService.processJob env job w
    = (Ok tt,
       set_stripeEvents evs' (set_orders ords' (set_subscriptions subs' w)))
    ∧ update_first (StripeEvent_matches (StripeEvent_id eventId))
                   (StripeEvent_set mark) (stripeEvents w) = Some evs'
    ∧ find (StripeEvent_matches (StripeEvent_id eventId)) evs'
      = Some (StripeEvent_set mark existing)
    ∧ find (StripeEvent_matches
              (StripeEvent_stripeEventId
                 (WebhookJobData.stripeEventId (Job.data job)))) evs'
      = Some (StripeEvent_set mark existing).
Proof.
  intros eventId mark Hw Hparse Hkey Hid Hp.
  destruct (processEventByType_healthy event (set_pending [] w)
              (healthy_set_pending [] w Hw)) as (subs' & ords' & Hrun).
  destruct (processJob_success env job event existing w _ Hw Hparse
              ltac:(by rewrite Hkey) Hid Hrun) as (evs' & Hupd & Hrow & Hjob);
    [done..|].
  exists subs', ords', evs'. split; [|split; [exact Hupd|split]].
  - rewrite Hjob. by destruct w.
  - exact Hrow.
  - unfold stored_event, event_row in *.
    exact (find_update_first_same_row _ _ _ _ _ _ Hid Hkey
             (StripeEvent_set_key _ _) Hupd).
Qed.

(** A delivery of a job whose keys select a stored, unprocessed row and
    whose payload parses succeeds while the store answers, whatever the
    event: the row ends processed, stamped with the time of the delivery and
    the attempt counter of the job, its error field as it was.  A redelivery
    of the same job data, with any attempt counter, then changes nothing. *)
Theorem processJob_then_redelivery (env : Env) (job again : Job.t)
    (event : Stripe.Event) (existing : StripeEvent.t) (w : World) :
  let eventId := WebhookJobData.eventId (Job.data job) in
  healthy w →
  JSON_parse env (WebhookJobData.payload (Job.data job)) = inr event →
  stored_event (WebhookJobData.stripeEventId (Job.data job)) w
  = Some existing →
  event_row eventId w = Some existing →
  StripeEvent.processed existing = false →
  Job.data again = Job.data job →
  ∃ w1 row,
    WebhookProcessorService.processJob env job w = (Ok tt, w1)
    ∧ event_row eventId w1 = Some row
    ∧ StripeEvent.processed row = true
    ∧ StripeEvent.processedAt row = Some (clock w)
    ∧ StripeEvent.retryCount row = Job.attemptsMade job
    ∧ StripeEvent.processingError row = StripeEvent.processingError existing
    ∧ WebhookProcessorService.processJob env again w1 = (Ok tt, w1).
Proof.
  intros eventId Hw Hparse Hkey Hid Hp Hdata.
  destruct (processJob_healthy_run env job event existing w Hw Hparse Hkey Hid
              Hp) as (subs' & ords' & evs' & Hrun & _ & Hrow & Hstored).
  eexists _, _. split; [exact Hrun|]. split; [exact Hrow|].
  do 4 (split; [reflexivity|]).
  eapply processJob_checkpoint;
    [done | rewrite Hdata; exact Hstored | reflexivity].
Qed.

Lemma processJob_then_redelivery_witness :
  ∃ w1,
    (WebhookProcessorService.processJob demo_env
       (delivery (row_of "c0" evt_failed false 0) 0);;
     WebhookProcessorService.processJob demo_env
       (delivery (row_of "c0" evt_failed false 0) 1))
      (shop [row_of "c0" evt_failed false 0] [])
    = (Ok tt, w1)
    ∧ StripeEvent.processed <$> stripeEvents w1 = [true]
    ∧ StripeEvent.retryCount <$> stripeEvents w1 = [0].
Proof.
  destruct (processJob_then_redelivery demo_env
              (delivery (row_of "c0" evt_failed false 0) 0)
              (delivery (row_of "c0" evt_failed false 0) 1)
              evt_failed (row_of "c0" evt_failed false 0)
              (shop [row_of "c0" evt_failed false 0] []))
    as (w1 & row & Hrun1 & _ & _ & _ & _ & _ & Hrun2); try reflexivity.
  exists w1. rewrite (bind_Ok _ _ _ _ _ Hrun1). split; [exact Hrun2|].
  vm_compute in Hrun1. injection Hrun1 as <-. split; reflexivity.
Defined.





(** ** The four handlers *)

(** The reason stored with a failed payment is never the empty string. *)
Theorem extractFailureReason_non_empty (invoice : Stripe.Object) :
  truthy_string (WebhookProcessorService.extractFailureReason invoice) = true.
Proof.
  unfold WebhookProcessorService.extractFailureReason, string_or.
  destruct (Stripe.last_finalization_error invoice) as [[[m|]]|]; simpl.
  - by destruct (truthy_string m) eqn:Hm.
  - done.
  - destruct (Stripe.charge invoice) as [[r|[[m|]]]|]; simpl; try done.
    by destruct (truthy_string m) eqn:Hm.
Qed.

(** An invoice event whose customer resolves to no merchant is skipped by
    both invoice handlers: no subscription and no order is touched, and the
    handler returns normally. *)
Theorem invoice_handlers_skip_unresolved (event : Stripe.Event) (w : World) :
  healthy w →
  unresolved (Stripe.object event) w →
  WebhookProcessorService.handleInvoicePaymentSucceeded event w = (Ok tt, w)
  ∧ WebhookProcessorService.handleInvoicePaymentFailed event w = (Ok tt, w).
Proof.
  intros Hw Hun.
  assert (Hm : WebhookProcessorService.resolveMerchant
                 (WebhookProcessorService.id_of
                    (Stripe.customer (Stripe.object event))) w
               = (Ok None, w)).
  { unfold unresolved in Hun.
    destruct (WebhookProcessorService.id_of _) as [c|]; [|reflexivity].
    unfold WebhookProcessorService.resolveMerchant.
    destruct (truthy_string c) eqn:Hc; [|reflexivity].
    pose proof (resolveMerchant_healthy c w Hw Hc) as H.
    unfold WebhookProcessorService.resolveMerchant in H.
    rewrite Hc in H. rewrite H. by rewrite (Hun c eq_refl Hc). }
  unfold WebhookProcessorService.handleInvoicePaymentSucceeded,
    WebhookProcessorService.handleInvoicePaymentFailed. cbv zeta.
  by rewrite !(bind_Ok _ _ _ _ _ Hm).
Qed.

Lemma invoice_handlers_skip_unresolved_witness :
  WebhookProcessorService.handleInvoicePaymentSucceeded evt_succeeded
    (mkWorld [] [] [subscription_1] [order_pending "o1" 2999 10] [] [] 0 0 [])
  = (Ok tt,
     mkWorld [] [] [subscription_1] [order_pending "o1" 2999 10] [] [] 0 0 []).
Proof.
  apply invoice_handlers_skip_unresolved; [reflexivity|].
  intros c _ _. reflexivity.
Defined.

Lemma Subscription_set_key (status : string) (d : SubscriptionData.t)
    (k : string) (s : Subscription.t) :
  prisma.subscription.by_stripeSubscriptionId k (Subscription_set status d s)
  = prisma.subscription.by_stripeSubscriptionId k s.
Proof. reflexivity. Qed.

(** [updateSubscriptionStatus] on a known subscription rewrites that row,
    and on an unknown one does nothing. *)
Lemma updateSubscriptionStatus_known (k status : string)
    (d : SubscriptionData.t) (s : Subscription.t) (w : World) :
  healthy w →
  subscription_of k w = Some s →
  ∃ subs',
    MerchantsService.updateSubscriptionStatus k status d w
    = (Ok (Some (Subscription_set status d s)), set_subscriptions subs' w)
    ∧ update_first (prisma.subscription.by_stripeSubscriptionId k)
                   (Subscription_set status d) (subscriptions w) = Some subs'.
Proof.
  intros Hw Hs. unfold subscription_of in Hs. open_world w Hw. wsimpl.
  destruct (update_first_Some _ (Subscription_set status d) _ _ Hs)
    as [subs' Hupd].
  exists subs'. mrun. rewrite Hs. mrun. rewrite Hs, Hupd. by mrun.
Qed.

Lemma updateSubscriptionStatus_unknown (k status : string)
    (d : SubscriptionData.t) (w : World) :
  healthy w →
  subscription_of k w = None →
  MerchantsService.updateSubscriptionStatus k status d w = (Ok None, w).
Proof.
  intros Hw Hs. unfold subscription_of in Hs. open_world w Hw. wsimpl.
  mrun. by rewrite Hs.
Qed.

Lemma subscription_of_after_update (k k' status : string)
    (d : SubscriptionData.t) (subs subs' : list Subscription.t) :
  update_first (prisma.subscription.by_stripeSubscriptionId k)
               (Subscription_set status d) subs = Some subs' →
  find (prisma.subscription.by_stripeSubscriptionId k') subs'
  = (if bool_decide (k' = k) then Subscription_set status d else id)
      <$> find (prisma.subscription.by_stripeSubscriptionId k') subs.
Proof.
  intros Hupd. case_bool_decide as Hk.
  - subst k'.
    by rewrite (find_update_first _ _ _ _ (Subscription_set_key _ _ _) Hupd).
  - assert (Hother : ∀ x,
              prisma.subscription.by_stripeSubscriptionId k x = true →
              prisma.subscription.by_stripeSubscriptionId k' x = false).
    { intros x Hx. unfold prisma.subscription.by_stripeSubscriptionId in *.
      apply bool_decide_eq_true in Hx. apply bool_decide_eq_false.
      congruence. }
    rewrite (find_update_first_other _ _ _ _ _ (Subscription_set_key _ _ _)
               Hother Hupd).
    by destruct (find _ subs).
Qed.

(** [customer.subscription.deleted]: the subscription the event names ends
    [canceled] and stamped with the time of processing, its other columns
    and every other subscription as they were; an event that names no known
    subscription changes nothing.  Either way the handler returns. *)
Theorem handleSubscriptionDeleted_cancels (event : Stripe.Event) (w : World) :
  healthy w →
  let k := Stripe.object_id (Stripe.object event) in
  ∃ w',
    WebhookProcessorService.handleSubscriptionDeleted event w = (Ok tt, w')
    ∧ w' = set_subscriptions (subscriptions w') w
    ∧ (∀ k', k' ≠ k → subscription_of k' w' = subscription_of k' w)
    ∧ match subscription_of k w with
      | None => w' = w
      | Some s =>
          subscription_of k w' =
          Some (Subscription.mk
                  (Subscription.id s) (Subscription.merchantId s)
                  (Subscription.stripeSubscriptionId s) "canceled"
                  (Subscription.currentPeriodStart s)
                  (Subscription.currentPeriodEnd s)
                  (Some (clock w)) (Subscription.cancelAtPeriodEnd s))
      end.
Proof.
  intros Hw k.
  unfold WebhookProcessorService.handleSubscriptionDeleted. cbv zeta.
  change ((new_Date ≫= ?f) w) with (f (clock w) w). cbv beta. fold k.
  destruct (subscription_of k w) as [s|] eqn:Hs.
  - destruct (updateSubscriptionStatus_known k "canceled"
                (SubscriptionData.mk None None (Some (clock w)) None) s w Hw Hs)
      as (subs' & Hrun & Hupd).
    rewrite (bind_Ok _ _ _ _ _ Hrun). eexists. split; [reflexivity|].
    unfold subscription_of in *. wsimpl. split; [reflexivity|]. split.
    + intros k' Hk'. rewrite (subscription_of_after_update _ k' _ _ _ _ Hupd).
      rewrite bool_decide_eq_false_2 by done. apply option_fmap_id.
    + rewrite (subscription_of_after_update _ k _ _ _ _ Hupd).
      rewrite bool_decide_eq_true_2 by done. by rewrite Hs.
  - rewrite (bind_Ok _ _ _ _ _
               (updateSubscriptionStatus_unknown k _ _ w Hw Hs)).
    exists w. split; [reflexivity|]. split; [by destruct w|]. done.
Qed.

Lemma handleSubscriptionDeleted_cancels_witness :
  ∃ w',
    WebhookProcessorService.handleSubscriptionDeleted
      (Stripe.mkEvent "evt_4" "customer.subscription.deleted"
         (Stripe.mkObject "sub_1" (Some (Ref "cus_1")) None None None None
            None None "canceled" None None None None))
      (shop [] [])
    = (Ok tt, w')
    ∧ Subscription.status <$> subscriptions w' = ["canceled"]
    ∧ Subscription.canceledAt <$> subscriptions w' = [Some 2000].
Proof.
  destruct (handleSubscriptionDeleted_cancels
              (Stripe.mkEvent "evt_4" "customer.subscription.deleted"
                 (Stripe.mkObject "sub_1" (Some (Ref "cus_1")) None None None
                    None None None "canceled" None None None None))
              (shop [] [])) as (w' & Hrun & _); [reflexivity|].
  exists w'. split; [exact Hrun|].
  vm_compute in Hrun. injection Hrun as <-. split; reflexivity.
Defined.

Lemma update_first_idem {A : Type} (p : A → bool) (f : A → A) (l l' : list A) :
  (∀ x, p (f x) = p x) → (∀ x, f (f x) = f x) →
  update_first p f l = Some l' → update_first p f l' = Some l'.
Proof.
  intros Hpf Hff. revert l'. induction l as [|y l IH]; simpl; [discriminate|].
  intros l'. destruct (p y) eqn:Hy.
  - intros [= <-]. simpl. by rewrite Hpf, Hy, Hff.
  - destruct (update_first p f l) as [l0|] eqn:Hupd; [|discriminate].
    intros [= <-]. simpl. rewrite Hy. by rewrite (IH l0).
Qed.

Lemma Subscription_set_idem (status : string) (d : SubscriptionData.t)
    (s : Subscription.t) :
  Subscription_set status d (Subscription_set status d s)
  = Subscription_set status d s.
Proof.
  destruct d as [[?|] [?|] [?|] [?|]]; reflexivity.
Qed.

(** [customer.subscription.updated]: the subscription the event names takes
    the status of the event whatever its own was; each period bound, the
    cancellation time and the cancel-at-period-end flag are overwritten when
    the event carries them (a time of [0] counts as absent) and kept
    otherwise; every other subscription is as it was, and an event that names
    no known subscription changes nothing.  Handling the same event again
    changes nothing more. *)
Theorem handleSubscriptionUpdated_syncs (event : Stripe.Event) (w : World) :
  healthy w →
  let sub := Stripe.object event in
  let k := Stripe.object_id sub in
  ∃ w',
    WebhookProcessorService.handleSubscriptionUpdated event w = (Ok tt, w')
    ∧ WebhookProcessorService.handleSubscriptionUpdated event w' = (Ok tt, w')
    ∧ w' = set_subscriptions (subscriptions w') w
    ∧ (∀ k', k' ≠ k → subscription_of k' w' = subscription_of k' w)
    ∧ match subscription_of k w with
      | None => w' = w
      | Some s =>
          subscription_of k w' =
          Some (Subscription.mk
                  (Subscription.id s) (Subscription.merchantId s)
                  (Subscription.stripeSubscriptionId s) (Stripe.status sub)
                  (match date_of_seconds (Stripe.current_period_start sub) with
                   | Some t => Some t
                   | None => Subscription.currentPeriodStart s
                   end)
                  (match date_of_seconds (Stripe.current_period_end sub) with
                   | Some t => Some t
                   | None => Subscription.currentPeriodEnd s
                   end)
                  (match date_of_seconds (Stripe.canceled_at sub) with
                   | Some t => Some t
                   | None => Subscription.canceledAt s
                   end)
                  (default (Subscription.cancelAtPeriodEnd s)
                           (Stripe.cancel_at_period_end sub)))
      end.
Proof.
  intros Hw sub k.
  unfold WebhookProcessorService.handleSubscriptionUpdated. cbv zeta.
  fold sub. fold k.
  set (d := SubscriptionData.mk _ _ _ _).
  destruct (subscription_of k w) as [s|] eqn:Hs.
  - destruct (updateSubscriptionStatus_known k (Stripe.status sub) d s w Hw Hs)
      as (subs' & Hrun & Hupd).
    rewrite (bind_Ok _ _ _ _ _ Hrun).
    assert (Hs' : subscription_of k (set_subscriptions subs' w)
                  = Some (Subscription_set (Stripe.status sub) d s)).
    { unfold subscription_of in *. wsimpl.
      rewrite (subscription_of_after_update _ k _ _ _ _ Hupd).
      rewrite bool_decide_eq_true_2 by done. by rewrite Hs. }
    eexists. split; [reflexivity|]. split.
    { destruct (updateSubscriptionStatus_known k (Stripe.status sub) d _
                  (set_subscriptions subs' w) ltac:(done) Hs')
        as (subs'' & Hrun' & Hupd').
      rewrite (bind_Ok _ _ _ _ _ Hrun'). wsimpl.
      rewrite (update_first_idem _ _ _ _ (Subscription_set_key _ _ _)
                 (Subscription_set_idem _ _) Hupd) in Hupd'.
      by injection Hupd' as <-. }
    split; [reflexivity|]. split; [|exact Hs'].
    intros k' Hk'. unfold subscription_of. wsimpl.
    rewrite (subscription_of_after_update _ k' _ _ _ _ Hupd).
    rewrite bool_decide_eq_false_2 by done. apply option_fmap_id.
  - pose proof (updateSubscriptionStatus_unknown k (Stripe.status sub) d w Hw
                  Hs) as Hrun.
    rewrite (bind_Ok _ _ _ _ _ Hrun).
    exists w. split; [reflexivity|]. rewrite (bind_Ok _ _ _ _ _ Hrun).
    split; [reflexivity|]. split; [by destruct w|]. done.
Qed.

Lemma handleSubscriptionUpdated_syncs_witness :
  ∃ w',
    WebhookProcessorService.handleSubscriptionUpdated
      (Stripe.mkEvent "evt_5" "customer.subscription.updated"
         (Stripe.mkObject "sub_1" (Some (Ref "cus_1")) None None None None
            None None "unpaid" (Some 1700000000) None (Some 0) (Some true)))
      (shop [] [])
    = (Ok tt, w')
    ∧ subscriptions w' =
      [Subscription.mk "s1" "m1" "sub_1" "unpaid" (Some 1700000000000) None
                       None true].
Proof.
  destruct (handleSubscriptionUpdated_syncs
              (Stripe.mkEvent "evt_5" "customer.subscription.updated"
                 (Stripe.mkObject "sub_1" (Some (Ref "cus_1")) None None None
                    None None None "unpaid" (Some 1700000000) None (Some 0)
                    (Some true)))
              (shop [] [])) as (w' & Hrun & _); [reflexivity|].
  exists w'. split; [exact Hrun|].
  vm_compute in Hrun. by injection Hrun as <-.
Defined.

(** ** Orders *)

(** Running the order services the webhook pipeline does not call. *)
Ltac orun :=
  unfold OrdersService.getOrder, OrdersService.getMerchantOrders,
    OrdersService.linkOrderToInvoice,
    OrdersService.findPendingOrdersForMerchant,
    prisma.order.findMany, prisma.order.update_stripeInvoiceId;
  mrun.

Lemma Order_set_id_key (d : OrderUpdateInput.t) (k : string) (o : Order.t) :
  Order_matches (Order_id k) (Order_set d o) = Order_matches (Order_id k) o.
Proof. reflexivity. Qed.

(** The first row with a key, after an update of the first row with another
    key, when every row that carries the first key carries the second. *)
Lemma find_update_first_covered {A : Type} (p q : A → bool) (f : A → A)
    (l l' : list A) (x : A) :
  find p l = Some x →
  update_first p f l = Some l' →
  q (f x) = true →
  (∀ y, y ∈ l → q y = true → p y = true) →
  find q l' = Some (f x).
Proof.
  revert l'. induction l as [|y l IH]; simpl; [discriminate|].
  intros l' Hfind Hupd Hq Hcov. destruct (p y) eqn:Hy.
  - simplify_eq. simpl. by rewrite Hq.
  - destruct (update_first p f l) as [l0|] eqn:Hl0; [|discriminate].
    simpl in Hupd. simplify_eq. simpl.
    destruct (q y) eqn:Hqy.
    { rewrite (Hcov y) in Hy; [discriminate|by left|done]. }
    apply IH; [done..|]. intros z Hz. apply Hcov. by right.
Qed.

Lemma find_filter_None {A : Type} (p : A → bool) (l : list A) :
  (∀ y, y ∈ l → p y = false) → find p l = None.
Proof.
  induction l as [|y l IH]; simpl; [done|]. intros H.
  rewrite (H y) by by left. apply IH. intros z Hz. apply H. by right.
Qed.

(** Linking by hand.  An order that exists, carries no invoice yet, and whose
    invoice is not taken by another order, gets the invoice id and nothing
    else of it changes; it is then the order that both its id and the invoice
    id select, every other order is as it was, and the link is final: a second
    request to link the order, to whatever invoice, is refused with a
    [BadRequestException] and changes nothing. *)
Theorem linkOrderToInvoice_links (orderId inv : string) (o : Order.t)
    (w : World) :
  healthy w →
  order_row orderId w = Some o →
  non_empty (Order.stripeInvoiceId o) = false →
  (∀ x, x ∈ orders w → Order.stripeInvoiceId x = Some inv →
        Order.id x = orderId) →
  ∃ w',
    OrdersService.linkOrderToInvoice orderId inv w = (Ok (linked_to inv o), w')
    ∧ w' = set_orders (orders w') w
    ∧ OrdersService.getOrder orderId w' = (Ok (linked_to inv o), w')
    ∧ OrdersService.getOrderByInvoiceId inv w'
      = (Ok (Some (linked_to inv o)), w')
    ∧ (∀ id', id' ≠ orderId → order_row id' w' = order_row id' w)
    ∧ (truthy_string inv = true →
       ∀ inv',
         OrdersService.linkOrderToInvoice orderId inv' w'
         = (Throw (mkException BadRequestException
                               "Order is already linked to an invoice"), w')).
Proof.
  intros Hw Ho Hfree Huniq. unfold order_row in *. unfold non_empty in Hfree.
  open_world w Hw. wsimpl.
  set (data := OrderUpdateInput.mk None (Some inv) None None None).
  destruct (update_first_Some _ (Order_set data) _ _ Ho) as [ords' Hupd].
  assert (Hother :
    find (λ x, Order_matches (Order_stripeInvoiceId inv) x
               && negb (Order_matches (Order_id orderId) x)) ords = None).
  { apply find_filter_None. intros y Hy. simpl.
    destruct (bool_decide (Order.stripeInvoiceId y = Some inv)) eqn:Hinv;
      [|done].
    apply bool_decide_eq_true in Hinv.
    by rewrite (bool_decide_eq_true_2 _ (Huniq y Hy Hinv)). }
  assert (Hid' : find (Order_matches (Order_id orderId)) ords'
                 = Some (linked_to inv o)).
  { rewrite (find_update_first _ _ _ _ (Order_set_id_key data orderId) Hupd).
    by rewrite Ho. }
  assert (Hinv' : find (Order_matches (Order_stripeInvoiceId inv)) ords'
                  = Some (linked_to inv o)).
  { apply (find_update_first_covered _ _ (Order_set data) ords ords' o Ho Hupd).
    - simpl. by rewrite bool_decide_eq_true_2.
    - intros y Hy Hq. simpl in *. apply bool_decide_eq_true in Hq.
      by rewrite (bool_decide_eq_true_2 _ (Huniq y Hy Hq)). }
  exists (mkWorld evs ms subs ords' pend jobs clk n []).
  split.
  { orun. rewrite Ho. rewrite Hfree. orun. rewrite Ho. fold data.
    rewrite Hupd. rewrite Hother. by orun. }
  split; [reflexivity|]. split.
  { orun. by rewrite Hid'. }
  split.
  { orun. by rewrite Hinv'. }
  split.
  { intros id' Hid. wsimpl.
    apply (find_update_first_other (Order_matches (Order_id orderId))
             (Order_matches (Order_id id')) (Order_set data) ords ords');
      [done| |exact Hupd].
    intros x Hx. simpl in *. apply bool_decide_eq_true in Hx.
    apply bool_decide_eq_false_2. congruence. }
  intros Htruthy inv'. orun. rewrite Hid'.
  cbn [linked_to Order.stripeInvoiceId from_option]. by rewrite Htruthy.
Qed.

Lemma linkOrderToInvoice_links_witness :
  ∃ w',
    OrdersService.linkOrderToInvoice "o2" "in_7"
      (shop [] [order_pending "o1" 2999 100; order_pending "o2" 500 200])
    = (Ok (Order.mk "o2" "m1" 500 PENDING (Some "in_7") None None None 200),
       w')
    ∧ orders w' =
      [order_pending "o1" 2999 100;
       Order.mk "o2" "m1" 500 PENDING (Some "in_7") None None None 200].
Proof.
  destruct (linkOrderToInvoice_links "o2" "in_7" (order_pending "o2" 500 200)
              (shop [] [order_pending "o1" 2999 100;
                        order_pending "o2" 500 200]))
    as (w' & Hrun & _); [reflexivity..| |].
  { intros x Hx Hinv.
    apply elem_of_cons in Hx as [-> | Hx]; [discriminate|].
    apply elem_of_cons in Hx as [-> | Hx]; [discriminate|].
    by apply elem_of_nil in Hx. }
  exists w'. split; [exact Hrun|].
  vm_compute in Hrun. by injection Hrun as <-.
Defined.

#[global] Instance Order_by_createdAt_total (s : SortOrder) :
  Total (Order_by_createdAt s).
Proof. intros a b. destruct s; simpl; lia. Qed.

#[global] Instance Order_by_createdAt_trans (s : SortOrder) :
  Transitive (Order_by_createdAt s).
Proof. intros a b c. destruct s; simpl; lia. Qed.

Lemma findMany_healthy (q : OrderWhereInput.t) (s : SortOrder) (w : World) :
  healthy w →
  ∃ l,
    prisma.order.findMany q s w = (Ok l, w)
    ∧ StronglySorted (Order_by_createdAt s) l
    ∧ l ≡ₚ filter (λ o, Order_where q o) (orders w).
Proof.
  intros Hw. open_world w Hw. orun. eexists. split; [reflexivity|]. split.
  - apply Sorted_StronglySorted; [apply _|]. apply Sorted_merge_sort; apply _.
  - apply merge_sort_Permutation.
Qed.

(** The two listings of orders.  The pending orders of a merchant come oldest
    first and are exactly its orders that are [PENDING] and carry no invoice;
    the orders of a merchant come newest first and are exactly the orders of
    that merchant.  Each order is listed as often as it is stored, and neither
    listing changes anything. *)
Theorem order_listings_sorted_and_complete (merchantId : string) (w : World) :
  healthy w →
  (∃ l,
     OrdersService.findPendingOrdersForMerchant merchantId w = (Ok l, w)
     ∧ StronglySorted older_first l
     ∧ l ≡ₚ filter (pending_unlinked merchantId) (orders w))
  ∧ (∃ l,
       OrdersService.getMerchantOrders merchantId w = (Ok l, w)
       ∧ StronglySorted (λ a b, (Order.createdAt b ≤ Order.createdAt a)%Z) l
       ∧ l ≡ₚ filter (λ o, Order.merchantId o = merchantId) (orders w)).
Proof.
  intros Hw. split.
  - destruct (findMany_healthy
                (OrderWhereInput.mk (Some merchantId) (Some PENDING)
                                    (Some None)) asc w Hw)
      as (l & Hrun & Hsorted & Hperm).
    exists l. split; [exact Hrun|]. split; [exact Hsorted|].
    rewrite Hperm. erewrite list_filter_iff; [reflexivity|].
    intros o. unfold Order_where, pending_unlinked. simpl.
    rewrite !andb_True, !bool_decide_spec. tauto.
  - destruct (findMany_healthy
                (OrderWhereInput.mk (Some merchantId) None None) desc w Hw)
      as (l & Hrun & Hsorted & Hperm).
    exists l. split; [exact Hrun|]. split; [exact Hsorted|].
    rewrite Hperm. erewrite list_filter_iff; [reflexivity|].
    intros o. unfold Order_where. simpl.
    by rewrite !andb_true_r, bool_decide_spec.
Qed.

Lemma order_listings_sorted_and_complete_witness :
  let w := shop [] [order_pending "o1" 2999 300; order_linked "o2" "in_1" PAID;
                    order_pending "o3" 500 100] in
  (∃ l, OrdersService.findPendingOrdersForMerchant "m1" w = (Ok l, w)
        ∧ Order.id <$> l = ["o3"; "o1"])
  ∧ (∃ l, OrdersService.getMerchantOrders "m1" w = (Ok l, w)
          ∧ Order.id <$> l = ["o2"; "o1"; "o3"]).
Proof.
  intros w.
  destruct (order_listings_sorted_and_complete "m1" w)
    as [(l1 & Hrun1 & _) (l2 & Hrun2 & _)]; [reflexivity|].
  split.
  - exists l1. split; [exact Hrun1|].
    vm_compute in Hrun1. by injection Hrun1 as <-.
  - exists l2. split; [exact Hrun2|].
    vm_compute in Hrun2. by injection Hrun2 as <-.
Defined.

(** Marking twice is marking once.  A second [markOrderAsPaid] for the same
    invoice, at whatever later time and with whatever payment time, returns
    the order the first one returned and changes nothing: the first payment
    time stays.  Likewise a second [markOrderAsPaymentFailed]: the first
    failure time and reason stay.  An invoice that no order carries is
    answered with [null] both times. *)
Theorem order_marks_repeat (inv : string) (paidAt paidAt' : option Date)
    (reason reason' : option string) (t : Date) (w : World) :
  healthy w →
  (∃ r w1,
     OrdersService.markOrderAsPaid inv paidAt w = (Ok r, w1)
     ∧ OrdersService.markOrderAsPaid inv paidAt' (at_time t w1)
       = (Ok r, at_time t w1))
  ∧ (∃ r w1,
       OrdersService.markOrderAsPaymentFailed inv reason w = (Ok r, w1)
       ∧ OrdersService.markOrderAsPaymentFailed inv reason' (at_time t w1)
         = (Ok r, at_time t w1)).
Proof.
  intros Hw. split.
  - destruct (order_of_invoice inv w) as [o|] eqn:Ho.
    + destruct (markOrderAsPaid_linked inv paidAt o w Hw Ho)
        as (w1 & o1 & Hrun & Hw1 & Ho1 & _ & Hst & _).
      exists (Some o1), w1. split; [exact Hrun|].
      destruct (markOrderAsPaid_linked inv paidAt' o1 (at_time t w1) Hw1 Ho1)
        as (w2 & o2 & Hrun2 & _ & Ho2 & _ & _ & Hsame & _).
      rewrite (Hsame Hst) in Hrun2, Ho2.
      change (order_of_invoice inv (at_time t w1))
        with (order_of_invoice inv w1) in Ho2.
      rewrite Ho1 in Ho2. by simplify_eq.
    + exists None, w. split; [by apply markOrderAsPaid_unknown|].
      by apply markOrderAsPaid_unknown.
  - destruct (order_of_invoice inv w) as [o|] eqn:Ho.
    + destruct (markOrderAsPaymentFailed_linked inv reason o w Hw Ho)
        as (w1 & o1 & Hrun & Hw1 & Ho1 & _ & Hst & _).
      exists (Some o1), w1. split; [exact Hrun|].
      destruct (markOrderAsPaymentFailed_linked inv reason' o1 (at_time t w1)
                  Hw1 Ho1)
        as (w2 & o2 & Hrun2 & _ & Ho2 & _ & _ & Hsame & _).
      assert (Hterminal : Order.status o1 = PAID
                          ∨ Order.status o1 = PAYMENT_FAILED).
      { rewrite Hst. case_bool_decide; [by left|by right]. }
      rewrite (Hsame Hterminal) in Hrun2, Ho2.
      change (order_of_invoice inv (at_time t w1))
        with (order_of_invoice inv w1) in Ho2.
      rewrite Ho1 in Ho2. by simplify_eq.
    + exists None, w. split; [by apply markOrderAsPaymentFailed_unknown|].
      by apply markOrderAsPaymentFailed_unknown.
Qed.

Lemma order_marks_repeat_witness :
  ∃ w1,
    OrdersService.markOrderAsPaid "in_1" None
      (shop [] [order_linked "o1" "in_1" PENDING])
    = (Ok (Some (Order.mk "o1" "m1" 2999 PAID (Some "in_1") (Some 2000) None
                          None 900)), w1)
    ∧ OrdersService.markOrderAsPaid "in_1" (Some 5000) (at_time 3000 w1)
      = (Ok (Some (Order.mk "o1" "m1" 2999 PAID (Some "in_1") (Some 2000) None
                            None 900)), at_time 3000 w1).
Proof.
  destruct (order_marks_repeat "in_1" None (Some 5000) None None 3000
              (shop [] [order_linked "o1" "in_1" PENDING]))
    as [(r & w1 & Hrun & Hagain) _]; [reflexivity|].
  exists w1. vm_compute in Hrun. injection Hrun as <- <-.
  split; [reflexivity|exact Hagain].
Defined.

(** * Invariants under arbitrary faults *)

Section Maintains.
Context {A B : Type} (I : World → Prop).

Lemma maintains_ret (a : A) : maintains I (mret a : M A).
Proof. intros w r w' HI [= <- <-]. done. Qed.

Lemma maintains_throw (e : Exception) : maintains I (throw e : M A).
Proof. intros w r w' HI [= <- <-]. done. Qed.

Lemma maintains_gets (f : World → A) : maintains I (gets f).
Proof. intros w r w' HI [= <- <-]. done. Qed.

Lemma maintains_modify (f : World → World) :
  (∀ w, I w → I (f w)) → maintains I (modify f).
Proof. intros Hf w r w' HI [= <- <-]. by apply Hf. Qed.

Lemma maintains_external (cls : ExceptionClass) :
  (∀ w fs, I w → I (set_faults fs w)) → maintains I (external cls).
Proof.
  intros Hf w r w' HI. unfold external.
  destruct (faults w) as [|[m|] fs]; intros [= <- <-]; [done|by apply Hf..].
Qed.

Lemma maintains_bind (m : M A) (f : A → M B) :
  maintains I m → (∀ a, maintains I (f a)) → maintains I (m ≫= f).
Proof.
  intros Hm Hf w r w' HI. unfold mbind, M_bind.
  destruct (m w) as [[a|e] w1] eqn:Hrun;
    pose proof (Hm _ _ _ HI Hrun) as HI1.
  - intros Hrun'. exact (Hf _ _ _ _ HI1 Hrun').
  - by intros [= <- <-].
Qed.

Lemma maintains_try_catch (m : M A) (h : Exception → M A) :
  maintains I m → (∀ e, maintains I (h e)) → maintains I (try_catch m h).
Proof.
  intros Hm Hh w r w' HI. unfold try_catch.
  destruct (m w) as [[a|e] w1] eqn:Hrun;
    pose proof (Hm _ _ _ HI Hrun) as HI1.
  - by intros [= <- <-].
  - intros Hrun'. exact (Hh _ _ _ _ HI1 Hrun').
Qed.

Lemma maintains_transaction (body : M A) :
  (∀ w l, I w → I (set_pending l w)) →
  (∀ w l, I w → I (set_stripeEvents l w)) →
  maintains I body → maintains I (transaction body).
Proof.
  intros Hp He Hbody w r w' HI. unfold transaction.
  destruct (body (set_pending [] w)) as [[a|e] w1] eqn:Hrun;
    pose proof (Hbody _ _ _ (Hp _ [] HI) Hrun) as HI1;
    intros [= <- <-]; [by apply Hp, He|by apply Hp].
Qed.

End Maintains.

Lemma maintains_preserves {A : Type} (R : relation World) (m : M A) :
  (∀ w, R w w) → (∀ w0, maintains (R w0) m) → preserves R m.
Proof. intros Hrefl Hm w r w' Hrun. by eapply Hm. Qed.

(** Decomposes a computation along its binds and branches; [solver] proves
    that a write to another part of the world keeps the invariant. *)
Ltac maintain solver :=
  cbv zeta;
  repeat first
    [ solve [eauto 2]
    | apply maintains_ret
    | apply maintains_throw
    | apply maintains_gets
    | apply maintains_external; solve [solver]
    | apply maintains_modify; solve [solver]
    | apply maintains_transaction; [solve [solver]|solve [solver]|]
    | apply maintains_bind; [|intros ?]
    | apply maintains_try_catch; [|intros ?]
    | match goal with
      | |- maintains _ (match ?x with _ => _ end) => destruct x
      end ].

(** The services of ingestion, down to the calls to the stores. *)
Ltac unfold_ingestion :=
  cbv beta delta
      [WebhooksService.handleWebhook WebhooksService.reprocessEvent
       WebhooksService.getEvents WebhooksService.getEvent
       StripeService.verifyWebhookSignature
       QueueService.enqueueWebhookEvent QueueService.jobExists
       webhookQueue.getJob webhookQueue.add
       prisma.stripeEvent.findUnique prisma.stripeEvent.create
       prisma.stripeEvent.findMany new_Date].

Ltac same_domain_solver :=
  intros; unfold same_domain in *; wsimpl; done.

Lemma same_domain_ingestion (env : Env) (payload : Buffer)
    (signature stripeEventId : string) (w0 : World) :
  maintains (same_domain w0)
            (WebhooksService.handleWebhook env payload signature)
  ∧ maintains (same_domain w0) (WebhooksService.reprocessEvent stripeEventId).
Proof.
  split; unfold_ingestion; maintain same_domain_solver.
Qed.

Section Triple.
Context {A B : Type} (I : World → Prop).

Lemma triple_ret (P : World → Prop) (Q : A → World → Prop) (a : A) :
  (∀ w, I w → P w → Q a w) → triple I P (mret a : M A) Q.
Proof. intros HQ w r w' HI HP [= <- <-]. split; [done|by apply HQ]. Qed.

Lemma triple_throw (P : World → Prop) (Q : A → World → Prop)
    (e : Exception) :
  triple I P (throw e : M A) Q.
Proof. intros w r w' HI HP [= <- <-]. done. Qed.

Lemma triple_gets (P : World → Prop) (Q : A → World → Prop)
    (g : World → A) :
  (∀ w, I w → P w → Q (g w) w) → triple I P (gets g) Q.
Proof. intros HQ w r w' HI HP [= <- <-]. split; [done|by apply HQ]. Qed.

Lemma triple_modify (P : World → Prop) (Q : unit → World → Prop)
    (f : World → World) :
  (∀ w, I w → P w → I (f w) ∧ Q tt (f w)) → triple I P (modify f) Q.
Proof. intros HQ w r w' HI HP [= <- <-]. by apply HQ. Qed.

Lemma triple_external (P : World → Prop) (cls : ExceptionClass) :
  (∀ w fs, I w → I (set_faults fs w)) →
  (∀ w fs, P w → P (set_faults fs w)) →
  triple I P (external cls) (λ _, P).
Proof.
  intros HfI HfP w r w' HI HP. unfold external.
  destruct (faults w) as [|[m|] fs]; intros [= <- <-];
    (split; [by try apply HfI|by try apply HfP]).
Qed.

Lemma triple_bind (P : World → Prop) (Q1 : A → World → Prop)
    (Q : B → World → Prop) (m : M A) (f : A → M B) :
  triple I P m Q1 → (∀ a, triple I (Q1 a) (f a) Q) → triple I P (m ≫= f) Q.
Proof.
  intros Hm Hf w r w' HI HP. unfold mbind, M_bind.
  destruct (m w) as [[a|e] w1] eqn:Hrun;
    destruct (Hm _ _ _ HI HP Hrun) as [HI1 HQ1].
  - intros Hrun'. exact (Hf _ _ _ _ HI1 HQ1 Hrun').
  - by intros [= <- <-].
Qed.

Lemma triple_weaken (P P' : World → Prop) (Q Q' : A → World → Prop)
    (m : M A) :
  (∀ w, I w → P w → P' w) →
  (∀ a w, I w → Q' a w → Q a w) →
  triple I P' m Q' → triple I P m Q.
Proof.
  intros HP HQ Hm w r w' HI Hpre Hrun.
  destruct (Hm _ _ _ HI (HP _ HI Hpre) Hrun) as [HI1 HQ1].
  split; [done|]. destruct r; [by apply HQ|done].
Qed.

Lemma triple_maintains (P : World → Prop) (Q : A → World → Prop) (m : M A) :
  (∀ w, I w → P w) → triple I P m Q → maintains I m.
Proof.
  intros HP Hm w r w' HI Hrun. by destruct (Hm _ _ _ HI (HP _ HI) Hrun).
Qed.

End Triple.

(** A row rewritten in place. *)
Lemma update_first_Forall2 {A : Type} (R : relation A) (p : A → bool)
    (f : A → A) (l l' : list A) (x : A) :
  (∀ y, R y y) →
  find p l = Some x → R x (f x) →
  update_first p f l = Some l' → Forall2 R l l'.
Proof.
  intros Hrefl. revert l'. induction l as [|y l IH]; simpl; [discriminate|].
  intros l'. destruct (p y) eqn:Hy.
  - intros Hfind Hx Hupd. simplify_eq. constructor; [done|].
    by apply Forall_Forall2_diag, Forall_forall.
  - intros Hfind Hx.
    destruct (update_first p f l) as [l0|]; [|discriminate].
    intros [= <-]. constructor; [done|]. by apply IH.
Qed.

Lemma Forall2_trans {A : Type} (R : relation A) (l1 l2 l3 : list A) :
  Transitive R → Forall2 R l1 l2 → Forall2 R l2 l3 → Forall2 R l1 l3.
Proof.
  intros Htrans H12. revert l3.
  induction H12 as [|x y l1 l2 Hxy H12 IH]; intros l3 H23;
    inversion H23; subst; constructor; [by etrans|by apply IH].
Qed.

Lemma Forall2_refl {A : Type} (R : relation A) (l : list A) :
  (∀ x, R x x) → Forall2 R l l.
Proof. intros Hrefl. by apply Forall_Forall2_diag, Forall_forall. Qed.

(** *** The queue *)

Lemma queue_grows_refl (w : World) : queue_grows w w.
Proof. by split. Qed.

Lemma maintains_queue_add (w0 : World) (name : string)
    (data : WebhookJobData.t) (jobId : string) :
  maintains (queue_grows w0) (webhookQueue.add name data jobId).
Proof.
  eapply triple_maintains with (P := λ _, True) (Q := λ _ _, True); [done|].
  unfold webhookQueue.add. cbv zeta.
  eapply triple_bind.
  { apply triple_external; [|done]. intros w fs [? ?]. by split. }
  intros []. eapply triple_bind with (Q1 := λ jobs w, jobs = queue w).
  { by apply triple_gets. }
  intros jobs. destruct (find (webhookQueue.has_id jobId) jobs) eqn:Hfind.
  { by apply triple_ret. }
  eapply triple_bind with (Q1 := λ _ _, True); [|intros; by apply triple_ret].
  apply triple_modify. intros w [Hpre Hnd] ->. split; [|done].
  split; wsimpl.
  - by apply prefix_app_r.
  - intros Hnd0. rewrite fmap_app. apply NoDup_app.
    split; [by apply Hnd|]. split; [|apply NoDup_singleton].
    intros k Hk Hk'. apply list_elem_of_singleton in Hk'. subst k.
    apply list_elem_of_fmap in Hk as (j & Hj & Hin).
    pose proof (find_None_Forall _ _ Hfind j Hin) as Hno.
    unfold webhookQueue.has_id in Hno. apply bool_decide_eq_false in Hno.
    simpl in Hj. congruence.
Qed.

Ltac queue_grows_solver :=
  intros; unfold queue_grows in *; wsimpl; done.

Lemma queue_grows_ingestion (env : Env) (payload : Buffer)
    (signature stripeEventId : string) (w0 : World) :
  maintains (queue_grows w0)
            (WebhooksService.handleWebhook env payload signature)
  ∧ maintains (queue_grows w0) (WebhooksService.reprocessEvent stripeEventId).
Proof.
  pose proof (maintains_queue_add w0).
  split;
    cbv beta delta
        [WebhooksService.handleWebhook WebhooksService.reprocessEvent
         StripeService.verifyWebhookSignature
         QueueService.enqueueWebhookEvent QueueService.jobExists
         webhookQueue.getJob
         prisma.stripeEvent.findUnique prisma.stripeEvent.create];
    maintain queue_grows_solver.
Qed.

(** Ingestion and manual reprocessing stay out of the domain: whatever the
    request and whatever the stores answer, whether the call returns or
    throws, merchants, subscriptions and orders are left as they were.  What
    they do to the queue is add at its end: no job is removed or replaced,
    and job ids that were unique stay unique. *)
Theorem ingestion_frame (env : Env) (payload : Buffer)
    (signature stripeEventId : string) :
  preserves same_domain (WebhooksService.handleWebhook env payload signature)
  ∧ preserves queue_grows
              (WebhooksService.handleWebhook env payload signature)
  ∧ preserves same_domain (WebhooksService.reprocessEvent stripeEventId)
  ∧ preserves queue_grows (WebhooksService.reprocessEvent stripeEventId).
Proof.
  split; [|split; [|split]]; apply maintains_preserves;
    try (intros w; by repeat split); intros w0.
  - apply (same_domain_ingestion env payload signature stripeEventId w0).
  - apply (queue_grows_ingestion env payload signature stripeEventId w0).
  - apply (same_domain_ingestion env payload signature stripeEventId w0).
  - apply (queue_grows_ingestion env payload signature stripeEventId w0).
Qed.

(** *** The event log *)

Lemma update_first_Forall2_all {A : Type} (R : relation A) (p : A → bool)
    (f : A → A) (l l' : list A) :
  (∀ y, R y y) → (∀ y, R y (f y)) →
  update_first p f l = Some l' → Forall2 R l l'.
Proof.
  intros Hrefl Hf. revert l'. induction l as [|y l IH]; simpl; [discriminate|].
  intros l'. destruct (p y).
  - intros [= <-]. constructor; [done|]. by apply Forall2_refl.
  - destruct (update_first p f l) as [l0|]; [|discriminate].
    intros [= <-]. constructor; [done|]. by apply IH.
Qed.

Lemma event_step_refl (e : StripeEvent.t) : event_step e e.
Proof. by repeat split. Qed.

Lemma event_step_set (d : StripeEventUpdateInput.t) (e : StripeEvent.t) :
  StripeEventUpdateInput.processed d ≠ Some false →
  event_step e (StripeEvent_set d e).
Proof.
  intros Hd. repeat split. simpl. intros ->.
  by destruct (StripeEventUpdateInput.processed d) as [[]|].
Qed.

Lemma event_log_grows_same (w w' : World) :
  stripeEvents w' = stripeEvents w → event_log_grows w w'.
Proof.
  intros Hevs. exists (stripeEvents w), []. rewrite Hevs, app_nil_r.
  split; [done|]. split; [|simpl; lia].
  apply Forall2_refl, event_step_refl.
Qed.

Lemma keeps_reprocessEvent (stripeEventId : string) :
  keeps_events (WebhooksService.reprocessEvent stripeEventId).
Proof.
  pose proof keeps_enqueueWebhookEvent.
  pose proof keeps_stripeEvent_findUnique.
  unfold WebhooksService.reprocessEvent. keeps.
Qed.

(** The event log is append-only in what matters.  Whatever the request or
    the job, and whatever the stores answer, ingestion, manual reprocessing
    and a delivery leave every event row in its place, with its id, its
    provider id, its type, its payload and its creation time; a processed row
    stays processed; and at most one row is added, at the end.  No row is
    ever deleted, and a stored payload is never rewritten. *)
Theorem event_log_append_only (env : Env) (payload : Buffer)
    (signature stripeEventId : string) (job : Job.t) :
  preserves event_log_grows
            (WebhooksService.handleWebhook env payload signature)
  ∧ preserves event_log_grows (WebhooksService.reprocessEvent stripeEventId)
  ∧ preserves event_log_grows (WebhookProcessorService.processJob env job).
Proof.
  split; [|split]; intros w r w' Hrun.
  - apply may_create_handleWebhook in Hrun as [_ [Hevs | (new & Hevs & _)]].
    + by apply event_log_grows_same.
    + exists (stripeEvents w), [new]. split; [done|].
      split; [|simpl; lia]. apply Forall2_refl, event_step_refl.
  - apply keeps_reprocessEvent in Hrun as [Hevs _].
    by apply event_log_grows_same.
  - apply processJob_event_rows in Hrun
      as [_ [Hevs | [(_ & now & Hupd) | (e & _ & Hupd)]]].
    + by apply event_log_grows_same.
    + exists (stripeEvents w'), []. rewrite app_nil_r. split; [done|].
      split; [|simpl; lia].
      eapply update_first_Forall2_all; [apply event_step_refl| |exact Hupd].
      intros y. by apply event_step_set.
    + exists (stripeEvents w'), []. rewrite app_nil_r. split; [done|].
      split; [|simpl; lia].
      eapply update_first_Forall2_all; [apply event_step_refl| |exact Hupd].
      intros y. by apply event_step_set.
Qed.

(** *** What a delivery leaves alone *)

#[global] Instance subscription_kept_trans : Transitive subscription_kept.
Proof.
  intros a b c (? & ? & ?) (? & ? & ?). repeat split; congruence.
Qed.

Lemma processing_frame_refl (w : World) : processing_frame w w.
Proof.
  repeat split. apply Forall2_refl. intros s. by repeat split.
Qed.

Lemma maintains_subscription_update (w0 : World) (k status : string)
    (d : SubscriptionData.t) :
  maintains (processing_frame w0) (prisma.subscription.update k status d).
Proof.
  eapply triple_maintains with (P := λ _, True) (Q := λ _ _, True); [done|].
  unfold prisma.subscription.update.
  eapply triple_bind.
  { apply triple_external; [|done]. intros w fs H. exact H. }
  intros []. eapply triple_bind with (Q1 := λ rows w, rows = subscriptions w).
  { by apply triple_gets. }
  intros rows.
  destruct (find _ rows) as [s|]; [|apply triple_throw].
  destruct (update_first _ _ rows) as [rows'|] eqn:Hupd; [|apply triple_throw].
  eapply triple_bind with (Q1 := λ _ _, True); [|intros; by apply triple_ret].
  apply triple_modify. intros w (? & ? & ? & ? & Hsubs) ->. split; [|done].
  repeat split; wsimpl; [done..|].
  eapply Forall2_trans; [apply _|exact Hsubs|].
  eapply update_first_Forall2_all; [| |exact Hupd];
    intros s'; by repeat split.
Qed.

(** The services of processing, down to the calls to the stores. *)
Ltac unfold_processing :=
  cbv beta delta
      [WebhookProcessorService.processJob
       WebhookProcessorService.processEventByType
       WebhookProcessorService.handleInvoicePaymentSucceeded
       WebhookProcessorService.handleInvoicePaymentFailed
       WebhookProcessorService.handleSubscriptionUpdated
       WebhookProcessorService.handleSubscriptionDeleted
       WebhookProcessorService.resolveMerchant
       WebhookProcessorService.parse
       MerchantsService.getMerchantByStripeCustomerId
       MerchantsService.updateSubscriptionStatus
       OrdersService.getOrderByInvoiceId
       prisma.merchant.findUnique_stripeCustomerId
       prisma.subscription.findUnique
       prisma.order.findUnique
       prisma.stripeEvent.update
       tx.stripeEvent.findUnique tx.stripeEvent.update new_Date].

Ltac unfold_orders :=
  cbv beta delta
      [OrdersService.markOrderAsPaid OrdersService.markOrderAsPaymentFailed
       OrdersService.findAndLinkOrderToInvoice
       prisma.order.findUnique prisma.order.findFirst_pending
       prisma.order.update new_Date].

Ltac processing_frame_solver :=
  intros; unfold processing_frame in *; wsimpl; done.

Lemma processing_frame_processJob (env : Env) (job : Job.t) (w0 : World) :
  maintains (processing_frame w0) (WebhookProcessorService.processJob env job).
Proof.
  pose proof (maintains_subscription_update w0).
  unfold_processing. unfold_orders. maintain processing_frame_solver.
Qed.

(** A delivery stays out of the queue and creates nothing.  Whatever the job
    and whatever the stores answer, whether the delivery succeeds or fails,
    the queue and the merchants are as they were and no id was generated;
    the subscriptions are the same ones, each in its place, with its id, its
    merchant and its provider id: none is added, removed or reassigned. *)
Theorem processJob_frame (env : Env) (job : Job.t) :
  preserves processing_frame (WebhookProcessorService.processJob env job).
Proof.
  apply maintains_preserves; [apply processing_frame_refl|].
  apply processing_frame_processJob.
Qed.

(** *** What may become of an order *)

Lemma order_step_refl (o : Order.t) : order_step o o.
Proof. repeat split; auto. Qed.

#[global] Instance order_step_trans : Transitive order_step.
Proof.
  intros a b c (Hid & Hm & Ham & Hc & Hpaid & Hinv & Hst)
         (Hid' & Hm' & Ham' & Hc' & Hpaid' & Hinv' & Hst').
  repeat split; try congruence.
  - intros Ha. rewrite <- (Hpaid Ha). apply Hpaid'. by rewrite (Hpaid Ha).
  - intros i Hi. by apply Hinv', Hinv.
  - destruct Hst' as [Hst' | [Hst' | Hst']]; [|by auto..].
    rewrite Hst'. exact Hst.
Qed.

Lemma order_step_ids (l l' : list Order.t) :
  Forall2 order_step l l' → Order.id <$> l' = Order.id <$> l.
Proof.
  induction 1 as [|x y l l' (Hid & _) _ IH]; [done|].
  rewrite !fmap_cons. by rewrite Hid, IH.
Qed.

Section OrdersEvolve.
Variable ords0 : list Order.t.
Hypothesis Hnd0 : NoDup (Order.id <$> ords0).

Let I : World → Prop := λ w, Forall2 order_step ords0 (orders w).

Lemma evolve_ids (w : World) : I w → NoDup (Order.id <$> orders w).
Proof.
  unfold I. intros H. by rewrite (order_step_ids _ _ H).
Qed.

Lemma triple_order_findUnique (k : OrderWhereUniqueInput) :
  triple I (λ _, True) (prisma.order.findUnique k)
         (λ a w, find (Order_matches k) (orders w) = a).
Proof.
  unfold prisma.order.findUnique.
  eapply triple_bind; [by apply triple_external|].
  intros []. by apply triple_gets.
Qed.

Lemma triple_order_update (k : OrderWhereUniqueInput)
    (d : OrderUpdateInput.t) (o : Order.t) :
  order_step o (Order_set d o) →
  triple I (λ w, find (Order_matches k) (orders w) = Some o)
         (prisma.order.update k d) (λ _ _, True).
Proof.
  intros Hstep. unfold prisma.order.update.
  eapply triple_bind; [by apply triple_external|].
  intros [].
  eapply triple_bind
    with (Q1 := λ rows w, rows = orders w
                          ∧ find (Order_matches k) (orders w) = Some o).
  { by apply triple_gets. }
  intros rows.
  destruct (find _ rows) as [o'|] eqn:Hfind; [|apply triple_throw].
  destruct (update_first _ _ rows) as [rows'|] eqn:Hupd; [|apply triple_throw].
  eapply triple_bind with (Q1 := λ _ _, True); [|intros; by apply triple_ret].
  apply triple_modify. intros w HI [-> Ho]. split; [|done].
  unfold I in *. wsimpl. rewrite Ho in Hfind. simplify_eq.
  eapply Forall2_trans; [apply _|exact HI|].
  eapply update_first_Forall2; [apply order_step_refl|exact Ho|done|done].
Qed.

Lemma triple_order_findFirst (merchantId : string) (amount : Z) :
  triple I (λ _, True) (prisma.order.findFirst_pending merchantId amount)
         (λ a w, ∀ c, a = Some c →
                      c ∈ orders w
                      ∧ Order.status c = PENDING
                      ∧ Order.stripeInvoiceId c = None).
Proof.
  unfold prisma.order.findFirst_pending.
  eapply triple_bind; [by apply triple_external|].
  intros [].
  eapply triple_bind with (Q1 := λ rows w, rows = orders w).
  { by apply triple_gets. }
  intros rows. apply triple_ret. intros w _ -> c Hhead.
  apply head_merge_sort_least in Hhead as [Hc _]; [|apply _..].
  apply list_elem_of_filter in Hc as [Hcand Hc]. split; [done|].
  apply Is_true_true in Hcand. unfold Order_where_pending in Hcand.
  rewrite !andb_true_iff in Hcand. destruct Hcand as [[[_ Hst] Hinv] _].
  by apply bool_decide_eq_true in Hinv, Hst.
Qed.

Lemma maintains_markOrderAsPaid (inv : string) (paidAt : option Date) :
  maintains I (OrdersService.markOrderAsPaid inv paidAt).
Proof.
  eapply triple_maintains with (P := λ _, True) (Q := λ _ _, True); [done|].
  unfold OrdersService.markOrderAsPaid.
  eapply triple_bind; [apply triple_order_findUnique|].
  intros [o|]; [|by apply triple_ret].
  case_bool_decide as Hpaid; [by apply triple_ret|].
  eapply triple_bind
    with (Q1 := λ _ w, find (Order_matches (Order_stripeInvoiceId inv))
                            (orders w) = Some o).
  { destruct paidAt; [by apply triple_ret|by apply triple_gets]. }
  intros at_.
  eapply triple_bind; [|intros; by apply triple_ret].
  apply triple_order_update. repeat split; simpl; auto. done.
Qed.

Lemma maintains_markOrderAsPaymentFailed (inv : string)
    (failureReason : option string) :
  maintains I (OrdersService.markOrderAsPaymentFailed inv failureReason).
Proof.
  eapply triple_maintains with (P := λ _, True) (Q := λ _ _, True); [done|].
  unfold OrdersService.markOrderAsPaymentFailed.
  eapply triple_bind; [apply triple_order_findUnique|].
  intros [o|]; [|by apply triple_ret].
  case_bool_decide as Hpaid; [by apply triple_ret|].
  destruct (bool_decide (Order.status o = PAYMENT_FAILED));
    [by apply triple_ret|].
  simpl.
  eapply triple_bind
    with (Q1 := λ _ w, find (Order_matches (Order_stripeInvoiceId inv))
                            (orders w) = Some o).
  { by apply triple_gets. }
  intros now.
  eapply triple_bind; [|intros; by apply triple_ret].
  apply triple_order_update. repeat split; simpl; auto. done.
Qed.

Lemma maintains_findAndLinkOrderToInvoice (merchantId inv : string)
    (amount : Z) :
  maintains I (OrdersService.findAndLinkOrderToInvoice merchantId inv amount).
Proof.
  eapply triple_maintains with (P := λ _, True) (Q := λ _ _, True); [done|].
  unfold OrdersService.findAndLinkOrderToInvoice.
  eapply triple_bind; [apply triple_order_findFirst|].
  intros [c|]; [|by apply triple_ret].
  eapply triple_bind with (Q1 := λ _ _, True); [|intros; by apply triple_ret].
  eapply triple_weaken
    with (P' := λ w, find (Order_matches (Order_id (Order.id c))) (orders w)
                     = Some c
                     ∧ Order.status c = PENDING
                     ∧ Order.stripeInvoiceId c = None)
         (Q' := λ _ _, True); [| done |].
  { intros w HI Hc. destruct (Hc c eq_refl) as (Hin & Hst & Hfree).
    split; [|done]. apply find_Order_id; [by apply evolve_ids|done]. }
  intros w r w' HI (Hfind & Hst & Hfree).
  eapply (triple_order_update _ _ c); [|exact HI|exact Hfind].
  repeat split; simpl; auto; [by rewrite Hst|]. intros i. by rewrite Hfree.
Qed.

Ltac evolve_solver := intros; unfold I in *; wsimpl; done.

Lemma maintains_orders_processJob (env : Env) (job : Job.t) :
  maintains I (WebhookProcessorService.processJob env job).
Proof.
  pose proof maintains_markOrderAsPaid.
  pose proof maintains_markOrderAsPaymentFailed.
  pose proof maintains_findAndLinkOrderToInvoice.
  unfold_processing.
  cbv beta delta [prisma.subscription.update].
  maintain evolve_solver.
Qed.

End OrdersEvolve.

(** Paid is final.  Take any job and any answers of the stores, and let the
    delivery succeed or fail: with order ids unique, the orders afterwards
    are the orders before, each in its place with its id, merchant, amount
    and creation time; an order that was [PAID] is exactly as it was; an
    order that was linked to an invoice is still linked to it; and a status
    that changed changed to [PAID] or to [PAYMENT_FAILED].  No delivery
    creates or deletes an order, reopens a paid one or moves a link. *)
Theorem processJob_orders_evolve (env : Env) (job : Job.t) (w w' : World)
    (r : Result unit) :
  NoDup (Order.id <$> orders w) →
  WebhookProcessorService.processJob env job w = (r, w') →
  orders_evolve w w'.
Proof.
  intros Hnd Hrun.
  eapply (maintains_orders_processJob (orders w) Hnd env job w r w');
    [|exact Hrun].
  apply Forall2_refl, order_step_refl.
Qed.

Lemma processJob_orders_evolve_witness :
  let w := mkWorld [row_of "c0" evt_failed false 0] [merchant_1]
                   [subscription_1]
                   [order_linked "o1" "in_1" PAID; order_pending "o2" 2999 100]
                   [] [] 2000 1 [None; None; None; Some "connection lost"] in
  ∃ r w',
    WebhookProcessorService.processJob
      demo_env (delivery (row_of "c0" evt_failed false 0) 0) w = (r, w')
    ∧ orders_evolve w w'.
Proof.
  intros w. eexists _, _. split; [vm_compute; reflexivity|].
  eapply (processJob_orders_evolve demo_env
            (delivery (row_of "c0" evt_failed false 0) 0) w).
  - apply (bool_decide_unpack _). by vm_compute.
  - vm_compute. reflexivity.
Defined.

(** * Redelivery without the checkpoint *)

Lemma update_first_elem_of {A : Type} (p : A → bool) (f : A → A)
    (l l' : list A) (x : A) :
  find p l = Some x → update_first p f l = Some l' → f x ∈ l'.
Proof.
  revert l'. induction l as [|y l IH]; simpl; [discriminate|].
  intros l'. destruct (p y).
  - intros [= ->] [= <-]. left.
  - intros Hx. destruct (update_first p f l) as [l0|]; [|discriminate].
    intros [= <-]. right. by apply IH.
Qed.

(** The merchant an invoice resolves to depends on the merchants only. *)
Lemma resolveMerchant_stable (customerId : option string) (w : World) :
  healthy w →
  ∃ merchant,
    ∀ w2, healthy w2 → merchants w2 = merchants w →
          WebhookProcessorService.resolveMerchant customerId w2
          = (Ok merchant, w2).
Proof.
  intros Hw. destruct customerId as [c|]; [|by exists None].
  unfold WebhookProcessorService.resolveMerchant.
  destruct (truthy_string c) eqn:Hc; [|by exists None].
  exists (merchant_of_customer c w). intros w2 Hw2 Hms.
  pose proof (resolveMerchant_healthy c w2 Hw2 Hc) as H.
  unfold WebhookProcessorService.resolveMerchant in H. rewrite Hc in H.
  rewrite H. unfold merchant_of_customer. by rewrite Hms.
Qed.

(** The subscription step of an invoice handler, run again on its own
    result, changes nothing. *)
Lemma subscription_step_stable (b : bool) (k status : string)
    (d : SubscriptionData.t) (w : World) :
  healthy w →
  ∃ subs',
    (if b then MerchantsService.updateSubscriptionStatus k status d;; mret tt
     else mret tt) w = (Ok tt, set_subscriptions subs' w)
    ∧ ∀ w2, healthy w2 → subscriptions w2 = subs' →
            (if b
             then MerchantsService.updateSubscriptionStatus k status d;; mret tt
             else mret tt) w2 = (Ok tt, w2).
Proof.
  intros Hw. destruct b.
  - destruct (subscription_of k w) as [s|] eqn:Hs.
    + destruct (updateSubscriptionStatus_known k status d s w Hw Hs)
        as (subs' & Hrun & Hupd).
      exists subs'. rewrite (bind_Ok _ _ _ _ _ Hrun). split; [done|].
      intros w2 Hw2 Hsubs.
      assert (Hs2 : subscription_of k w2 = Some (Subscription_set status d s)).
      { unfold subscription_of in *. rewrite Hsubs.
        rewrite (subscription_of_after_update _ k _ _ _ _ Hupd).
        rewrite bool_decide_eq_true_2 by done. by rewrite Hs. }
      destruct (updateSubscriptionStatus_known k status d _ w2 Hw2 Hs2)
        as (subs2 & Hrun2 & Hupd2).
      rewrite (bind_Ok _ _ _ _ _ Hrun2). rewrite Hsubs in Hupd2.
      rewrite (update_first_idem _ _ _ _ (Subscription_set_key _ _ _)
                 (Subscription_set_idem _ _) Hupd) in Hupd2.
      injection Hupd2 as <-. rewrite <- Hsubs.
      by rewrite set_subscriptions_id.
    + exists (subscriptions w). rewrite set_subscriptions_id.
      rewrite (bind_Ok _ _ _ _ _
                 (updateSubscriptionStatus_unknown k status d w Hw Hs)).
      split; [done|]. intros w2 Hw2 Hsubs.
      rewrite (bind_Ok _ _ _ _ _
                 (updateSubscriptionStatus_unknown k status d w2 Hw2
                    ltac:(unfold subscription_of in *; by rewrite Hsubs))).
      done.
  - exists (subscriptions w). rewrite set_subscriptions_id. by split.
Qed.

(** The amount-based search either finds nothing, and then finds nothing on
    any world with the same orders, or links an order, and then the invoice
    selects an order. *)
Lemma findAndLinkOrderToInvoice_cases (merchantId inv : string) (amount : Z)
    (w : World) :
  healthy w →
  (OrdersService.findAndLinkOrderToInvoice merchantId inv amount w
   = (Ok None, w)
   ∧ ∀ w2, healthy w2 → orders w2 = orders w →
           OrdersService.findAndLinkOrderToInvoice merchantId inv amount w2
           = (Ok None, w2))
  ∨ (∃ linked ords',
       OrdersService.findAndLinkOrderToInvoice merchantId inv amount w
       = (Ok (Some linked), set_orders ords' w)
       ∧ is_Some (find (Order_matches (Order_stripeInvoiceId inv)) ords')).
Proof.
  intros Hw. open_world w Hw. mrun.
  destruct (head _) as [c|] eqn:Hhead; mrun.
  - right. apply head_merge_sort_least in Hhead as [Hc _]; [|apply _..].
    apply list_elem_of_filter in Hc as [_ Hc].
    destruct (find_is_Some (Order_matches (Order_id (Order.id c))) ords c Hc)
      as [x Hx].
    { simpl. by rewrite bool_decide_eq_true_2. }
    rewrite Hx.
    set (data := OrderUpdateInput.mk None (Some inv) None None None).
    destruct (update_first_Some _ (Order_set data) _ _ Hx) as [ords' Hupd].
    rewrite Hupd. mrun. eexists _, ords'. split; [reflexivity|].
    apply (find_is_Some _ _ (Order_set data x)).
    + by eapply update_first_elem_of.
    + simpl. by rewrite bool_decide_eq_true_2.
  - left. split; [reflexivity|]. intros w2 Hw2 Hords.
    destruct w2 as [evs2 ms2 subs2 ords2 pend2 jobs2 clk2 n2 fs2].
    unfold healthy in Hw2. wsimpl. subst. mrun. by rewrite Hhead.
Qed.

(** The payment-succeeded handler on a world it has nothing to do on: the
    subscription is up to date and the order of the invoice is paid. *)
Lemma handleInvoicePaymentSucceeded_settled (event : Stripe.Event)
    (merchant : Merchant.t) (o : Order.t) (w : World) :
  let invoice := Stripe.object event in
  healthy w →
  WebhookProcessorService.resolveMerchant
    (WebhookProcessorService.id_of (Stripe.customer invoice)) w
  = (Ok (Some merchant), w) →
  (if WebhookProcessorService.present (Stripe.subscription invoice)
   then MerchantsService.updateSubscriptionStatus
          (default "" (WebhookProcessorService.id_of
                         (Stripe.subscription invoice)))
          "active"
          (SubscriptionData.mk
             (date_of_seconds (Stripe.period_start invoice))
             (date_of_seconds (Stripe.period_end invoice)) None None);;
        mret tt
   else mret tt) w = (Ok tt, w) →
  order_of_invoice (Stripe.object_id invoice) w = Some o →
  Order.status o = PAID →
  WebhookProcessorService.handleInvoicePaymentSucceeded event w = (Ok tt, w).
Proof.
  intros invoice Hw Hm Hsub Ho Hst.
  unfold WebhookProcessorService.handleInvoicePaymentSucceeded. cbv zeta.
  fold invoice. rewrite (bind_Ok _ _ _ _ _ Hm), (bind_Ok _ _ _ _ _ Hsub).
  rewrite (bind_Ok _ _ _ _ _ (getOrderByInvoiceId_healthy _ w Hw)), Ho.
  destruct (markOrderAsPaid_linked (Stripe.object_id invoice)
              (Some (clock w)) o w Hw Ho)
    as (w2 & o2 & Hrun & _ & _ & _ & _ & Hsame & _).
  rewrite (Hsame Hst) in Hrun.
  change ((new_Date ≫= ?f) w) with (f (clock w) w). cbv beta.
  by rewrite (bind_Ok _ _ _ _ _ Hrun).
Qed.

Lemma handleInvoicePaymentSucceeded_again (event : Stripe.Event) (t : Date)
    (w : World) :
  healthy w →
  ∃ w1,
    WebhookProcessorService.handleInvoicePaymentSucceeded event w = (Ok tt, w1)
    ∧ WebhookProcessorService.handleInvoicePaymentSucceeded event
        (at_time t w1) = (Ok tt, at_time t w1).
Proof.
  intros Hw.
  set (invoice := Stripe.object event).
  set (inv := Stripe.object_id invoice).
  destruct (resolveMerchant_stable
              (WebhookProcessorService.id_of (Stripe.customer invoice)) w Hw)
    as (m & Hm).
  destruct m as [merchant|]; cycle 1.
  { exists w.
    unfold WebhookProcessorService.handleInvoicePaymentSucceeded. cbv zeta.
    fold invoice.
    rewrite (bind_Ok _ _ _ _ _ (Hm w Hw eq_refl)).
    by rewrite (bind_Ok _ _ _ _ _ (Hm (at_time t w) Hw eq_refl)). }
  destruct (subscription_step_stable
              (WebhookProcessorService.present (Stripe.subscription invoice))
              (default "" (WebhookProcessorService.id_of
                             (Stripe.subscription invoice)))
              "active"
              (SubscriptionData.mk
                 (date_of_seconds (Stripe.period_start invoice))
                 (date_of_seconds (Stripe.period_end invoice)) None None)
              w Hw) as (subs' & Hsub & Hsub').
  set (w1 := set_subscriptions subs' w).
  assert (Hw1 : healthy w1) by done.
  assert (Hsettled : ∀ w2 o2,
            healthy w2 → w2 = set_orders (orders w2) w1 →
            order_of_invoice inv w2 = Some o2 → Order.status o2 = PAID →
            WebhookProcessorService.handleInvoicePaymentSucceeded event
              (at_time t w2) = (Ok tt, at_time t w2)).
  { intros w2 o2 Hw2 Hframe Ho2 Hst.
    apply (handleInvoicePaymentSucceeded_settled event merchant o2);
      [done| | |exact Ho2|exact Hst].
    - apply Hm; [done|]. by rewrite Hframe.
    - apply Hsub'; [done|]. by rewrite Hframe. }
  unfold WebhookProcessorService.handleInvoicePaymentSucceeded at 1.
  cbv zeta. fold invoice. fold inv.
  rewrite (bind_Ok _ _ _ _ _ (Hm w Hw eq_refl)).
  rewrite (bind_Ok _ _ _ _ _ Hsub). fold w1.
  rewrite (bind_Ok _ _ _ _ _ (getOrderByInvoiceId_healthy inv w1 Hw1)).
  destruct (order_of_invoice inv w1) as [o|] eqn:Ho.
  - destruct (markOrderAsPaid_linked inv (Some (clock w1)) o w1 Hw1 Ho)
      as (w2 & o2 & Hrun & Hw2 & Ho2 & _ & Hst & _ & Hframe).
    change ((new_Date ≫= ?f) w1) with (f (clock w1) w1). cbv beta.
    rewrite (bind_Ok _ _ _ _ _ Hrun). exists w2. split; [done|].
    by apply (Hsettled w2 o2).
  - destruct (findAndLinkOrderToInvoice_cases (Merchant.id merchant) inv
                (number_or (Stripe.amount_paid invoice) 0) w1 Hw1)
      as [[Hnone Hnone'] | (linked & ords' & Hlink & [o1 Ho1])].
    + rewrite (bind_Ok _ _ _ _ _ Hnone). exists w1. split; [done|].
      unfold WebhookProcessorService.handleInvoicePaymentSucceeded.
      cbv zeta. fold invoice. fold inv.
      rewrite (bind_Ok _ _ _ _ _ (Hm (at_time t w1) Hw1 eq_refl)).
      rewrite (bind_Ok _ _ _ _ _ (Hsub' (at_time t w1) Hw1 eq_refl)).
      rewrite (bind_Ok _ _ _ _ _
                 (getOrderByInvoiceId_healthy inv (at_time t w1) Hw1)).
      change (order_of_invoice inv (at_time t w1))
        with (order_of_invoice inv w1). rewrite Ho.
      by rewrite (bind_Ok _ _ _ _ _ (Hnone' (at_time t w1) Hw1 eq_refl)).
    + rewrite (bind_Ok _ _ _ _ _ Hlink).
      set (w2 := set_orders ords' w1).
      assert (Hw2 : healthy w2) by done.
      destruct (markOrderAsPaid_linked inv (Some (clock w2)) o1 w2 Hw2 Ho1)
        as (w3 & o3 & Hrun & Hw3 & Ho3 & _ & Hst & _ & Hframe).
      change ((new_Date ≫= ?f) w2) with (f (clock w2) w2). cbv beta.
      rewrite (bind_Ok _ _ _ _ _ Hrun). exists w3. split; [done|].
      apply (Hsettled w3 o3); [done| |done|done].
      by rewrite Hframe.
Qed.

Lemma handleInvoicePaymentFailed_again (event : Stripe.Event) (t : Date)
    (w : World) :
  healthy w →
  ∃ w1,
    WebhookProcessorService.handleInvoicePaymentFailed event w = (Ok tt, w1)
    ∧ WebhookProcessorService.handleInvoicePaymentFailed event (at_time t w1)
      = (Ok tt, at_time t w1).
Proof.
  intros Hw.
  set (invoice := Stripe.object event).
  set (inv := Stripe.object_id invoice).
  set (reason := Some (WebhookProcessorService.extractFailureReason invoice)).
  destruct (resolveMerchant_stable
              (WebhookProcessorService.id_of (Stripe.customer invoice)) w Hw)
    as (m & Hm).
  unfold WebhookProcessorService.handleInvoicePaymentFailed. cbv zeta.
  fold invoice. fold inv. fold reason.
  rewrite (bind_Ok _ _ _ _ _ (Hm w Hw eq_refl)).
  destruct m as [merchant|]; cycle 1.
  { exists w. split; [done|].
    by rewrite (bind_Ok _ _ _ _ _ (Hm (at_time t w) Hw eq_refl)). }
  destruct (subscription_step_stable
              (WebhookProcessorService.present (Stripe.subscription invoice))
              (default "" (WebhookProcessorService.id_of
                             (Stripe.subscription invoice)))
              "past_due" SubscriptionData.empty w Hw)
    as (subs' & Hsub & Hsub').
  set (w1 := set_subscriptions subs' w).
  assert (Hw1 : healthy w1) by done.
  rewrite (bind_Ok _ _ _ _ _ Hsub). fold w1.
  rewrite (bind_Ok _ _ _ _ _ (getOrderByInvoiceId_healthy inv w1 Hw1)).
  destruct (order_of_invoice inv w1) as [o|] eqn:Ho.
  - destruct (markOrderAsPaymentFailed_linked inv reason o w1 Hw1 Ho)
      as (w2 & o2 & Hrun & Hw2 & Ho2 & _ & Hst & _ & Hframe).
    rewrite (bind_Ok _ _ _ _ _ Hrun). exists w2. split; [done|].
    rewrite (bind_Ok _ _ _ _ _
               (Hm (at_time t w2) Hw2 ltac:(by rewrite Hframe))).
    rewrite (bind_Ok _ _ _ _ _
               (Hsub' (at_time t w2) Hw2 ltac:(by rewrite Hframe))).
    rewrite (bind_Ok _ _ _ _ _
               (getOrderByInvoiceId_healthy inv (at_time t w2) Hw2)).
    change (order_of_invoice inv (at_time t w2))
      with (order_of_invoice inv w2). rewrite Ho2.
    destruct (markOrderAsPaymentFailed_linked inv reason o2 (at_time t w2)
                Hw2 Ho2) as (w3 & o3 & Hrun3 & _ & _ & _ & _ & Hsame & _).
    assert (Hterminal : Order.status o2 = PAID
                        ∨ Order.status o2 = PAYMENT_FAILED).
    { rewrite Hst. case_bool_decide; [by left|by right]. }
    rewrite (Hsame Hterminal) in Hrun3.
    by rewrite (bind_Ok _ _ _ _ _ Hrun3).
  - exists w1. split; [done|].
    rewrite (bind_Ok _ _ _ _ _ (Hm (at_time t w1) Hw1 eq_refl)).
    rewrite (bind_Ok _ _ _ _ _ (Hsub' (at_time t w1) Hw1 eq_refl)).
    rewrite (bind_Ok _ _ _ _ _
               (getOrderByInvoiceId_healthy inv (at_time t w1) Hw1)).
    change (order_of_invoice inv (at_time t w1))
      with (order_of_invoice inv w1). by rewrite Ho.
Qed.

(** The invoice handlers are idempotent on their own, without the
    checkpoint of the processor: while the stores answer, handling a
    payment-succeeded or a payment-failed event a second time, at whatever
    later time, changes nothing.  The subscription already carries the status
    and period of the event, the order found or linked the first time is
    found by its invoice and is in a state the mark skips; in particular the
    second run links no second order and keeps the first payment or failure
    time. *)
Theorem invoice_handlers_idempotent (event : Stripe.Event) (t : Date)
    (w : World) :
  healthy w →
  (∃ w1,
     WebhookProcessorService.handleInvoicePaymentSucceeded event w
     = (Ok tt, w1)
     ∧ WebhookProcessorService.handleInvoicePaymentSucceeded event
         (at_time t w1) = (Ok tt, at_time t w1))
  ∧ (∃ w1,
       WebhookProcessorService.handleInvoicePaymentFailed event w
       = (Ok tt, w1)
       ∧ WebhookProcessorService.handleInvoicePaymentFailed event
           (at_time t w1) = (Ok tt, at_time t w1)).
Proof.
  intros Hw. split.
  - by apply handleInvoicePaymentSucceeded_again.
  - by apply handleInvoicePaymentFailed_again.
Qed.

Lemma invoice_handlers_idempotent_witness :
  ∃ w1,
    WebhookProcessorService.handleInvoicePaymentSucceeded evt_succeeded
      (shop [] [order_pending "o1" 2999 100; order_pending "o2" 2999 200])
    = (Ok tt, w1)
    ∧ orders w1 =
      [Order.mk "o1" "m1" 2999 PAID (Some "in_1") (Some 2000) None None 100;
       order_pending "o2" 2999 200]
    ∧ WebhookProcessorService.handleInvoicePaymentSucceeded evt_succeeded
        (at_time 9000 w1) = (Ok tt, at_time 9000 w1).
Proof.
  destruct (invoice_handlers_idempotent evt_succeeded 9000
              (shop [] [order_pending "o1" 2999 100;
                        order_pending "o2" 2999 200]))
    as [(w1 & Hrun & Hagain) _]; [reflexivity|].
  exists w1. split; [exact Hrun|]. split; [|exact Hagain].
  vm_compute in Hrun. by injection Hrun as <-.
Defined.

(** * From the request to the handler *)

(** Ingestion and delivery fit together.  A verified event seen for the
    first time, while the stores answer and the queue holds no job under its
    id, is stored and enqueued; and when a worker is handed that job, on
    whatever attempt, the delivery finds the row by the keys the job carries,
    reads the event back from the stored payload, does to subscriptions and
    orders exactly what the handler of the event type does, and leaves the
    row processed with the attempt counter as retry count.  The codec is
    assumed to read back what it wrote. *)
Theorem ingest_then_deliver (env : Env) (payload : Buffer)
    (signature : string) (event : Stripe.Event) (attemptsMade : Z)
    (w : World) :
  healthy w →
  pending w = [] →
  verified env payload signature event →
  JSON_parse env (JSON_stringify env event) = inr event →
  stored_event (Stripe.id event) w = None →
  job_of (Stripe.id event) w = None →
  next_id_fresh w →
  ∃ row w1 job wd w2 row',
    WebhooksService.handleWebhook env payload signature w = (Ok row, w1)
    ∧ last (queue w1) = Some job
    ∧ WebhookProcessorService.processEventByType event w1 = (Ok tt, wd)
    ∧ WebhookProcessorService.processJob env (delivered job attemptsMade) w1
      = (Ok tt, w2)
    ∧ subscriptions w2 = subscriptions wd
    ∧ orders w2 = orders wd
    ∧ stored_event (Stripe.id event) w2 = Some row'
    ∧ StripeEvent.id row' = StripeEvent.id row
    ∧ StripeEvent.processed row' = true
    ∧ StripeEvent.retryCount row' = attemptsMade.
Proof.
  intros Hw Hpend Hv Hcodec Hnew Hjob Hfresh.
  destruct (handleWebhook_new_event_run env payload signature event w Hw Hv
              Hnew) as (w1 & Hrun & Hw1 & Hevs & Hstored & _ & _ & _ & Hq).
  rewrite Hjob in Hq.
  pose proof (may_create_handleWebhook env payload signature _ _ _ Hrun)
    as [Hpend1 _].
  rewrite Hpend in Hpend1.
  set (row := StripeEvent.mk ("c" +:+ pretty (created w)) (Stripe.id event)
                (Stripe.type event) (JSON_stringify env event) false None
                None 0 (clock w)) in *.
  set (job := Job.mk (Stripe.id event) (Stripe.type event)
                (WebhookJobData.mk (StripeEvent.id row) (Stripe.id event)
                   (Stripe.type event) (StripeEvent.payload row) 0)
                0 waiting) in *.
  assert (Hid : event_row (StripeEvent.id row) w1 = Some row).
  { unfold event_row, next_id_fresh in *. rewrite Hevs.
    rewrite (find_app_None _ _ _ Hfresh). simpl.
    by rewrite bool_decide_eq_true_2. }
  destruct (processEventByType_healthy event w1 Hw1) as (subs' & ords' & Hd).
  set (wd := set_orders ords' (set_subscriptions subs' w1)) in *.
  assert (Hd' : WebhookProcessorService.processEventByType event
                  (set_pending [] w1) = (Ok tt, wd)).
  { by rewrite <- Hpend1, set_pending_id. }
  destruct (processJob_success env (delivered job attemptsMade) event row w1
              wd Hw1 Hcodec ltac:(simpl; by rewrite Hstored) Hid Hd'
              ltac:(done) ltac:(done) ltac:(done))
    as (evs' & Hupd & Hrow & Hdone).
  eexists row, w1, job, wd, _, _.
  split; [exact Hrun|]. split; [by rewrite Hq, last_snoc|].
  split; [exact Hd|]. split; [exact Hdone|].
  split; [reflexivity|]. split; [reflexivity|]. split.
  { unfold stored_event, event_row in *.
    exact (find_update_first_same_row _ _ _ _ _ _ Hid Hstored
             (StripeEvent_set_key _ _) Hupd). }
  by repeat split.
Qed.

Lemma ingest_then_deliver_witness :
  ∃ row w1 job w2,
    WebhooksService.handleWebhook demo_env [] "v1=good"
      (shop [] [order_pending "o1" 2999 100]) = (Ok row, w1)
    ∧ last (queue w1) = Some job
    ∧ WebhookProcessorService.processJob demo_env (delivered job 0) w1
      = (Ok tt, w2)
    ∧ StripeEvent.processed <$> stripeEvents w2 = [true]
    ∧ Order.status <$> orders w2 = [PAID].
Proof.
  destruct (ingest_then_deliver demo_env [] "v1=good" evt_succeeded 0
              (shop [] [order_pending "o1" 2999 100]))
    as (row & w1 & job & wd & w2 & row' & Hrun & Hjob & _ & Hdone & _);
    [reflexivity|reflexivity|by intros w|reflexivity..|].
  exists row, w1, job, w2.
  vm_compute in Hrun. injection Hrun as <- <-.
  vm_compute in Hjob. injection Hjob as <-.
  vm_compute in Hdone. injection Hdone as <-.
  repeat split.
Defined.

(** * Manual reprocessing of a stored event *)

(** A reprocessing request for a stored event, while the stores answer.  If
    the event is processed the request is refused with a
    [ConflictException], status 409, and nothing changes.  If it is not, the
    request returns and touches the queue only: when the queue holds no job
    under the event id, live or retained, it gains one job that carries the
    stored payload and the stored retry count; when it holds one, nothing is
    added.  So a second request, right after the first, adds nothing. *)
Theorem reprocessEvent_guard (stripeEventId : string) (event : StripeEvent.t)
    (w : World) :
  healthy w →
  stored_event stripeEventId w = Some event →
  if StripeEvent.processed event then
    ∃ e,
      WebhooksService.reprocessEvent stripeEventId w = (Throw e, w)
      ∧ name e = ConflictException
      ∧ getStatus e = 409
  else
    ∃ w1,
      WebhooksService.reprocessEvent stripeEventId w = (Ok tt, w1)
      ∧ w1 = set_queue (queue w1) w
      ∧ match job_of stripeEventId w with
        | Some _ => queue w1 = queue w
        | None => queue w1 = (queue w ++ [reenqueued event])%list
        end
      ∧ WebhooksService.reprocessEvent stripeEventId w1 = (Ok tt, w1).
Proof.
  intros Hw Hstored.
  assert (Hkey : StripeEvent.stripeEventId event = stripeEventId).
  { unfold stored_event in Hstored.
    apply find_Some_elem_of in Hstored as [_ Hkey].
    by apply bool_decide_eq_true in Hkey. }
  rewrite (reprocessEvent_cases stripeEventId w Hw), Hstored.
  destruct (StripeEvent.processed event) eqn:Hp.
  { eexists. split; [reflexivity|]. by split. }
  fold (reenqueued event). rewrite Hkey.
  destruct (job_of stripeEventId w) as [j|] eqn:Hjob.
  - exists w. split; [reflexivity|]. split; [by destruct w|].
    split; [reflexivity|].
    rewrite (reprocessEvent_cases stripeEventId w Hw), Hstored, Hp, Hkey.
    by rewrite Hjob.
  - eexists. split; [reflexivity|]. split; [reflexivity|].
    split; [reflexivity|].
    rewrite (reprocessEvent_cases stripeEventId
               (set_queue (queue w ++ [reenqueued event]) w) Hw).
    change (stored_event stripeEventId (set_queue _ w))
      with (stored_event stripeEventId w).
    rewrite Hstored, Hp, Hkey.
    assert (Hnow : job_of stripeEventId
                     (set_queue (queue w ++ [reenqueued event]) w)
                   = Some (reenqueued event)).
    { unfold job_of in *. wsimpl. rewrite (find_app_None _ _ _ Hjob).
      unfold webhookQueue.has_id, reenqueued. simpl.
      by rewrite bool_decide_eq_true_2. }
    by rewrite Hnow.
Qed.

Lemma reprocessEvent_guard_witness :
  ∃ w1,
    WebhooksService.reprocessEvent "evt_1"
      (shop [row_of "c0" evt_succeeded false 3] []) = (Ok tt, w1)
    ∧ queue w1 = [reenqueued (row_of "c0" evt_succeeded false 3)]
    ∧ WebhooksService.reprocessEvent "evt_1" w1 = (Ok tt, w1).
Proof.
  destruct (reprocessEvent_guard "evt_1" (row_of "c0" evt_succeeded false 3)
              (shop [row_of "c0" evt_succeeded false 3] []))
    as (w1 & Hrun & _ & Hq & Hagain); [reflexivity..|].
  exists w1. by repeat split.
Defined.

(** * The queue service *)

(** Enqueueing is keyed by the provider event id.  While the queue answers,
    [enqueueWebhookEvent] returns the provider event id of its data as job
    id, after which [jobExists] answers [true] for that id; the queue gains
    the job when it held none under the id and is unchanged when it held
    one; and enqueueing again under the same id, with whatever other data,
    changes nothing: the job keeps the data it was first given. *)
Theorem enqueue_then_jobExists (data other : WebhookJobData.t) (w : World) :
  healthy w →
  WebhookJobData.stripeEventId other = WebhookJobData.stripeEventId data →
  let key := WebhookJobData.stripeEventId data in
  ∃ w1,
    QueueService.enqueueWebhookEvent data w = (Ok key, w1)
    ∧ QueueService.jobExists key w1 = (Ok true, w1)
    ∧ QueueService.enqueueWebhookEvent other w1 = (Ok key, w1)
    ∧ match job_of key w with
      | Some _ => w1 = w
      | None =>
          w1 = set_queue
                 (queue w ++
                  [Job.mk key (WebhookJobData.eventType data) data 0 waiting])
                 w
      end.
Proof.
  intros Hw Hother key. unfold job_of. open_world w Hw. wsimpl.
  destruct (find (webhookQueue.has_id key) jobs) as [j|] eqn:Hj.
  - eexists. split; [mrun; fold key; rewrite Hj; reflexivity|].
    mrun. rewrite Hother. fold key. rewrite Hj.
    rewrite bool_decide_eq_true_2 by done. by repeat split.
  - eexists. split; [mrun; fold key; rewrite Hj; mrun; reflexivity|].
    mrun. rewrite Hother. fold key.
    assert (Hnow : find (webhookQueue.has_id key)
                     (jobs ++ [Job.mk key (WebhookJobData.eventType data)
                                      data 0 waiting])
                   = Some (Job.mk key (WebhookJobData.eventType data) data 0
                                  waiting)).
    { rewrite (find_app_None _ _ _ Hj). unfold webhookQueue.has_id. simpl.
      by rewrite bool_decide_eq_true_2. }
    rewrite Hnow. rewrite bool_decide_eq_true_2 by done. by repeat split.
Qed.

Lemma enqueue_then_jobExists_witness :
  ∃ w1,
    QueueService.enqueueWebhookEvent
      (WebhookJobData.mk "c0" "evt_1" "invoice.payment_succeeded" "{evt_1}" 0)
      (shop [] []) = (Ok "evt_1", w1)
    ∧ QueueService.jobExists "evt_1" w1 = (Ok true, w1)
    ∧ QueueService.enqueueWebhookEvent
        (WebhookJobData.mk "c9" "evt_1" "invoice.payment_failed" "{}" 7) w1
      = (Ok "evt_1", w1).
Proof.
  destruct (enqueue_then_jobExists
              (WebhookJobData.mk "c0" "evt_1" "invoice.payment_succeeded"
                                 "{evt_1}" 0)
              (WebhookJobData.mk "c9" "evt_1" "invoice.payment_failed" "{}" 7)
              (shop [] []))
    as (w1 & Hrun & Hexists & Hagain & _); [reflexivity..|].
  by exists w1.
Defined.

(** * A delivery that fails *)

Lemma update_first_find {A : Type} (p : A → bool) (f : A → A)
    (l l' : list A) :
  update_first p f l = Some l' → is_Some (find p l).
Proof.
  revert l'. induction l as [|y l IH]; simpl; [discriminate|].
  intros l'. destruct (p y); [by eexists|].
  destruct (update_first p f l) as [l0|]; [|discriminate].
  intros _. by eapply IH.
Qed.

Lemma update_first_processed (p : StripeEvent.t → bool)
    (d : StripeEventUpdateInput.t) (l l' : list StripeEvent.t) :
  StripeEventUpdateInput.processed d = None →
  update_first p (StripeEvent_set d) l = Some l' →
  StripeEvent.processed <$> l' = StripeEvent.processed <$> l.
Proof.
  intros Hd. revert l'. induction l as [|y l IH]; simpl; [discriminate|].
  intros l'. destruct (p y).
  - intros [= <-]. rewrite !fmap_cons. simpl. by rewrite Hd.
  - destruct (update_first p (StripeEvent_set d) l) as [l0|]; [|discriminate].
    intros [= <-]. rewrite !fmap_cons. f_equal. by apply IH.
Qed.

(** A delivery that throws marks nothing processed.  Whatever the job and
    whatever the stores answer, when [processJob] throws, every event row has
    the [processed] flag it had, the open transaction is as it was, and the
    event rows are untouched or the row the job names carries the message of
    the error thrown and the attempt number [attemptsMade + 1], its other
    columns as they were. *)
Theorem processJob_failure_leaves_unprocessed (env : Env) (job : Job.t)
    (w w' : World) (e : Exception) :
  let eventId := WebhookJobData.eventId (Job.data job) in
  WebhookProcessorService.processJob env job w = (Throw e, w') →
  StripeEvent.processed <$> stripeEvents w'
  = StripeEvent.processed <$> stripeEvents w
  ∧ pending w' = pending w
  ∧ (stripeEvents w' = stripeEvents w
     ∨ ∃ row,
         event_row eventId w = Some row
         ∧ event_row eventId w' =
           Some (StripeEvent.mk
                   (StripeEvent.id row) (StripeEvent.stripeEventId row)
                   (StripeEvent.eventType row) (StripeEvent.payload row)
                   (StripeEvent.processed row) (StripeEvent.processedAt row)
                   (Some (message e)) (Job.attemptsMade job + 1)
                   (StripeEvent.createdAt row))).
Proof.
  intros eventId Hrun. subst eventId. unfold event_row.
  apply processJob_event_rows in Hrun
    as [Hpend [Hevs | [[[=] _] | (e' & [= <-] & Hupd)]]].
  { rewrite Hevs. by repeat split; [|left]. }
  split; [by eapply update_first_processed; [|exact Hupd]|].
  split; [done|]. right.
  destruct (update_first_find _ _ _ _ Hupd) as [row Hrow].
  exists row. split; [done|].
  rewrite (find_update_first _ _ _ _ (StripeEvent_set_id _ _) Hupd).
  by rewrite Hrow.
Qed.

Lemma processJob_failure_leaves_unprocessed_witness :
  ∃ e w',
    WebhookProcessorService.processJob demo_env
      (delivery (row_of "c0" evt_succeeded false 0) 2)
      (set_faults [None; None; Some "Can't reach database server"]
         (shop [row_of "c0" evt_succeeded false 0] []))
    = (Throw e, w')
    ∧ StripeEvent.processed <$> stripeEvents w'
      = StripeEvent.processed <$>
          stripeEvents (shop [row_of "c0" evt_succeeded false 0] [])
    ∧ StripeEvent.retryCount <$> stripeEvents w' = [3].
Proof.
  eexists _, _. split; [vm_compute; reflexivity|].
  split; [|reflexivity].
  refine (proj1 (processJob_failure_leaves_unprocessed demo_env
                   (delivery (row_of "c0" evt_succeeded false 0) 2)
                   (set_faults [None; None; Some "Can't reach database server"]
                      (shop [row_of "c0" evt_succeeded false 0] []))
                   _ _ _)).
  vm_compute. reflexivity.
Defined.

(** * What an acknowledgement means *)

Lemma triple_any {A : Type} (P : World → Prop) (m : M A) :
  triple (λ _, True) P m (λ _ _, True).
Proof. intros w r w' _ _ _. by destruct r. Qed.

(** A computation that leaves the event rows alone keeps what is known of
    them. *)
Lemma triple_keeps {A : Type} (P : World → Prop) (m : M A) :
  keeps_events m →
  (∀ w w', stripeEvents w' = stripeEvents w → pending w' = pending w →
           P w → P w') →
  triple (λ _, True) P m (λ _, P).
Proof.
  intros Hm HP w r w' _ Hpre Hrun. apply Hm in Hrun as [Hevs Hpend].
  split; [done|]. destruct r; [|done]. by apply (HP w).
Qed.

Lemma triple_stripeEvent_findUnique (k : StripeEventWhereUniqueInput) :
  triple (λ _, True) (λ _, True) (prisma.stripeEvent.findUnique k)
         (λ a w, find (StripeEvent_matches k) (stripeEvents w) = a).
Proof.
  unfold prisma.stripeEvent.findUnique.
  eapply triple_bind; [by apply triple_external|].
  intros []. by apply triple_gets.
Qed.

Lemma triple_stripeEvent_create (stripeEventId eventType payload : string)
    (processed : bool) (retryCount : Z) :
  triple (λ _, True) (λ _, True)
         (prisma.stripeEvent.create stripeEventId eventType payload processed
                                    retryCount)
         (λ row w, stored_event (StripeEvent.stripeEventId row) w = Some row).
Proof.
  unfold prisma.stripeEvent.create.
  eapply triple_bind; [by apply triple_external|].
  intros [].
  eapply triple_bind with (Q1 := λ rows w, rows = stripeEvents w).
  { by apply triple_gets. }
  intros rows. destruct (find _ rows) eqn:Hfind; [apply triple_throw|].
  intros w r w' _ -> Hrun. split; [done|].
  cbv beta iota zeta delta [mbind mret M_bind M_ret gets modify] in Hrun.
  injection Hrun as <- <-. unfold stored_event. wsimpl.
  rewrite (find_app_None _ _ _ Hfind). simpl.
  by rewrite bool_decide_eq_true_2.
Qed.

(** An acknowledged event is a stored event.  Whatever the request and
    whatever the stores answer, if ingestion returns a row, and the endpoint
    so answers the provider with a success, then that row is in the event
    log, under the provider event id it carries.  A failure of the queue does
    not take it back. *)
Theorem handleWebhook_acknowledged_is_stored (env : Env) (payload : Buffer)
    (signature : string) (w w' : World) (row : StripeEvent.t) :
  WebhooksService.handleWebhook env payload signature w = (Ok row, w') →
  stored_event (StripeEvent.stripeEventId row) w' = Some row.
Proof.
  intros Hrun.
  cut (triple (λ _, True) (λ _, True)
         (WebhooksService.handleWebhook env payload signature)
         (λ row w, stored_event (StripeEvent.stripeEventId row) w = Some row)).
  { intros H. by destruct (H _ _ _ I I Hrun). }
  clear. unfold WebhooksService.handleWebhook.
  pose proof keeps_enqueueWebhookEvent. pose proof keeps_jobExists.
  eapply triple_bind; [apply triple_any|].
  intros event.
  eapply triple_bind; [apply triple_stripeEvent_findUnique|].
  intros [existing|].
  - eapply triple_bind with
      (Q1 := λ _ w, stored_event (Stripe.id event) w = Some existing).
    + apply triple_keeps; [keeps|].
      intros w w' Hevs _. unfold stored_event. by rewrite Hevs.
    + intros []. apply triple_ret. intros w _ Hstored.
      assert (StripeEvent.stripeEventId existing = Stripe.id event) as ->;
        [|done].
      unfold stored_event in Hstored.
      apply find_Some_elem_of in Hstored as [_ Hkey].
      by apply bool_decide_eq_true in Hkey.
  - eapply triple_bind.
    { eapply triple_weaken; [| |apply triple_stripeEvent_create]; [done|].
      intros a w _ Hq. exact Hq. }
    intros stripeEvent.
    eapply triple_bind with
      (Q1 := λ _ w, stored_event (StripeEvent.stripeEventId stripeEvent) w
                    = Some stripeEvent).
    + apply triple_keeps; [keeps|].
      intros w w' Hevs _. unfold stored_event. by rewrite Hevs.
    + intros []. by apply triple_ret.
Qed.

Lemma handleWebhook_acknowledged_is_stored_witness :
  ∃ row w',
    WebhooksService.handleWebhook demo_env [] "v1=good"
      (set_faults [None; None; Some "Connection is closed."] (shop [] []))
    = (Ok row, w')
    ∧ stored_event (StripeEvent.stripeEventId row) w' = Some row
    ∧ queue w' = [].
Proof.
  eexists _, _. split; [vm_compute; reflexivity|]. split; [|reflexivity].
  apply (handleWebhook_acknowledged_is_stored demo_env [] "v1=good"
           (set_faults [None; None; Some "Connection is closed."]
                       (shop [] []))).
  vm_compute. reflexivity.
Defined.

Lemma keeps_parse (env : Env) (payload : string) :
  keeps_events (WebhookProcessorService.parse env payload).
Proof. unfold WebhookProcessorService.parse. keeps. Qed.

(** A delivery returns only with a processed row to show for it.  Whatever
    the job and whatever the stores answer, if [processJob], run outside any
    transaction, returns, so that the queue takes the job for completed, then
    the event log holds a processed row that carries the provider event id
    or the internal id of the job: the row the checkpoint found processed, or
    the row this delivery marked. *)
Theorem processJob_completes_only_processed (env : Env) (job : Job.t)
    (w w' : World) :
  pending w = [] →
  WebhookProcessorService.processJob env job w = (Ok tt, w') →
  ∃ row,
    row ∈ stripeEvents w'
    ∧ StripeEvent.processed row = true
    ∧ (StripeEvent.stripeEventId row
       = WebhookJobData.stripeEventId (Job.data job)
       ∨ StripeEvent.id row = WebhookJobData.eventId (Job.data job)).
Proof.
  intros Hpend Hrun.
  set (eventId := WebhookJobData.eventId (Job.data job)) in *.
  set (stripeEventId := WebhookJobData.stripeEventId (Job.data job)) in *.
  unfold WebhookProcessorService.processJob, try_catch in Hrun.
  cbv zeta in Hrun. fold eventId stripeEventId in Hrun.
  match type of Hrun with
  | context [transaction ?b] => set (body := b) in *
  end.
  assert (Hbody :
    triple (λ _, True) (λ w, pending w = []) body
      (λ _ w,
         (pending w = []
          ∧ ∃ row, find (StripeEvent_matches
                           (StripeEvent_stripeEventId stripeEventId))
                        (stripeEvents w) = Some row
                   ∧ StripeEvent.processed row = true)
         ∨ (∃ mark row,
              pending w = [TxStripeEventUpdate eventId mark]
              ∧ find (StripeEvent_matches (StripeEvent_id eventId))
                     (stripeEvents w) = Some row
              ∧ StripeEventUpdateInput.processed mark = Some true))).
  { subst body.
    eapply triple_bind with
      (Q1 := λ a w, pending w = []
                    ∧ find (StripeEvent_matches
                              (StripeEvent_stripeEventId stripeEventId))
                           (stripeEvents w) = a).
    { unfold tx.stripeEvent.findUnique.
      eapply triple_bind; [by apply triple_external|].
      intros []. apply triple_gets. intros w0 _ Hp. split; [done|].
      unfold tx_view. by rewrite Hp. }
    intros existing.
    destruct (from_option StripeEvent.processed false existing) eqn:Hp.
    { apply triple_ret. intros w0 _ [Hp0 Hfind]. left. split; [done|].
      destruct existing as [row|]; [|discriminate]. by exists row. }
    eapply triple_bind with (Q1 := λ _ w, pending w = []).
    { eapply triple_weaken;
        [| |apply (triple_keeps (λ w, pending w = []));
             [apply keeps_parse|]].
      - by intros w0 _ [Hp0 _].
      - by intros a w0 _ Hp0.
      - intros w0 w1 _ Hp1 Hp0. by rewrite Hp1. }
    intros event.
    eapply triple_bind with (Q1 := λ _ w, pending w = []).
    { apply triple_keeps; [apply keeps_processEventByType|].
      intros w0 w1 _ Hp1 Hp0. by rewrite Hp1. }
    intros [].
    eapply triple_bind with (Q1 := λ _ w, pending w = []).
    { by apply triple_gets. }
    intros now. unfold tx.stripeEvent.update.
    eapply triple_bind; [by apply triple_external|].
    intros [].
    eapply triple_bind with
      (Q1 := λ rows w, pending w = [] ∧ rows = stripeEvents w).
    { apply triple_gets. intros w0 _ Hp0. split; [done|].
      unfold tx_view. by rewrite Hp0. }
    intros rows.
    destruct (find _ rows) as [row|] eqn:Hrow; [|apply triple_throw].
    apply triple_modify. intros w0 _ [Hp0 ->]. split; [done|].
    right. eexists _, row. wsimpl. rewrite Hp0. by repeat split. }
  unfold transaction in Hrun.
  destruct (body (set_pending [] w)) as [[[]|e] w2] eqn:Hb; cycle 1.
  { match type of Hrun with
    | context [prisma.stripeEvent.update ?k ?d] =>
        unfold mbind, M_bind in Hrun;
        destruct (prisma.stripeEvent.update k d
                    (set_pending (pending w) w2)) as [[[]|e'] w3]
    end; discriminate. }
  injection Hrun as <-.
  destruct (Hbody (set_pending [] w) _ _ I eq_refl Hb)
    as [_ [[Hp2 (row & Hrow & Hproc)] | (mark & row & Hp2 & Hrow & Hmark)]];
    wsimpl; unfold tx_view; rewrite Hp2; simpl.
  - exists row. apply find_Some_elem_of in Hrow as [Hin Hkey].
    split; [done|]. split; [done|]. left.
    by apply bool_decide_eq_true in Hkey.
  - destruct (update_first_Some _ (StripeEvent_set mark) _ _ Hrow)
      as [rows' Hupd].
    rewrite Hupd. simpl. exists (StripeEvent_set mark row).
    split; [by eapply update_first_elem_of|].
    split; [simpl; by rewrite Hmark|]. right. simpl.
    apply find_Some_elem_of in Hrow as [_ Hkey].
    by apply bool_decide_eq_true in Hkey.
Qed.

Lemma processJob_completes_only_processed_witness :
  ∃ w' row,
    WebhookProcessorService.processJob demo_env
      (delivery (row_of "c0" evt_unknown false 0) 1)
      (shop [row_of "c0" evt_unknown false 0] []) = (Ok tt, w')
    ∧ row ∈ stripeEvents w'
    ∧ StripeEvent.processed row = true.
Proof.
  destruct (processJob_completes_only_processed demo_env
              (delivery (row_of "c0" evt_unknown false 0) 1)
              (shop [row_of "c0" evt_unknown false 0] [])
              (snd (WebhookProcessorService.processJob demo_env
                      (delivery (row_of "c0" evt_unknown false 0) 1)
                      (shop [row_of "c0" evt_unknown false 0] []))))
    as (row & Hin & Hproc & _); [reflexivity|vm_compute; reflexivity|].
  eexists _, row. split; [vm_compute; reflexivity|]. by split.
Defined.

(** * What the invoice handlers write *)

Lemma extractFailureReason_truthy (invoice : Stripe.Object) :
  truthy_string (WebhookProcessorService.extractFailureReason invoice) = true.
Proof.
  unfold WebhookProcessorService.extractFailureReason, string_or.
  destruct (Stripe.last_finalization_error invoice) as [[[m|]]|]; simpl.
  - by destruct (truthy_string m) eqn:Hm.
  - done.
  - destruct (Stripe.charge invoice) as [[r|[[m|]]]|]; simpl; try done.
    by destruct (truthy_string m) eqn:Hm.
Qed.

(** [markOrderAsPaymentFailed] on a linked order that is neither paid nor
    failed: exactly that row is rewritten. *)
Lemma markOrderAsPaymentFailed_open (inv reason : string) (o : Order.t)
    (w : World) :
  healthy w →
  order_of_invoice inv w = Some o →
  Order.status o ≠ PAID → Order.status o ≠ PAYMENT_FAILED →
  truthy_string reason = true →
  let data := OrderUpdateInput.mk (Some PAYMENT_FAILED) None None
                                  (Some (clock w)) (Some reason) in
  ∃ ords',
    update_first (Order_matches (Order_stripeInvoiceId inv)) (Order_set data)
                 (orders w) = Some ords'
    ∧ OrdersService.markOrderAsPaymentFailed inv (Some reason) w
      = (Ok (Some (Order_set data o)), set_orders ords' w).
Proof.
  intros Hw Ho Hpaid Hfailed Hreason data. unfold order_of_invoice in Ho.
  open_world w Hw. wsimpl. mrun. rewrite Ho.
  rewrite !bool_decide_eq_false_2 by done. simpl. mrun. rewrite Ho.
  unfold string_or. simpl. rewrite Hreason. fold data.
  destruct (update_first_Some _ (Order_set data) _ _ Ho) as [ords' Hupd].
  rewrite Hupd. mrun. by exists ords'.
Qed.

(** The order part of the two invoice handlers rewrites orders only. *)
Lemma succeeded_orders_part (merchantId inv : string) (amount : Z)
    (w : World) :
  healthy w →
  ∃ ords',
    (order ← OrdersService.getOrderByInvoiceId inv;
     match order with
     | Some _ =>
         now ← new_Date;
         OrdersService.markOrderAsPaid inv (Some now);;
         mret tt
     | None =>
         linkedOrder ← OrdersService.findAndLinkOrderToInvoice
                         merchantId inv amount;
         match linkedOrder with
         | Some _ =>
             now ← new_Date;
             OrdersService.markOrderAsPaid inv (Some now);;
             mret tt
         | None => mret tt
         end
     end) w = (Ok tt, set_orders ords' w).
Proof.
  intros Hw.
  rewrite (bind_Ok _ _ _ _ _ (getOrderByInvoiceId_healthy inv w Hw)).
  destruct (order_of_invoice inv w).
  - destruct (markOrderAsPaid_total inv (Some (clock w)) w Hw)
      as (r & ords' & Hpaid).
    exists ords'. change ((new_Date ≫= ?f) w) with (f (clock w) w). cbv beta.
    by rewrite (bind_Ok _ _ _ _ _ Hpaid).
  - destruct (findAndLinkOrderToInvoice_total merchantId inv amount w Hw)
      as ([linked|] & ords1 & Hlink);
      rewrite (bind_Ok _ _ _ _ _ Hlink); [|by exists ords1].
    set (w2 := set_orders ords1 w).
    destruct (markOrderAsPaid_total inv (Some (clock w2)) w2 ltac:(done))
      as (r & ords' & Hpaid).
    exists ords'. change ((new_Date ≫= ?f) w2) with (f (clock w2) w2).
    cbv beta. by rewrite (bind_Ok _ _ _ _ _ Hpaid).
Qed.

Lemma failed_orders_part (inv : string) (reason : option string)
    (w : World) :
  healthy w →
  ∃ ords',
    (order ← OrdersService.getOrderByInvoiceId inv;
     match order with
     | Some _ =>
         OrdersService.markOrderAsPaymentFailed inv reason;; mret tt
     | None => mret tt
     end) w = (Ok tt, set_orders ords' w).
Proof.
  intros Hw.
  rewrite (bind_Ok _ _ _ _ _ (getOrderByInvoiceId_healthy inv w Hw)).
  destruct (order_of_invoice inv w).
  - destruct (markOrderAsPaymentFailed_total inv reason w Hw)
      as (r & ords' & Hfail).
    exists ords'. by rewrite (bind_Ok _ _ _ _ _ Hfail).
  - exists (orders w). by rewrite set_orders_id.
Qed.

(** Invoice events drive the subscription.  For an invoice whose customer
    resolves to a merchant and that names a known subscription, while the
    stores answer: a payment-succeeded event leaves the subscription
    [active], with each period bound taken from the invoice when the invoice
    carries it and kept otherwise; a payment-failed event leaves it
    [past_due] with its period as it was.  Neither touches the cancellation
    columns, and this holds whether or not an order is found for the
    invoice. *)
Theorem invoice_events_drive_subscription (event : Stripe.Event)
    (merchant : Merchant.t) (c k : string) (s : Subscription.t) (w : World) :
  let invoice := Stripe.object event in
  healthy w →
  WebhookProcessorService.id_of (Stripe.customer invoice) = Some c →
  truthy_string c = true →
  merchant_of_customer c w = Some merchant →
  WebhookProcessorService.present (Stripe.subscription invoice) = true →
  WebhookProcessorService.id_of (Stripe.subscription invoice) = Some k →
  subscription_of k w = Some s →
  (∃ w',
     WebhookProcessorService.handleInvoicePaymentSucceeded event w
     = (Ok tt, w')
     ∧ subscription_of k w' =
       Some (Subscription.mk
               (Subscription.id s) (Subscription.merchantId s)
               (Subscription.stripeSubscriptionId s) "active"
               (match date_of_seconds (Stripe.period_start invoice) with
                | Some t => Some t
                | None => Subscription.currentPeriodStart s
                end)
               (match date_of_seconds (Stripe.period_end invoice) with
                | Some t => Some t
                | None => Subscription.currentPeriodEnd s
                end)
               (Subscription.canceledAt s) (Subscription.cancelAtPeriodEnd s)))
  ∧ (∃ w',
       WebhookProcessorService.handleInvoicePaymentFailed event w
       = (Ok tt, w')
       ∧ subscription_of k w' =
         Some (Subscription.mk
                 (Subscription.id s) (Subscription.merchantId s)
                 (Subscription.stripeSubscriptionId s) "past_due"
                 (Subscription.currentPeriodStart s)
                 (Subscription.currentPeriodEnd s)
                 (Subscription.canceledAt s)
                 (Subscription.cancelAtPeriodEnd s))).
Proof.
  intros invoice Hw Hc Htruthy Hm Hpresent Hk Hs.
  assert (Hafter : ∀ status d subs',
            update_first (prisma.subscription.by_stripeSubscriptionId k)
                         (Subscription_set status d) (subscriptions w)
            = Some subs' →
            ∀ ords', subscription_of k (set_orders ords'
                                          (set_subscriptions subs' w))
                     = Some (Subscription_set status d s)).
  { intros status d subs' Hupd ords'. unfold subscription_of in *. wsimpl.
    rewrite (subscription_of_after_update _ k _ _ _ _ Hupd).
    rewrite bool_decide_eq_true_2 by done. by rewrite Hs. }
  split.
  - unfold WebhookProcessorService.handleInvoicePaymentSucceeded. cbv zeta.
    fold invoice. rewrite Hc, Hpresent, Hk.
    rewrite (bind_Ok _ _ _ _ _ (resolveMerchant_healthy c w Hw Htruthy)), Hm.
    cbn [default from_option id].
    match goal with
    | |- context [MerchantsService.updateSubscriptionStatus k ?st ?d] =>
        destruct (updateSubscriptionStatus_known k st d s w Hw Hs)
          as (subs' & Hrun & Hupd)
    end.
    rewrite (bind_Ok _ _ _ _ _ (bind_Ok _ _ _ _ _ Hrun : _ = (Ok tt, _))).
    destruct (succeeded_orders_part (Merchant.id merchant)
                (Stripe.object_id invoice)
                (number_or (Stripe.amount_paid invoice) 0)
                (set_subscriptions subs' w) Hw) as (ords' & Hords).
    eexists. split; [exact Hords|].
    by rewrite (Hafter _ _ _ Hupd).
  - unfold WebhookProcessorService.handleInvoicePaymentFailed. cbv zeta.
    fold invoice. rewrite Hc, Hpresent, Hk.
    rewrite (bind_Ok _ _ _ _ _ (resolveMerchant_healthy c w Hw Htruthy)), Hm.
    cbn [default from_option id].
    destruct (updateSubscriptionStatus_known k "past_due"
                SubscriptionData.empty s w Hw Hs) as (subs' & Hrun & Hupd).
    rewrite (bind_Ok _ _ _ _ _ (bind_Ok _ _ _ _ _ Hrun : _ = (Ok tt, _))).
    destruct (failed_orders_part (Stripe.object_id invoice)
                (Some (WebhookProcessorService.extractFailureReason invoice))
                (set_subscriptions subs' w) Hw) as (ords' & Hords).
    eexists. split; [exact Hords|].
    by rewrite (Hafter _ _ _ Hupd).
Qed.

Lemma invoice_events_drive_subscription_witness :
  ∃ w',
    WebhookProcessorService.handleInvoicePaymentSucceeded evt_succeeded
      (shop [] []) = (Ok tt, w')
    ∧ subscriptions w' =
      [Subscription.mk "s1" "m1" "sub_1" "active" (Some 1700000000000)
                       (Some 1702592000000) None false].
Proof.
  destruct (invoice_events_drive_subscription evt_succeeded merchant_1 "cus_1"
              "sub_1" subscription_1 (shop [] []))
    as [(w' & Hrun & _) _]; [reflexivity..|].
  exists w'. split; [exact Hrun|].
  vm_compute in Hrun. by injection Hrun as <-.
Defined.

(** A failed payment on an open order.  For an invoice whose customer
    resolves to a merchant and that an order references, the order being
    neither paid nor failed, the payment-failed handler, while the stores
    answer, leaves the order [PAYMENT_FAILED], stamped with the time of
    processing and carrying the reason extracted from the invoice; the
    invoice link, the payment time and the other columns are as they were. *)
Theorem handleInvoicePaymentFailed_records_reason (event : Stripe.Event)
    (merchant : Merchant.t) (c : string) (o : Order.t) (w : World) :
  let invoice := Stripe.object event in
  let inv := Stripe.object_id invoice in
  healthy w →
  WebhookProcessorService.id_of (Stripe.customer invoice) = Some c →
  truthy_string c = true →
  merchant_of_customer c w = Some merchant →
  order_of_invoice inv w = Some o →
  Order.status o ≠ PAID → Order.status o ≠ PAYMENT_FAILED →
  ∃ w',
    WebhookProcessorService.handleInvoicePaymentFailed event w = (Ok tt, w')
    ∧ order_of_invoice inv w' =
      Some (Order.mk
              (Order.id o) (Order.merchantId o) (Order.amount o) PAYMENT_FAILED
              (Order.stripeInvoiceId o) (Order.paidAt o) (Some (clock w))
              (Some (WebhookProcessorService.extractFailureReason invoice))
              (Order.createdAt o)).
Proof.
  intros invoice inv Hw Hc Htruthy Hm Ho Hpaid Hfailed.
  unfold WebhookProcessorService.handleInvoicePaymentFailed. cbv zeta.
  fold invoice. fold inv. rewrite Hc.
  rewrite (bind_Ok _ _ _ _ _ (resolveMerchant_healthy c w Hw Htruthy)), Hm.
  destruct (subscription_step
              (WebhookProcessorService.present (Stripe.subscription invoice))
              (default "" (WebhookProcessorService.id_of
                             (Stripe.subscription invoice)))
              "past_due" SubscriptionData.empty w Hw) as [subs' Hsub].
  rewrite (bind_Ok _ _ _ _ _ Hsub).
  set (w1 := set_subscriptions subs' w).
  assert (Hw1 : healthy w1) by done.
  rewrite (bind_Ok _ _ _ _ _ (getOrderByInvoiceId_healthy inv w1 Hw1)).
  change (order_of_invoice inv w1) with (order_of_invoice inv w). rewrite Ho.
  destruct (markOrderAsPaymentFailed_open inv
              (WebhookProcessorService.extractFailureReason invoice) o w1 Hw1
              Ho Hpaid Hfailed (extractFailureReason_truthy invoice))
    as (ords' & Hupd & Hrun).
  rewrite (bind_Ok _ _ _ _ _ Hrun). eexists. split; [reflexivity|].
  unfold order_of_invoice in *. subst w1. wsimpl.
  set (data := OrderUpdateInput.mk (Some PAYMENT_FAILED) None None
                 (Some (clock w))
                 (Some (WebhookProcessorService.extractFailureReason invoice)))
    in *.
  rewrite (find_update_first _ _ _ _
             (λ x, Order_set_invoice_key data inv x eq_refl) Hupd).
  by rewrite Ho.
Qed.

Lemma handleInvoicePaymentFailed_records_reason_witness :
  ∃ w',
    WebhookProcessorService.handleInvoicePaymentFailed
      (Stripe.mkEvent "evt_6" "invoice.payment_failed"
         (Stripe.mkObject "in_1" (Some (Ref "cus_1")) None None None (Some 0)
            (Some (Stripe.mkApiError (Some "Card expired."))) None "open"
            None None None None))
      (shop [] [order_linked "o1" "in_1" PENDING]) = (Ok tt, w')
    ∧ orders w' =
      [Order.mk "o1" "m1" 2999 PAYMENT_FAILED (Some "in_1") None (Some 2000)
                (Some "Card expired.") 900].
Proof.
  destruct (handleInvoicePaymentFailed_records_reason
              (Stripe.mkEvent "evt_6" "invoice.payment_failed"
                 (Stripe.mkObject "in_1" (Some (Ref "cus_1")) None None None
                    (Some 0) (Some (Stripe.mkApiError (Some "Card expired.")))
                    None "open" None None None None))
              merchant_1 "cus_1" (order_linked "o1" "in_1" PENDING)
              (shop [] [order_linked "o1" "in_1" PENDING]))
    as (w' & Hrun & _); [reflexivity..|discriminate|discriminate|].
  exists w'. split; [exact Hrun|].
  vm_compute in Hrun. by injection Hrun as <-.
Defined.

(** * The listing endpoint *)



